(** * cpu_recorder: a shallow embedding of [src/cpu_recorder.py]

    The script samples the aggregate processor counters of [/proc/stat]
    twice per cycle, turns the two snapshots into a utilization
    percentage and appends one CSV row per cycle to a sink.

    Modelling conventions.
    - Python [int] is [Z] (unbounded); Python [float] is IEEE 754 binary64,
      taken from the Standard Library's [SpecFloat] at [prec = 53],
      [emax = 1024].
    - Python [str] is [string]; an [ascii] stands for the code point of the
      same number, so the model covers text whose code points are below 256
      (everything [/proc/stat] emits).
    - A raised exception is the left injection of [result]; state that
      survives an exception (the files, the read counters) is threaded
      through the [M] monad.
    - Where a path leads is the matter of the environment ([locate]):
      opening the target can raise, and the files of the world are keyed
      by the file a path is located at, not by its spelling. *)

From Stdlib Require Import ZArith Lia Bool List Ascii String SpecFloat.
From stdpp Require Import base option list strings gmap.

#[local] Open Scope Z_scope.

(** ** Exceptions and results *)

Inductive exn : Type :=
  | OSError          (* open/readline of the counter source, open of the target *)
  | ValueError       (* int() on a malformed token, sleep() on a bad length *)
  | IndexError       (* list index out of range *)
  | OverflowError    (* int too large to convert to float *)
  | ZeroDivisionError.

Definition result (A : Type) : Type := exn + A.

Abbreviation Ok := (@inr exn _).
Abbreviation Raise := (@inl exn _).

Definition rbind {A B} (r : result A) (k : A -> result B) : result B :=
  match r with
  | inl e => inl e
  | inr a => k a
  end.

Declare Scope result_scope.
Delimit Scope result_scope with result.
Notation "x <~ c ;; k" := (rbind c (fun x => k))
  (at level 100, c at next level, right associativity) : result_scope.

#[global] Instance exn_eq_dec : EqDecision exn.
Proof. solve_decision. Defined.

(** ** Text: [str.strip], [str.split], [int] *)

Module Text.

(** [str.isspace] on one code point below 256: TAB..CR, FS..US, SPACE,
    NEL (0x85) and NBSP (0xA0). *)
Definition isspace (c : ascii) : bool :=
  let n := nat_of_ascii c in
  ((9 <=? n) && (n <=? 13))%nat || ((28 <=? n) && (n <=? 32))%nat
  || (n =? 133)%nat || (n =? 160)%nat.

(** Decimal value of a digit; [None] for every other character. *)
Definition digit_value (c : ascii) : option Z :=
  let n := nat_of_ascii c in
  if ((48 <=? n) && (n <=? 57))%nat then Some (Z.of_nat n - 48) else None.

Definition isdigit (c : ascii) : bool :=
  match digit_value c with Some _ => true | None => false end.

Fixpoint lstrip (s : string) : string :=
  match s with
  | String c s' => if isspace c then lstrip s' else s
  | EmptyString => EmptyString
  end.

(** [rstrip] walks from the right: a whitespace character is dropped
    exactly when everything after it was dropped. *)
Fixpoint rstrip (s : string) : string :=
  match s with
  | EmptyString => EmptyString
  | String c s' =>
      match rstrip s' with
      | EmptyString => if isspace c then EmptyString else String c EmptyString
      | r => String c r
      end
  end.

(** [s.strip()] *)
Definition strip (s : string) : string := rstrip (lstrip s).

(** [s.split()] with no separator: the maximal runs of non-whitespace
    characters, in order.  [tok] is the run being collected. *)
Fixpoint split_from (tok : string) (s : string) : list string :=
  match s with
  | EmptyString =>
      match tok with
      | EmptyString => []
      | _ => [tok]
      end
  | String c s' =>
      if isspace c then
        match tok with
        | EmptyString => split_from EmptyString s'
        | _ => tok :: split_from EmptyString s'
        end
      else split_from (tok ++ String c EmptyString) s'
  end.

Definition split (s : string) : list string := split_from EmptyString s.

(** The digit loop of [int(s)] in base 10: digits accumulate, a single
    underscore is allowed between two digits ([prev_us] records that the
    previous character was one). *)
Fixpoint int_digits (prev_us : bool) (acc : Z) (s : string) : option Z :=
  match s with
  | EmptyString => if prev_us then None else Some acc
  | String c s' =>
      if Ascii.eqb c "_" then
        if prev_us then None else int_digits true acc s'
      else
        match digit_value c with
        | Some d => int_digits false (10 * acc + d) s'
        | None => None
        end
  end.

(** The scan of [int(s)] for a token without surrounding whitespace: an
    optional sign, then at least one digit, no leading underscore. *)
Definition int_literal (s : string) : option Z :=
  let '(neg, body) :=
    match s with
    | String c r =>
        if Ascii.eqb c "-" then (true, r)
        else if Ascii.eqb c "+" then (false, r)
        else (false, s)
    | EmptyString => (false, s)
    end in
  match body with
  | EmptyString => None
  | String c _ =>
      if Ascii.eqb c "_" then None
      else
        match int_digits false 0 body with
        | Some z => Some (if neg then - z else z)
        | None => None
        end
  end.

(** The most digits [int(s)] accepts: the default of
    [sys.get_int_max_str_digits()]. *)
Definition int_max_str_digits : nat := 4300.

(** The digits of [s], underscores and sign left out. *)
Definition digit_count (s : string) : nat :=
  length (List.filter isdigit (list_ascii_of_string s)).

(** [int(s)] for a token without surrounding whitespace; [None] is
    [ValueError]: a string with more digits than the limit is refused,
    whatever else it holds, and so is one that is not a literal. *)
Definition py_int (s : string) : option Z :=
  if (int_max_str_digits <? digit_count s)%nat then None else int_literal s.

End Text.

(** ** The snapshot reader *)

(** The part of [_read_cpu_times] after the first line has been read:
    [line.strip().split()[1:]], then [int(p)] on every token in order; the
    first token that is not an integer literal raises [ValueError]. *)
Fixpoint ints_of_tokens (parts : list string) : result (list Z) :=
  match parts with
  | [] => Ok []
  | p :: ps =>
      match Text.py_int p with
      | None => Raise ValueError
      | Some z =>
          match ints_of_tokens ps with
          | inl e => inl e
          | inr zs => Ok (z :: zs)
          end
      end
  end.

Definition counter_tokens (line : string) : list string :=
  List.tl (Text.split (Text.strip line)).

Definition parse_cpu_line (line : string) : result (list Z) :=
  ints_of_tokens (counter_tokens line).

(** ** Integer numerals, as a grammar

    The reading of "numeric token" used for the reader: an optional sign
    followed by groups of decimal digits, the groups separated by single
    underscores.  [numeric] recognises the shape, [dec_value] gives the
    integer a numeral denotes and [within_limit] bounds its length; none
    of them looks at how [int] scans. *)

Module Numeral.

(** What may follow a digit: nothing, a digit group, or an underscore
    and a digit group. *)
Fixpoint digit_groups (s : string) : bool :=
  match s with
  | EmptyString => false
  | String d rest =>
      Text.isdigit d &&
      match rest with
      | EmptyString => true
      | String c rest' =>
          if Ascii.eqb c "_" then digit_groups rest' else digit_groups rest
      end
  end.

(** [digit_groups (String d rest)] is [isdigit d && tail_ok rest]. *)
Definition tail_ok (s : string) : bool :=
  match s with
  | EmptyString => true
  | String c rest' => if Ascii.eqb c "_" then digit_groups rest' else digit_groups s
  end.

Definition numeric (s : string) : bool :=
  match s with
  | EmptyString => false
  | String c r =>
      if Ascii.eqb c "-" || Ascii.eqb c "+" then digit_groups r
      else digit_groups s
  end.

(** The decimal digits of [s] read left to right, other characters
    skipped. *)
Fixpoint digits_value (acc : Z) (s : string) : Z :=
  match s with
  | EmptyString => acc
  | String c s' =>
      match Text.digit_value c with
      | Some d => digits_value (10 * acc + d) s'
      | None => digits_value acc s'
      end
  end.

Definition dec_value (s : string) : Z :=
  match s with
  | String c _ =>
      if Ascii.eqb c "-" then - digits_value 0 s else digits_value 0 s
  | EmptyString => 0
  end.

(** A numeral [int] converts: at most [4300] digits. *)
Definition within_limit (s : string) : bool :=
  (length (List.filter Text.isdigit (list_ascii_of_string s)) <=? 4300)%nat.

(** The numerals [int] converts. *)
Definition convertible (s : string) : bool := numeric s && within_limit s.

(** A token: non-empty, no whitespace inside. *)
Definition is_token (s : string) : bool :=
  match s with
  | EmptyString => false
  | _ => forallb (fun c => negb (Text.isspace c)) (list_ascii_of_string s)
  end.

Definition is_blank (s : string) : bool :=
  forallb Text.isspace (list_ascii_of_string s).

(** A line laid out from tokens: each token preceded by the whitespace
    given with it, and [trail] at the end. *)
Fixpoint layout (items : list (string * string)) (trail : string) : string :=
  match items with
  | [] => trail
  | (ws, tok) :: rest => (ws ++ tok ++ layout rest trail)%string
  end.

(** The separators of a layout are whitespace, and non-empty after the
    first token. *)
Fixpoint well_separated (first : bool) (items : list (string * string)) : bool :=
  match items with
  | [] => true
  | (ws, tok) :: rest =>
      is_blank ws && (first || negb (String.eqb ws EmptyString))
      && is_token tok && well_separated false rest
  end.

End Numeral.

(** ** Floating point: binary64 *)

Module Float.

Definition prec : Z := 53.
Definition emax : Z := 1024.

Definition float : Type := spec_float.

(** The literals [0.0] and [100.0]. *)
Definition zero : float := S754_zero false.
Definition hundred : float := S754_finite false 7036874417766400 (-46).

(** Conversion of an [int] operand to [float]: round to nearest, ties
    to even; [OverflowError] when the rounded value is out of range. *)
Definition of_int (z : Z) : result float :=
  match binary_normalize prec emax z 0 false with
  | S754_infinity _ => Raise OverflowError
  | f => Ok f
  end.

Definition is_zero (x : float) : bool :=
  match x with S754_zero _ => true | _ => false end.

(** [x * n] for a float [x] and an int [n]. *)
Definition mul_int (x : float) (n : Z) : result float :=
  (y <~ of_int n ;; Ok (SFmul prec emax x y))%result.

(** [x / n] for a float [x] and an int [n]. *)
Definition truediv_int (x : float) (n : Z) : result float :=
  (y <~ of_int n ;;
   if is_zero y then Raise ZeroDivisionError else Ok (SFdiv prec emax x y))%result.

Definition leb (x y : float) : bool := SFleb x y.

(** [0.0 <= x <= 100.0] *)
Definition in_percent_range (x : float) : bool := leb zero x && leb x hundred.

Definition is_finite (x : float) : bool :=
  match x with S754_zero _ | S754_finite _ _ _ => true | _ => false end.

End Float.

(** ** The utilization computation *)

(** [l[i]] for a non-negative literal index. *)
Definition getitem (l : list Z) (i : nat) : result Z :=
  match l !! i with
  | Some z => Ok z
  | None => Raise IndexError
  end.

(** [sum(l)]: left to right from [0]. *)
Definition py_sum (l : list Z) : Z := fold_left Z.add l 0.

Definition total_delta (prev curr : list Z) : Z := py_sum curr - py_sum prev.

(** Lines 26-34 of [_cpu_percent], on the two snapshots already read. *)
Definition cpu_percent_of (prev curr : list Z) : result Float.float :=
  (p3 <~ getitem prev 3 ;;
   p4 <~ getitem prev 4 ;;
   let idle_prev := p3 + p4 in
   c3 <~ getitem curr 3 ;;
   c4 <~ getitem curr 4 ;;
   let idle_curr := c3 + c4 in
   let total_prev := py_sum prev in
   let total_curr := py_sum curr in
   let total_delta := total_curr - total_prev in
   let idle_delta := idle_curr - idle_prev in
   if Z.eqb total_delta 0 then Ok Float.zero
   else
     x <~ Float.mul_int Float.hundred (total_delta - idle_delta) ;;
     Float.truediv_int x total_delta)%result.

(** ** The outside world *)

(** A CSV field as handed to [csv.writer.writerow]: a string or a float. *)
Inductive cell : Type :=
  | CStr (s : string)
  | CFloat (x : Float.float).

Definition row : Type := list cell.

(** [["timestamp", "cpu_percent"]] *)
Definition header : row := [CStr "timestamp"%string; CStr "cpu_percent"%string].

(** What the script cannot control: the outcome of the [k]-th
    [open("/proc/stat")] plus [readline] (an exception, or the first line
    as text), of [time.sleep], of the [k]-th
    [datetime.now().isoformat()], and where a path leads.  [locate p] is
    the file that [Path(p)] names when it can be opened for appending:
    two spellings of one file ([cpu_usage.log] and [./cpu_usage.log])
    are located at the same file.  It is the exception that
    [Path(p).exists()] or [Path(p).open("a")] raise otherwise: a
    directory of the path is missing or may not be searched, the path
    names a directory, the file may not be written. *)
Record env : Type := {
  proc_stat : nat -> result string;
  time_sleep : Float.float -> result unit;
  isoformat_now : nat -> string;
  locate : string -> result string
}.

(** What the script changes: regular files, each under the name it is
    located at (their content as the rows appended so far; a name that
    is not a key is of no existing file), the rows printed on standard
    output, and how often the counter source and the clock have been
    read.  A row counts as written when [writerow] returns: buffered and
    flushed rows are not told apart. *)
Record world : Type := {
  files : gmap string (list row);
  stdout : list row;
  stat_reads : nat;
  clock_reads : nat
}.

Inductive sink : Type :=
  | Stdout
  | File (name : string).

(** State and exception monad: the world survives a raised exception. *)
Definition M (A : Type) : Type := world -> result A * world.

Definition mret {A} (a : A) : M A := fun w => (Ok a, w).

Definition mbind {A B} (m : M A) (k : A -> M B) : M B :=
  fun w =>
    match m w with
    | (inl e, w') => (inl e, w')
    | (inr a, w') => k a w'
    end.

Definition lift {A} (r : result A) : M A := fun w => (r, w).

Declare Scope m_scope.
Delimit Scope m_scope with M.
Notation "x <- c ;; k" := (mbind c (fun x => k))
  (at level 100, c at next level, right associativity) : m_scope.
Notation "c ;;; k" := (mbind c (fun _ => k))
  (at level 100, right associativity) : m_scope.

(** The rows a sink holds. *)
Definition sink_rows (s : sink) (w : world) : list row :=
  match s with
  | Stdout => stdout w
  | File p => default [] (files w !! p)
  end.

(** [Path.exists()], for the file a path is located at. *)
Definition exists_path (p : string) (w : world) : bool :=
  bool_decide (is_Some (files w !! p)).

(** [Path.open("a")], for the file a path is located at: the file is
    created empty when it does not exist. *)
Definition open_append (p : string) (w : world) : world :=
  match files w !! p with
  | Some _ => w
  | None =>
      {| files := <[p := []]> (files w); stdout := stdout w;
         stat_reads := stat_reads w; clock_reads := clock_reads w |}
  end.

(** [writer.writerow(r)] on the sink, made durable by the flush or the
    close that follows. *)
Definition writerow (s : sink) (r : row) : M unit :=
  fun w =>
    (Ok tt,
     match s with
     | Stdout =>
         {| files := files w; stdout := stdout w ++ [r];
            stat_reads := stat_reads w; clock_reads := clock_reads w |}
     | File p =>
         {| files := <[p := sink_rows s w ++ [r]]> (files w); stdout := stdout w;
            stat_reads := stat_reads w; clock_reads := clock_reads w |}
     end).

(** [datetime.now().isoformat()] *)
Definition now_isoformat (E : env) : M string :=
  fun w =>
    (Ok (isoformat_now E (clock_reads w)),
     {| files := files w; stdout := stdout w;
        stat_reads := stat_reads w; clock_reads := S (clock_reads w) |}).

Definition sleep (E : env) (interval : Float.float) : M unit :=
  lift (time_sleep E interval).

(** ** The program *)

Definition _read_cpu_times (E : env) : M (list Z) :=
  fun w =>
    (rbind (proc_stat E (stat_reads w)) parse_cpu_line,
     {| files := files w; stdout := stdout w;
        stat_reads := S (stat_reads w); clock_reads := clock_reads w |}).

Definition _cpu_percent (E : env) (interval : Float.float) : M Float.float :=
  (prev <- _read_cpu_times E ;;
   sleep E interval ;;;
   curr <- _read_cpu_times E ;;
   lift (cpu_percent_of prev curr))%M.

(** The body of the [while] loop, up to the flush. *)
Definition cycle (E : env) (interval : Float.float) (s : sink) : M unit :=
  (cpu <- _cpu_percent E interval ;;
   stamp <- now_isoformat E ;;
   writerow s [CStr stamp; CFloat cpu])%M.

(** [iterations == 0 or count < iterations] *)
Definition loop_cond (iterations count : Z) : bool :=
  Z.eqb iterations 0 || Z.ltb count iterations.

(** How a run ends: the function returned, an exception left it, or the
    loop was still going when the observation ([fuel] cycles) ended. *)
Inductive outcome : Type :=
  | Returned
  | Raised (e : exn)
  | Running.

(** The [while] loop from a given [count]; also yields the final [count]. *)
Fixpoint sample_loop (fuel : nat) (E : env) (interval : Float.float)
    (iterations : Z) (s : sink) (count : Z) (w : world) : outcome * Z * world :=
  if loop_cond iterations count then
    match fuel with
    | O => (Running, count, w)
    | S fuel' =>
        match cycle E interval s w with
        | (inl e, w') => (Raised e, count, w')
        | (inr _, w') => sample_loop fuel' E interval iterations s (count + 1) w'
        end
    end
  else (Returned, count, w).

(** The file a path is opened at.  [Path] turns the empty string into
    the current directory, which [open] refuses as it refuses every
    directory; every other path is the matter of the environment. *)
Definition resolve (E : env) (output_file : string) : result string :=
  if String.eqb output_file EmptyString then Raise OSError
  else locate E output_file.

(** Lines 45-51: which sink, and whether it needs the header.  When the
    path cannot be opened the exception leaves [record_cpu] before
    anything was created or written. *)
Definition open_sink (E : env) (output_file : string) : M (sink * bool) :=
  fun w =>
    if String.eqb output_file "-"%string then (Ok (Stdout, true), w)
    else
      match resolve E output_file with
      | inl e => (Raise e, w)
      | inr name => (Ok (File name, negb (exists_path name w)), open_append name w)
      end.

Definition record_cpu (fuel : nat) (E : env) (interval : Float.float)
    (iterations : Z) (output_file : string) (w : world) : outcome * world :=
  match open_sink E output_file w with
  | (inl e, w1) => (Raised e, w1)
  | (inr (s, header_needed), w1) =>
      let w2 := if header_needed then snd (writerow s header w1) else w1 in
      let '(o, _, w3) := sample_loop fuel E interval iterations s 0 w2 in
      (o, w3)
  end.

(** The sink a target names, when it can be opened. *)
Definition sink_of (E : env) (output_file : string) : result sink :=
  if String.eqb output_file "-"%string then Ok Stdout
  else
    match resolve E output_file with
    | inl e => Raise e
    | inr name => Ok (File name)
    end.

(** ** Vocabulary for the properties *)




(** Line 45-50: the header is due for standard output and for a file that
    does not exist when the sink is opened. *)
Definition header_due (s : sink) (w : world) : bool :=
  match s with
  | Stdout => true
  | File name => negb (exists_path name w)
  end.

Definition is_ok {A} (r : result A) : bool :=
  match r with inr _ => true | inl _ => false end.

(** The snapshot the [i]-th read of the counter source yields, and the
    percentage computed from reads [i] and [i + 1]. *)
Definition snapshot_at (E : env) (i : nat) : result (list Z) :=
  rbind (proc_stat E i) parse_cpu_line.

Definition percent_at (E : env) (i : nat) : result Float.float :=
  (prev <~ snapshot_at E i ;;
   curr <~ snapshot_at E (S i) ;;
   cpu_percent_of prev curr)%result.


(** The rows [n] completed cycles write, the first cycle starting at read
    [r0] and clock reading [c0]. *)
Fixpoint data_rows (E : env) (r0 c0 n : nat) : list row :=
  match n with
  | O => []
  | S n' =>
      match percent_at E r0 with
      | inr x => [CStr (isoformat_now E c0); CFloat x] :: data_rows E (2 + r0) (S c0) n'
      | inl _ => []
      end
  end.

(** The world after the counter source has been read [n] times in all. *)
Definition set_reads (n : nat) (w : world) : world :=
  {| files := files w; stdout := stdout w;
     stat_reads := n; clock_reads := clock_reads w |}.

(** The world after [n] more runs of the loop body. *)
Fixpoint after_cycles (E : env) (interval : Float.float) (s : sink)
    (n : nat) (w : world) : world :=
  match n with
  | O => w
  | S n' => after_cycles E interval s n' (snd (cycle E interval s w))
  end.

(** The world in which the loop starts: the sink opened, the header
    written when it is due. *)
Definition at_loop_entry (s : sink) (w : world) : world :=
  let w1 := match s with Stdout => w | File name => open_append name w end in
  if header_due s w then snd (writerow s header w1) else w1.

(** ** Worked inputs *)

Module Demo.

(** [1.0], the default interval. *)
Definition one : Float.float := S754_finite false 4503599627370496 (-52).

Definition line_a : string := "cpu  100 0 0 800 50 0 0 0
".
Definition line_b : string := "cpu  110 0 0 850 50 0 0 0
".
Definition line_bad : string := "cpu  120 0 zero 900 50 0 0 0
".
Definition stamp : string := "2024-05-01T12:00:00.000001".

(** The working directory: a path of one component is the file of that
    name, with or without [./] in front; a path with a directory in it
    cannot be opened, the directory being missing. *)
Definition in_cwd (p : string) : result string :=
  let name := if String.prefix "./" p then String.substring 2 (String.length p - 2) p else p in
  if existsb (Ascii.eqb "/") (list_ascii_of_string name)
     || String.eqb name EmptyString || String.eqb name "." || String.eqb name ".."
  then Raise OSError
  else Ok name.

(** The counter source alternates between two readings. *)
Definition steady : env :=
  {| proc_stat := fun k => Ok (if Nat.even k then line_a else line_b);
     time_sleep := fun _ => Ok tt;
     isoformat_now := fun _ => stamp;
     locate := in_cwd |}.

(** The same, except that the fourth read (the second read of the second
    cycle) yields a malformed line. *)
Definition glitch : env :=
  {| proc_stat := fun k =>
       Ok (if Nat.eqb k 3 then line_bad else if Nat.even k then line_a else line_b);
     time_sleep := fun _ => Ok tt;
     isoformat_now := fun _ => stamp;
     locate := in_cwd |}.

(** No file exists, nothing was printed or read yet. *)
Definition fresh : world :=
  {| files := ∅; stdout := []; stat_reads := 0; clock_reads := 0 |}.


(** [16.666666666666668] *)
Definition sixth : Float.float := S754_finite false 4691249611844267 (-48).

End Demo.

(** ** The utilization formula, on the deltas *)

(** [l[3] + l[4]] of a snapshot with at least 5 counters. *)
Definition idle (l : list Z) : Z := nth 3 l 0 + nth 4 l 0.

Definition idle_delta (prev curr : list Z) : Z := idle curr - idle prev.

(** [100.0 * (total_delta - idle_delta) / total_delta], with Python's
    operators: the product first, each int operand converted to float. *)
Definition percent_formula (td id : Z) : result Float.float :=
  (x <~ Float.mul_int Float.hundred (td - id) ;; Float.truediv_int x td)%result.

(** ** Text of a row

    What reaches the sink is text: [csv.writer] joins the fields of a row
    with commas, a float field as its [repr], and ends the row with CR LF.
    Text is a list of characters here. *)

Definition text : Type := list ascii.

(** *** Decimal digits *)

Module Dec.

Definition dchar (d : Z) : ascii :=
  match d with
  | 0 => "0" | 1 => "1" | 2 => "2" | 3 => "3" | 4 => "4"
  | 5 => "5" | 6 => "6" | 7 => "7" | 8 => "8" | _ => "9"
  end%char.

Definition dtext (ds : list Z) : text := map dchar ds.

(** The number a list of digits denotes, most significant digit first. *)
Definition value (ds : list Z) : Z := fold_left (fun acc d => 10 * acc + d) ds 0.

(** The decimal digits of [n >= 0], least significant first; [fuel]
    bounds their number. *)
Fixpoint digits_lsf (fuel : nat) (n : Z) : list Z :=
  match fuel with
  | O => []
  | S fuel' => if n <? 10 then [n] else n mod 10 :: digits_lsf fuel' (n / 10)
  end.

(** Most significant first; a number has no more decimal than binary
    digits. *)
Definition to_digits (n : Z) : list Z :=
  rev (digits_lsf (S (Z.to_nat (Z.log2 n))) n).

Fixpoint drop_zeros (ds : list Z) : list Z :=
  match ds with
  | 0 :: rest => drop_zeros rest
  | _ => ds
  end.

(** [ds] without its trailing zeros. *)
Definition strip_trailing (ds : list Z) : list Z := rev (drop_zeros (rev ds)).

(** The decimal [ds * 10^k] without trailing zeros: its integer and its
    exponent. *)
Definition canon (ds : list Z) (k : Z) : Z * Z :=
  let ds' := strip_trailing ds in
  (value ds', k + (Z.of_nat (length ds) - Z.of_nat (length ds'))).

(** [num / den] rounded to the nearest binary64, ties to even. *)
Definition round_q (neg : bool) (num den : Z) : Float.float :=
  let '(q, e, l) := SFdiv_core_binary Float.prec Float.emax num 0 den 0 in
  binary_round_aux Float.prec Float.emax neg q e l.

(** The float nearest to the decimal [ds * 10^k]: what a correctly rounded
    string-to-float conversion yields. *)
Definition to_float (neg : bool) (ds : list Z) (k : Z) : Float.float :=
  let '(n, k') := canon ds k in
  if n =? 0 then S754_zero neg
  else if 0 <=? k' then round_q neg (n * 10 ^ k') 1
  else round_q neg n (10 ^ (- k')).

End Dec.

#[global] Instance spec_float_eq_dec : EqDecision spec_float.
Proof. solve_decision. Defined.

(** *** [repr] of a float *)

Module FloatText.

Import Dec.

(** A candidate: digits without trailing zeros and the position of the
    decimal point after the first [decpt] of them (the value is
    [0.d1d2... * 10^decpt]). *)
Definition candidate : Type := list Z * Z.

Definition normalize (c k : Z) : candidate :=
  let full := to_digits c in
  (strip_trailing full, k + Z.of_nat (length full)).

(** Reading the candidate back gives [x]. *)
Definition accepts (x : Float.float) (neg : bool) (cand : candidate) : bool :=
  bool_decide (to_float neg (fst cand) (snd cand - Z.of_nat (length (fst cand))) = x).

(** The exponent [p] with [10^(p-1) <= num/den < 10^p]. *)
Definition decimal_point (num den : Z) : Z :=
  if den <=? num then Z.of_nat (length (to_digits (num / den)))
  else 1 - Z.of_nat (length (to_digits ((den + num - 1) / num - 1))).

(** The two [n]-digit decimals around [num/den], the nearer one first (on
    a tie the even one); one decimal when [num/den] has [n] digits. *)
Definition around (num den dp : Z) (n : Z) : list candidate :=
  let '(sn, sd) :=
    if dp <=? n then (num * 10 ^ (n - dp), den) else (num, den * 10 ^ (dp - n)) in
  let lo := sn / sd in
  let r := sn mod sd in
  let k := dp - n in
  if r =? 0 then [normalize lo k]
  else
    match 2 * r ?= sd with
    | Lt => [normalize lo k; normalize (lo + 1) k]
    | Gt => [normalize (lo + 1) k; normalize lo k]
    | Eq =>
        if Z.even lo then [normalize lo k; normalize (lo + 1) k]
        else [normalize (lo + 1) k; normalize lo k]
    end.

(** [m * 2^e] written out in full. *)
Definition exact (m : positive) (e : Z) : candidate :=
  if 0 <=? e then normalize (Z.pos m * 2 ^ e) 0
  else normalize (Z.pos m * 5 ^ (- e)) e.

(** The shortest decimal that reads back as [x = m * 2^e], the nearest to
    [x] among the shortest.  Seventeen digits always suffice for a
    binary64; the definition does not rely on it and would write [x] out
    in full otherwise. *)
Definition shortest (neg : bool) (m : positive) (e : Z) : candidate :=
  let x := S754_finite neg m e in
  let '(num, den) := if 0 <=? e then (Z.pos m * 2 ^ e, 1) else (Z.pos m, 2 ^ (- e)) in
  let dp := decimal_point num den in
  let tries :=
    flat_map (fun n => around num den dp (Z.of_nat n)) (seq 1 17) in
  match List.find (accepts x neg) tries with
  | Some cand => cand
  | None => exact m e
  end.

Definition zeros (n : Z) : text := repeat "0"%char (Z.to_nat n).

(** The exponent of the scientific notation: a sign and at least two
    digits. *)
Definition exponent_text (e : Z) : text :=
  (if e <? 0 then "-"%char else "+"%char)
  :: match to_digits (Z.abs e) with
     | [d] => [dchar 0; dchar d]
     | ds => dtext ds
     end.

(** How [repr] lays a candidate out: scientific notation when the decimal
    point would be more than 16 digits to the right or more than 3 zeros
    to the left, and [.0] added to an integer. *)
Definition render (cand : candidate) : text :=
  let '(ds, decpt) := cand in
  let n := Z.of_nat (length ds) in
  if (decpt <=? -4) || (16 <? decpt) then
    match ds with
    | [] => []
    | [d] => dchar d :: "e"%char :: exponent_text (decpt - 1)
    | d :: rest => dchar d :: "."%char :: dtext rest ++ "e"%char :: exponent_text (decpt - 1)
    end
  else if decpt <=? 0 then
    "0"%char :: "."%char :: zeros (- decpt) ++ dtext ds
  else if n <=? decpt then
    dtext ds ++ zeros (decpt - n) ++ ["."; "0"]%char
  else
    dtext (take (Z.to_nat decpt) ds) ++ "."%char :: dtext (drop (Z.to_nat decpt) ds).

(** [repr(x)], which is also [str(x)]. *)
Definition repr (x : Float.float) : text :=
  match x with
  | S754_nan => ["n"; "a"; "n"]%char
  | S754_infinity s => (if s then ["-"%char] else []) ++ ["i"; "n"; "f"]%char
  | S754_zero s => (if s then ["-"%char] else []) ++ ["0"; "."; "0"]%char
  | S754_finite s m e => (if s then ["-"%char] else []) ++ render (shortest s m e)
  end.

(** *** [float] of a string *)

Fixpoint take_digits (s : text) : list Z * text :=
  match s with
  | c :: s' =>
      match Text.digit_value c with
      | Some d => let '(ds, rest) := take_digits s' in (d :: ds, rest)
      | None => ([], s)
      end
  | [] => ([], [])
  end.

(** The exponent part of a numeral, if there is one: [e] or [E], an
    optional sign, at least one digit, and nothing after them. *)
Definition parse_exponent (s : text) : option Z :=
  match s with
  | [] => Some 0
  | c :: r =>
      if Ascii.eqb c "e" || Ascii.eqb c "E" then
        let '(eneg, r') :=
          match r with
          | c' :: t =>
              if Ascii.eqb c' "-" then (true, t)
              else if Ascii.eqb c' "+" then (false, t)
              else (false, r)
          | [] => (false, r)
          end in
        match take_digits r' with
        | (d :: ep, []) =>
            Some (if eneg then - value (d :: ep) else value (d :: ep))
        | _ => None
        end
      else None
  end.

(** A decimal numeral: digits, an optional fraction, an optional
    exponent; at least one digit before the exponent.  Yields the digits
    and the power of ten they are scaled by. *)
Definition parse_decimal (s : text) : option (list Z * Z) :=
  let '(ip, r1) := take_digits s in
  let '(fp, r2) :=
    match r1 with
    | c :: r => if Ascii.eqb c "." then take_digits r else ([], r1)
    | [] => ([], r1)
    end in
  match ip ++ fp with
  | [] => None
  | ds =>
      match parse_exponent r2 with
      | Some e => Some (ds, e - Z.of_nat (length fp))
      | None => None
      end
  end.

Definition lower (c : ascii) : ascii :=
  let n := nat_of_ascii c in
  if ((65 <=? n) && (n <=? 90))%nat then ascii_of_nat (n + 32) else c.

Fixpoint text_eqb (a b : text) : bool :=
  match a, b with
  | [], [] => true
  | x :: a', y :: b' => Ascii.eqb x y && text_eqb a' b'
  | _, _ => false
  end.

Definition parse_unsigned (neg : bool) (s : text) : option Float.float :=
  let l := map lower s in
  if text_eqb l ["i"; "n"; "f"]%char
     || text_eqb l ["i"; "n"; "f"; "i"; "n"; "i"; "t"; "y"]%char
  then Some (S754_infinity neg)
  else if text_eqb l ["n"; "a"; "n"]%char then Some S754_nan
  else
    match parse_decimal s with
    | Some (ds, k) => Some (to_float neg ds k)
    | None => None
    end.

(** An underscore has to stand between two digits; the numeral is read
    without them. *)
Fixpoint drop_underscores (prev_digit : bool) (s : text) : option text :=
  match s with
  | [] => Some []
  | c :: s' =>
      if Ascii.eqb c "_" then
        match s' with
        | c' :: _ =>
            if prev_digit && Text.isdigit c' then drop_underscores false s' else None
        | [] => None
        end
      else
        match drop_underscores (Text.isdigit c) s' with
        | Some t => Some (c :: t)
        | None => None
        end
  end.

Fixpoint lstrip_ws (s : text) : text :=
  match s with
  | c :: s' => if Text.isspace c then lstrip_ws s' else s
  | [] => []
  end.

Definition strip_ws (s : text) : text := rev (lstrip_ws (rev (lstrip_ws s))).

(** [float(s)]; [None] is [ValueError]. *)
Definition py_float (s : text) : option Float.float :=
  match drop_underscores false s with
  | None => None
  | Some s1 =>
      match strip_ws s1 with
      | [] => None
      | c :: r =>
          if Ascii.eqb c "-" then parse_unsigned true r
          else if Ascii.eqb c "+" then parse_unsigned false r
          else parse_unsigned false (c :: r)
      end
  end.

End FloatText.

(** *** [csv.writer] and [csv.reader], default dialect *)

Module Csv.

Definition comma : ascii := ","%char.
Definition dquote : ascii := ascii_of_nat 34.
Definition cr : ascii := ascii_of_nat 13.
Definition lf : ascii := ascii_of_nat 10.

(** The characters that make the writer quote a field. *)
Definition special (c : ascii) : bool :=
  Ascii.eqb c comma || Ascii.eqb c dquote || Ascii.eqb c cr || Ascii.eqb c lf.

Definition plain (f : text) : bool := forallb (fun c => negb (special c)) f.

(** A quoted field: every quote character doubled, quotes around. *)
Definition quoted (f : text) : text :=
  dquote :: flat_map (fun c => if Ascii.eqb c dquote then [c; c] else [c]) f ++ [dquote].

(** The text of one field: a string as it is, a float as its [repr]. *)
Definition field_text (c : cell) : text :=
  match c with
  | CStr s => list_ascii_of_string s
  | CFloat x => FloatText.repr x
  end.

Definition write_field (f : text) : text := if plain f then f else quoted f.

Fixpoint join_fields (fs : list text) : text :=
  match fs with
  | [] => []
  | [f] => write_field f
  | f :: rest => write_field f ++ comma :: join_fields rest
  end.

(** What [writer.writerow(r)] sends to the file: the fields joined by
    commas (a row that is one empty field is written as two quotes), then
    CR LF. *)
Definition row_text (r : row) : text :=
  match map field_text r with
  | [[]] => [dquote; dquote; cr; lf]
  | fs => join_fields fs ++ [cr; lf]
  end.












End Csv.

(** ** Vocabulary for the text of a row *)

(** A decimal digit, as a number. *)
Definition is_digit (d : Z) : Prop := 0 <= d <= 9.

(** The text does not go on with a digit. *)
Definition no_digit_ahead (s : text) : Prop :=
  match s with
  | [] => True
  | c :: _ => Text.digit_value c = None
  end.

(** The characters [repr] of a float is made of: digits, the point, the
    exponent mark, the signs and the letters of [inf] and [nan]. *)
Definition repr_char (c : ascii) : bool :=
  Text.isdigit c
  || existsb (Ascii.eqb c) ["."; "e"; "+"; "-"; "i"; "n"; "f"; "a"]%char.

(** A counter source whose first counter is [0] at every even read and
    [10 ^ 308] at every odd one. *)
Module Surge.



End Surge.

(** ** Vocabulary for the further properties *)

(** An integer as the kernel prints a counter: decimal digits, a minus
    sign before a negative one. *)
Definition decimal (z : Z) : string :=
  string_of_list_ascii
    ((if z <? 0 then ["-"%char] else []) ++ Dec.dtext (Dec.to_digits (Z.abs z))).

(** A line of the counter source: the label, then every counter printed
    in decimal after the whitespace given with it. *)
Definition counter_line (ws label : string) (counters : list (string * Z))
    (trail : string) : string :=
  Numeral.layout ((ws, label) :: map (fun c => (fst c, decimal (snd c))) counters) trail.


(** The separators before the counters: whitespace, at least one
    character. *)
Definition separated (counters : list (string * Z)) : bool :=
  forallb (fun c => Numeral.is_blank (fst c) && negb (String.eqb (fst c) EmptyString))
    counters.

(** Worked inputs for the edges. *)
Module Edge.

(** The counter source is empty at the first read. *)
Definition empty_first : env :=
  {| proc_stat := fun k => Ok (if Nat.eqb k 0 then EmptyString else Demo.line_b);
     time_sleep := fun _ => Ok tt;
     isoformat_now := fun _ => Demo.stamp;
     locate := Demo.in_cwd |}.

(** The first counter has [n] digits, all of them [1]. *)
Definition long_line (n : nat) : string :=
  String.append "cpu  "
    (String.append (string_of_list_ascii (repeat "1"%char n)) " 0 0 0 0
").

Definition overlong (n : nat) : env :=
  {| proc_stat := fun _ => Ok (long_line n);
     time_sleep := fun _ => Ok tt;
     isoformat_now := fun _ => Demo.stamp;
     locate := Demo.in_cwd |}.



End Edge.

(** ** The command line

    [parse_args] builds an [argparse.ArgumentParser] with three options
    that take one argument each, besides the [-h]/[--help] the parser
    adds itself, and parses [sys.argv[1:]] with it.  The parser is
    modelled as CPython 3.11 runs it for this set of options; the text
    of its usage, help and error messages is left out, an exit is
    recorded by its status. *)

Module Cli.

(** The actions of the parser: [help], and a [store] action for each of
    the three destinations. *)
Inductive action : Type :=
  | Help
  | Interval
  | Iterations
  | Output.

(** [parser._option_string_actions], in the order of insertion. *)
Definition option_string_actions : list (string * action) :=
  [("-h", Help); ("--help", Help); ("--interval", Interval);
   ("--iterations", Iterations); ("--output", Output)]%string.

Definition lookup (s : string) : option action :=
  match List.find (fun oa => String.eqb (fst oa) s) option_string_actions with
  | Some oa => Some (snd oa)
  | None => None
  end.

(** [s.startswith(p)] *)
Definition startswith (s p : string) : bool := String.prefix p s.

(** [s.split('=', 1)] when ['=' in s]: what is before the first ['='] and
    what is after it. *)
Fixpoint split_eq (s : string) : option (string * string) :=
  match s with
  | EmptyString => None
  | String c r =>
      if Ascii.eqb c "=" then Some (EmptyString, r)
      else
        match split_eq r with
        | Some (a, b) => Some (String c a, b)
        | None => None
        end
  end.

Definition contains (c : ascii) (s : string) : bool :=
  existsb (Ascii.eqb c) (list_ascii_of_string s).

(** The rest of [s] after its longest prefix of decimal digits, and
    whether that prefix is not empty. *)
Fixpoint skip_digits (s : string) : bool * string :=
  match s with
  | String c r =>
      if Text.isdigit c then (true, snd (skip_digits r)) else (false, s)
  | EmptyString => (false, s)
  end.

(** [$]: the end of the string, or the newline that ends it. *)
Definition at_end (s : string) : bool :=
  String.eqb s EmptyString || String.eqb s (String (ascii_of_nat 10) EmptyString).

(** [parser._negative_number_matcher.match(s)], the pattern being
    [^-\d+$|^-\d*\.\d+$]. *)
Definition negative_number (s : string) : bool :=
  match s with
  | String c r =>
      Ascii.eqb c "-"
      && (let '(some, after) := skip_digits r in
          (some && at_end after)
          || match after with
             | String d frac =>
                 Ascii.eqb d "."
                 && (let '(some', after') := skip_digits frac in some' && at_end after')
             | EmptyString => false
             end)
  | EmptyString => false
  end.

(** An option found in an argument: its action ([None] for an option the
    parser does not have), the option string and the argument given in
    the same string, if any. *)
Definition option_tuple : Type := option action * string * option string.

(** [parser._get_option_tuples(option_string)], called on strings of at
    least two characters that begin with ['-']. *)
Definition _get_option_tuples (option_string : string) : list option_tuple :=
  match option_string with
  | String _ (String c1 _) =>
      if Ascii.eqb c1 "-" then
        let '(option_prefix, explicit_arg) :=
          match split_eq option_string with
          | Some (p, e) => (p, Some e)
          | None => (option_string, None)
          end in
        flat_map
          (fun oa =>
             if startswith (fst oa) option_prefix
             then [(Some (snd oa), fst oa, explicit_arg)] else [])
          option_string_actions
      else
        let short_option_prefix := String.substring 0 2 option_string in
        let short_explicit_arg :=
          String.substring 2 (String.length option_string - 2) option_string in
        flat_map
          (fun oa =>
             if String.eqb (fst oa) short_option_prefix
             then [(Some (snd oa), fst oa, Some short_explicit_arg)]
             else if startswith (fst oa) option_string
             then [(Some (snd oa), fst oa, None)] else [])
          option_string_actions
  | _ => []
  end.

(** What [parser._parse_optional] makes of an argument: a positional
    ([None] in the source), an option, or the error of an ambiguous
    abbreviation. *)
Inductive parsed : Type :=
  | Positional
  | Optional (t : option_tuple)
  | Ambiguous.

Definition _parse_optional (arg_string : string) : parsed :=
  match arg_string with
  | EmptyString => Positional
  | String c _ =>
      if negb (Ascii.eqb c "-") then Positional
      else
        match lookup arg_string with
        | Some a => Optional (Some a, arg_string, None)
        | None =>
            if (String.length arg_string =? 1)%nat then Positional
            else
              let with_eq :=
                match split_eq arg_string with
                | Some (option_string, explicit_arg) =>
                    match lookup option_string with
                    | Some a => Some (Optional (Some a, option_string, Some explicit_arg))
                    | None => None
                    end
                | None => None
                end in
              match with_eq with
              | Some r => r
              | None =>
                  match _get_option_tuples arg_string with
                  | _ :: _ :: _ => Ambiguous
                  | [t] => Optional t
                  | [] =>
                      if negative_number arg_string then Positional
                      else if contains " " arg_string then Positional
                      else Optional (None, arg_string, None)
                  end
              end
        end
  end.

(** One character of [arg_strings_pattern], with the option found for an
    ['O']. *)
Inductive mark : Type :=
  | A
  | Dash
  | O (t : option_tuple).

(** The first loop of [_parse_known_args]: every argument is classified
    before any action is taken; after the first ["--"] everything is an
    argument.  [None] is the exit of an ambiguous option. *)
Fixpoint classify (after_dash : bool) (arg_strings : list string) : option (list mark) :=
  match arg_strings with
  | [] => Some []
  | s :: rest =>
      if after_dash then option_map (cons A) (classify true rest)
      else if String.eqb s "--" then option_map (cons Dash) (classify true rest)
      else
        match _parse_optional s with
        | Ambiguous => None
        | Positional => option_map (cons A) (classify false rest)
        | Optional t => option_map (cons (O t)) (classify false rest)
        end
  end.

(** A value of the namespace: what the type function returned, or the
    empty list that [_get_values] yields when the only argument string is
    ["--"]. *)
Inductive given (T : Type) : Type :=
  | Value (v : T)
  | EmptyList.
Arguments Value {T} v.
Arguments EmptyList {T}.

Record namespace : Type := {
  interval : given Float.float;
  iterations : given Z;
  output : given string
}.

(** The defaults of the three options. *)
Definition defaults : namespace :=
  {| interval := Value Demo.one; iterations := Value 0; output := Value "cpu_usage.log"%string |}.

(** How a call of [parse_args] ends: a namespace, or [SystemExit] with a
    status ([0] after the help, [2] after an error). *)
Inductive parse_result : Type :=
  | Parsed (ns : namespace)
  | Exit (status : Z).

(** Whitespace for [int(s)] and [float(s)]: the whitespace of
    [str.strip] except the four separators FS, GS, RS and US. *)
Definition num_space (c : ascii) : bool :=
  Text.isspace c
  && negb ((28 <=? nat_of_ascii c)%nat && (nat_of_ascii c <=? 31)%nat).

Fixpoint drop_space (t : text) : text :=
  match t with
  | c :: r => if num_space c then drop_space r else t
  | [] => []
  end.

Definition num_strip (t : text) : text := rev (drop_space (rev (drop_space t))).

(** [int(s)] on a string: surrounding whitespace is dropped, and a
    string with more digits than the limit is refused. *)
Definition int_of_str (s : string) : option Z :=
  Text.py_int (string_of_list_ascii (num_strip (list_ascii_of_string s))).

(** [float(s)] on a string: surrounding whitespace is dropped; a
    separator left at either end is an error. *)
Definition float_of_str (s : string) : option Float.float :=
  let u := num_strip (list_ascii_of_string s) in
  match u with
  | c :: _ =>
      if Text.isspace c || Text.isspace (List.last u c) then None
      else FloatText.py_float u
  | [] => None
  end.

(** [take_action] for a [store] action and its one argument string:
    [_get_values] drops a ["--"], converts the string with the type of
    the option, and the action sets the attribute.  [None] is the
    [ArgumentError] of a string the type function rejects. *)
Definition store (a : action) (arg_string : string) (ns : namespace) : option namespace :=
  let dashes := String.eqb arg_string "--" in
  match a with
  | Help => Some ns
  | Interval =>
      if dashes then
        Some {| interval := EmptyList; iterations := iterations ns; output := output ns |}
      else
        match float_of_str arg_string with
        | Some x =>
            Some {| interval := Value x; iterations := iterations ns; output := output ns |}
        | None => None
        end
  | Iterations =>
      if dashes then
        Some {| interval := interval ns; iterations := EmptyList; output := output ns |}
      else
        match int_of_str arg_string with
        | Some n =>
            Some {| interval := interval ns; iterations := Value n; output := output ns |}
        | None => None
        end
  | Output =>
      Some {| interval := interval ns; iterations := iterations ns;
              output := if dashes then EmptyList else Value arg_string |}
  end.

(** The loop of [consume_optional] for [-h] with more characters behind
    it: each further character has to be a one-character option without
    argument.  [true] when the loop ends with actions to take, [false]
    when it raises [ArgumentError]. *)
Fixpoint short_flags (explicit_arg : string) : bool :=
  match explicit_arg with
  | EmptyString => true
  | String c rest =>
      match lookup (String "-" (String c EmptyString)) with
      | Some Help => short_flags rest
      | _ => false
      end
  end.

(** The second loop of [_parse_known_args], on what is left of the
    arguments and their marks: arguments that no option takes are
    collected in [extras]. *)
Fixpoint consume (marks : list mark) (arg_strings : list string)
    (ns : namespace) (extras : list string) : parse_result :=
  match marks, arg_strings with
  | A :: marks', s :: rest => consume marks' rest ns (extras ++ [s])
  | Dash :: marks', s :: rest => consume marks' rest ns (extras ++ [s])
  | O (None, _, _) :: marks', s :: rest => consume marks' rest ns (extras ++ [s])
  | O (Some Help, option_string, Some explicit_arg) :: _, _ :: _ =>
      if String.eqb option_string "-h" && negb (String.eqb explicit_arg EmptyString)
         && short_flags explicit_arg
      then Exit 0 else Exit 2
  | O (Some Help, _, None) :: _, _ :: _ => Exit 0
  | O (Some a, _, Some explicit_arg) :: marks', _ :: rest =>
      match store a explicit_arg ns with
      | Some ns' => consume marks' rest ns' extras
      | None => Exit 2
      end
  | O (Some a, _, None) :: marks', _ :: rest =>
      match marks', rest with
      | A :: marks'', s :: rest' =>
          match store a s ns with
          | Some ns' => consume marks'' rest' ns' extras
          | None => Exit 2
          end
      | _, _ => Exit 2
      end
  | _, _ =>
      match extras with
      | [] => Parsed ns
      | _ => Exit 2
      end
  end.

(** [parser.parse_args(argv)] *)
Definition parse_args (argv : list string) : parse_result :=
  match classify false argv with
  | None => Exit 2
  | Some marks => consume marks argv defaults []
  end.

(** The long option string of an action. *)
Definition long_option (a : action) : string :=
  match a with
  | Help => "--help"
  | Interval => "--interval"
  | Iterations => "--iterations"
  | Output => "--output"
  end.

(** A command line that spells each option with its value as the next
    argument, and what storing the values in order makes of a
    namespace. *)
Definition spelled (opts : list (action * string)) : list string :=
  flat_map (fun av => [long_option (fst av); snd av]) opts.

Fixpoint store_all (opts : list (action * string)) (ns : namespace) : option namespace :=
  match opts with
  | [] => Some ns
  | (a, v) :: rest =>
      match store a v ns with
      | Some ns' => store_all rest ns'
      | None => None
      end
  end.

(** A string the parser takes for the value of an option when it follows
    the option: a positional other than ["--"]. *)
Definition plain_value (v : string) : bool :=
  match _parse_optional v with
  | Positional => negb (String.eqb v "--")
  | _ => false
  end.

(** [p] abbreviates the long option of [a] and of no other action. *)
Definition action_eqb (a b : action) : bool :=
  match a, b with
  | Help, Help | Interval, Interval | Iterations, Iterations | Output, Output => true
  | _, _ => false
  end.

Definition abbreviates (p : string) (a : action) : bool :=
  String.prefix "--" p && String.prefix p (long_option a)
  && forallb (fun b => action_eqb a b || negb (String.prefix p (long_option b)))
       [Help; Interval; Iterations; Output].

End Cli.

(** ** The script run as a program *)

(** How the program ends: the parser exits with a status, [record_cpu]
    was called with a float, an int and a string (and returned, was left
    by an exception or is still running when the observation ends), or an
    argument that is the empty list raised [TypeError]. *)
Inductive ending : Type :=
  | Exited (status : Z)
  | Ended (o : outcome)
  | RaisedTypeError.

(** Lines 76-78.  An empty list as [output_file] is not ["-"] and is
    refused by [Path]; as [iterations] it is not [0] and cannot be
    compared with [count]; as [interval] it is refused by [time.sleep],
    after the first read of the first cycle. *)
Definition main (fuel : nat) (E : env) (argv : list string) (w : world)
    : ending * world :=
  match Cli.parse_args argv with
  | Cli.Exit status => (Exited status, w)
  | Cli.Parsed ns =>
      match Cli.output ns with
      | Cli.EmptyList => (RaisedTypeError, w)
      | Cli.Value output_file =>
          match Cli.iterations ns, Cli.interval ns with
          | Cli.Value iterations, Cli.Value interval =>
              let '(o, w') := record_cpu fuel E interval iterations output_file w in
              (Ended o, w')
          | iterations, _ =>
              match sink_of E output_file with
              | inl e => (Ended (Raised e), w)
              | inr s =>
                  let w0 := at_loop_entry s w in
                  match iterations with
                  | Cli.EmptyList => (RaisedTypeError, w0)
                  | Cli.Value iterations =>
                      if loop_cond iterations 0 then
                        match fuel with
                        | O => (Ended Running, w0)
                        | S _ =>
                            match _read_cpu_times E w0 with
                            | (inl e, w1) => (Ended (Raised e), w1)
                            | (inr _, w1) => (RaisedTypeError, w1)
                            end
                        end
                      else (Ended Returned, w0)
                  end
              end
          end
      end
  end.

(** * Properties *)

(** ** The reader *)

Section Reader.

Import Text Numeral.

Lemma digit_groups_cons d rest :
  digit_groups (String d rest) = isdigit d && tail_ok rest.
Proof. reflexivity. Qed.

Lemma underscore_not_digit : digit_value "_" = None.
Proof. reflexivity. Qed.

Lemma int_digits_spec s :
  forall acc,
    int_digits true acc s
    = (if digit_groups s then Some (digits_value acc s) else None)
    /\ int_digits false acc s
      = (if tail_ok s then Some (digits_value acc s) else None).
Proof.
  induction s as [|c s' IH]; intros acc.
  - split; reflexivity.
  - rewrite digit_groups_cons. cbn [int_digits digits_value tail_ok].
    destruct (Ascii.eqb_spec c "_") as [->|Hc].
    + rewrite underscore_not_digit. split; [reflexivity|].
      apply (IH acc).
    + rewrite digit_groups_cons. unfold isdigit.
      destruct (digit_value c) as [d|]; cbn [andb]; [|split; reflexivity].
      split; apply (IH (10 * acc + d)).
Qed.

Lemma int_literal_spec s :
  int_literal s = if numeric s then Some (dec_value s) else None.
Proof.
  destruct s as [|c r]; [reflexivity|].
  unfold int_literal, numeric, dec_value.
  destruct (Ascii.eqb_spec c "-") as [->|Hm].
  - cbn [orb]. destruct r as [|c' r']; [reflexivity|].
    change (digits_value 0 (String "-" (String c' r')))
      with (digits_value 0 (String c' r')).
    destruct (Ascii.eqb_spec c' "_") as [->|Hc']; [reflexivity|].
    destruct (int_digits_spec (String c' r') 0) as [_ ->].
    unfold tail_ok. destruct (Ascii.eqb_spec c' "_"); [congruence|].
    destruct (digit_groups (String c' r')); reflexivity.
  - cbn [orb]. destruct (Ascii.eqb_spec c "+") as [->|Hp].
    + destruct r as [|c' r']; [reflexivity|].
      change (digits_value 0 (String "+" (String c' r')))
        with (digits_value 0 (String c' r')).
      destruct (Ascii.eqb_spec c' "_") as [->|Hc']; [reflexivity|].
      destruct (int_digits_spec (String c' r') 0) as [_ ->].
      unfold tail_ok. destruct (Ascii.eqb_spec c' "_"); [congruence|].
      destruct (digit_groups (String c' r')); reflexivity.
    + destruct (Ascii.eqb_spec c "_") as [->|Hc]; [reflexivity|].
      destruct (int_digits_spec (String c r) 0) as [_ ->].
      unfold tail_ok. destruct (Ascii.eqb_spec c "_"); [congruence|].
      destruct (digit_groups (String c r)); reflexivity.
Qed.

Lemma py_int_spec s :
  py_int s = if convertible s then Some (dec_value s) else None.
Proof.
  unfold py_int, convertible, within_limit, digit_count, int_max_str_digits.
  rewrite int_literal_spec, Nat.ltb_antisym.
  destruct (numeric s), (_ <=? 4300)%nat; reflexivity.
Qed.

Lemma ints_of_tokens_spec parts :
  ints_of_tokens parts
  = if forallb convertible parts then Ok (map dec_value parts) else Raise ValueError.
Proof.
  induction parts as [|p ps IH]; [reflexivity|].
  cbn [ints_of_tokens forallb map]. rewrite py_int_spec.
  destruct (convertible p); [|reflexivity].
  rewrite IH. cbn [andb]. destruct (forallb convertible ps); reflexivity.
Qed.

(** *** [split] on a laid-out line *)

#[local] Arguments append !s1 s2 : simpl nomatch.

Lemma app_assoc_str (a b c : string) :
  ((a ++ b) ++ c)%string = (a ++ (b ++ c))%string.
Proof. induction a as [|x a IH]; simpl; congruence. Qed.

Lemma app_empty_r_str (a : string) : (a ++ EmptyString)%string = a.
Proof. induction a as [|x a IH]; simpl; congruence. Qed.

Lemma split_from_blank ws s :
  is_blank ws = true ->
  split_from EmptyString (ws ++ s) = split_from EmptyString s.
Proof.
  induction ws as [|c ws IH]; cbn; [reflexivity|].
  unfold is_blank. cbn. intros [Hc Hws]%andb_prop. rewrite Hc. now apply IH.
Qed.

Lemma split_from_token_chars t :
  forall acc s,
    forallb (fun c => negb (isspace c)) (list_ascii_of_string t) = true ->
    split_from acc (t ++ s) = split_from (acc ++ t) s.
Proof.
  induction t as [|c t IH]; intros acc s; cbn.
  - intros _. now rewrite app_empty_r_str.
  - intros [Hc Ht]%andb_prop. apply negb_true_iff in Hc. rewrite Hc.
    rewrite IH by exact Ht. f_equal. now rewrite app_assoc_str.
Qed.

Lemma split_from_flush tok ws s :
  tok <> EmptyString -> ws <> EmptyString -> is_blank ws = true ->
  split_from tok (ws ++ s) = tok :: split_from EmptyString s.
Proof.
  intros Htok Hne Hws. destruct ws as [|c ws]; [congruence|].
  unfold is_blank in Hws. cbn in Hws. apply andb_prop in Hws as [Hc Hws].
  cbn. rewrite Hc. destruct tok; [congruence|].
  f_equal. now apply split_from_blank.
Qed.

Lemma split_from_end tok ws :
  tok <> EmptyString -> is_blank ws = true -> split_from tok ws = [tok].
Proof.
  intros Htok Hws. destruct ws as [|c ws].
  - destruct tok; [congruence|reflexivity].
  - rewrite <- (app_empty_r_str (String c ws)).
    rewrite split_from_flush; [reflexivity|assumption|discriminate|assumption].
Qed.

Lemma split_layout items :
  forall first trail,
    well_separated first items = true -> is_blank trail = true ->
    split_from EmptyString (layout items trail) = map snd items.
Proof.
  induction items as [|[ws tok] rest IH]; intros first trail Hsep Htrail.
  - cbn [layout map]. rewrite <- (app_empty_r_str trail).
    now rewrite split_from_blank.
  - cbn [layout map snd]. cbn [well_separated] in Hsep.
    apply andb_prop in Hsep as [Hsep Hrest].
    apply andb_prop in Hsep as [Hsep Htok].
    apply andb_prop in Hsep as [Hws _].
    rewrite split_from_blank by exact Hws.
    assert (Hne : tok <> EmptyString) by (destruct tok; [discriminate|congruence]).
    assert (Hchars : forallb (fun c => negb (isspace c)) (list_ascii_of_string tok) = true).
    { destruct tok; [congruence|exact Htok]. }
    rewrite split_from_token_chars by exact Hchars. cbn [String.append].
    destruct rest as [|[ws' tok'] rest'].
    + cbn [layout map]. now apply split_from_end.
    + cbn [layout]. pose proof Hrest as Hrest'. cbn [well_separated] in Hrest.
      apply andb_prop in Hrest as [Hr _]. apply andb_prop in Hr as [Hr _].
      apply andb_prop in Hr as [Hws' Hne']. cbn [orb] in Hne'.
      rewrite split_from_flush; [|assumption| |assumption].
      * f_equal. rewrite <- (IH false trail Hrest' Htrail). cbn [layout].
        now rewrite (split_from_blank ws').
      * intros ->. discriminate.
Qed.

Lemma split_lstrip s : split (lstrip s) = split s.
Proof.
  unfold split. induction s as [|c s IH]; cbn; [reflexivity|].
  destruct (isspace c) eqn:Hc; [exact IH|]. cbn. now rewrite Hc.
Qed.

Lemma split_from_cons tok c s :
  split_from tok (String c s)
  = if isspace c then
      match tok with
      | EmptyString => split_from EmptyString s
      | _ => tok :: split_from EmptyString s
      end
    else split_from (tok ++ String c EmptyString) s.
Proof. reflexivity. Qed.

Lemma split_from_nil tok :
  split_from tok EmptyString
  = match tok with EmptyString => [] | _ => [tok] end.
Proof. reflexivity. Qed.

Lemma split_from_rstrip s : forall tok, split_from tok (rstrip s) = split_from tok s.
Proof.
  induction s as [|c s IH]; intros tok; [reflexivity|].
  cbn [rstrip]. destruct (rstrip s) as [|c' r] eqn:Hr.
  - rewrite (split_from_cons tok c s). destruct (isspace c) eqn:Hc.
    + rewrite <- !IH, !split_from_nil. reflexivity.
    + rewrite <- IH, (split_from_cons tok c), Hc. reflexivity.
  - rewrite (split_from_cons tok c s), (split_from_cons tok c (String c' r)).
    rewrite !IH. reflexivity.
Qed.

Lemma split_strip s : split (strip s) = split s.
Proof. unfold strip, split. rewrite split_from_rstrip. apply split_lstrip. Qed.

End Reader.

(** ** One cycle *)

Section Cycle.

Variables (E : env) (interval : Float.float).

Lemma cpu_percent_unfold w :
  _cpu_percent E interval w
  = match snapshot_at E (stat_reads w) with
    | inl e => (inl e, set_reads (S (stat_reads w)) w)
    | inr prev =>
        match time_sleep E interval with
        | inl e => (inl e, set_reads (S (stat_reads w)) w)
        | inr _ =>
            (rbind (snapshot_at E (S (stat_reads w))) (cpu_percent_of prev),
             set_reads (S (S (stat_reads w))) w)
        end
    end.
Proof.
  unfold _cpu_percent, mbind, _read_cpu_times, sleep, lift, snapshot_at, set_reads.
  cbn [stat_reads files stdout clock_reads].
  destruct (proc_stat E (stat_reads w)) as [e|line]; cbn [rbind]; [reflexivity|].
  destruct (parse_cpu_line line) as [e|prev]; [reflexivity|].
  destruct (time_sleep E interval) as [e|[]]; [reflexivity|].
  destruct (proc_stat E (S (stat_reads w))) as [e|line']; cbn [rbind]; [reflexivity|].
  destruct (parse_cpu_line line') as [e|curr]; reflexivity.
Qed.

(** Computing the percentage never touches a sink or the clock. *)
Lemma cpu_percent_frame w :
  files (snd (_cpu_percent E interval w)) = files w
  /\ stdout (snd (_cpu_percent E interval w)) = stdout w
  /\ clock_reads (snd (_cpu_percent E interval w)) = clock_reads w.
Proof.
  rewrite cpu_percent_unfold.
  destruct (snapshot_at E (stat_reads w)); [easy|].
  destruct (time_sleep E interval); easy.
Qed.


(** A cycle whose percentage fails raises the same exception and leaves
    every sink as it was. *)
Lemma cycle_raises s w e :
  fst (_cpu_percent E interval w) = inl e ->
  fst (cycle E interval s w) = inl e
  /\ files (snd (cycle E interval s w)) = files w
  /\ stdout (snd (cycle E interval s w)) = stdout w
  /\ clock_reads (snd (cycle E interval s w)) = clock_reads w.
Proof.
  intros H. pose proof (cpu_percent_frame w) as Hf.
  unfold cycle, mbind. destruct (_cpu_percent E interval w) as [[e'|x] w'].
  - cbn in *. destruct Hf as (? & ? & ?). now inversion H.
  - discriminate.
Qed.

(** A cycle can only fail inside [_cpu_percent]. *)
Lemma cycle_failure_origin s w e :
  fst (cycle E interval s w) = inl e -> fst (_cpu_percent E interval w) = inl e.
Proof.
  unfold cycle, mbind. destruct (_cpu_percent E interval w) as [[e'|x] w']; cbn;
    intros H; now inversion H.
Qed.

Lemma sink_rows_writerow s r w :
  sink_rows s (snd (writerow s r w)) = sink_rows s w ++ [r].
Proof.
  destruct s as [|p]; cbn; [reflexivity|].
  now rewrite lookup_insert_eq.
Qed.

Lemma writerow_counters s r w :
  stat_reads (snd (writerow s r w)) = stat_reads w
  /\ clock_reads (snd (writerow s r w)) = clock_reads w.
Proof. destruct s; easy. Qed.

(** A cycle whose percentage is [x] appends exactly one row. *)
Lemma cycle_returns s w x :
  fst (_cpu_percent E interval w) = Ok x ->
  fst (cycle E interval s w) = Ok tt
  /\ sink_rows s (snd (cycle E interval s w))
     = sink_rows s w ++ [[CStr (isoformat_now E (clock_reads w)); CFloat x]]
  /\ stat_reads (snd (cycle E interval s w)) = stat_reads (snd (_cpu_percent E interval w))
  /\ clock_reads (snd (cycle E interval s w)) = S (clock_reads w).
Proof.
  intros H. pose proof (cpu_percent_frame w) as (Hf & Ho & Hc).
  unfold cycle, mbind. destruct (_cpu_percent E interval w) as [[e'|x'] w']; [discriminate|].
  cbn in H, Hf, Ho, Hc. inversion H; subst x'. unfold now_isoformat.
  split; [reflexivity|]. rewrite sink_rows_writerow.
  split; [|destruct s; cbn; rewrite Hc; easy].
  rewrite Hc. f_equal. destruct s; cbn; congruence.
Qed.

End Cycle.

(** ** The sampling loop *)

Section Loop.

Variables (E : env) (interval : Float.float) (iterations : Z) (s : sink).

Lemma cpu_percent_value w x :
  fst (_cpu_percent E interval w) = Ok x ->
  percent_at E (stat_reads w) = Ok x
  /\ stat_reads (snd (_cpu_percent E interval w)) = S (S (stat_reads w)).
Proof.
  rewrite cpu_percent_unfold. unfold percent_at.
  destruct (snapshot_at E (stat_reads w)) as [e|prev]; [discriminate|].
  destruct (time_sleep E interval) as [e|[]]; [discriminate|].
  cbn. auto.
Qed.

(** What any run of the loop has done when it is observed: [n] cycles
    completed, each of them appended its row, and nothing else was
    appended. *)
Lemma sample_loop_log fuel :
  forall count w o count' w',
    sample_loop fuel E interval iterations s count w = (o, count', w') ->
    exists n : nat,
      count' = count + Z.of_nat n /\ (n <= fuel)%nat
      /\ sink_rows s w' = sink_rows s w ++ data_rows E (stat_reads w) (clock_reads w) n
      /\ length (data_rows E (stat_reads w) (clock_reads w) n) = n
      /\ clock_reads w' = (clock_reads w + n)%nat
      /\ match o with
         | Returned =>
             w' = after_cycles E interval s n w
             /\ loop_cond iterations count' = false
         | Running =>
             w' = after_cycles E interval s n w
             /\ n = fuel /\ loop_cond iterations count' = true
         | Raised e =>
             loop_cond iterations count' = true
             /\ fst (_cpu_percent E interval (after_cycles E interval s n w)) = inl e
             /\ w' = snd (cycle E interval s (after_cycles E interval s n w))
             /\ files w' = files (after_cycles E interval s n w)
             /\ stdout w' = stdout (after_cycles E interval s n w)
         end.
Proof.
  induction fuel as [|fuel IH]; intros count w o count' w' Hrun.
  - exists 0%nat. cbn in Hrun. rewrite Z.add_0_r, Nat.add_0_r, app_nil_r.
    destruct (loop_cond iterations count) eqn:Hc; inversion Hrun; subst; cbn; auto 10.
  - cbn [sample_loop] in Hrun.
    destruct (loop_cond iterations count) eqn:Hc.
    2:{ exists 0%nat. rewrite Z.add_0_r, Nat.add_0_r, app_nil_r.
        inversion Hrun; subst; cbn; repeat split; auto; lia. }
    destruct (cycle E interval s w) as [[e|[]] w1] eqn:Hcy.
    + exists 0%nat. rewrite Z.add_0_r, Nat.add_0_r, app_nil_r.
      inversion Hrun; subst. cbn [after_cycles data_rows length].
      assert (Hfst : fst (cycle E interval s w) = inl e) by now rewrite Hcy.
      apply cycle_failure_origin in Hfst.
      destruct (cycle_raises E interval s w e Hfst) as (_ & Hf & Ho & Hck).
      rewrite Hcy in Hf, Ho, Hck. cbn in Hf, Ho, Hck.
      repeat split; auto; try lia.
      * destruct s; cbn; congruence.
      * now rewrite Hcy.
    + assert (Hfst : fst (cycle E interval s w) = Ok tt) by now rewrite Hcy.
      destruct (_cpu_percent E interval w) as [[e|x] wp] eqn:Hp.
      { assert (Hpe : fst (_cpu_percent E interval w) = inl e) by now rewrite Hp.
        destruct (cycle_raises E interval s w e Hpe) as (Hbad & _). congruence. }
      assert (Hpx : fst (_cpu_percent E interval w) = Ok x) by now rewrite Hp.
      destruct (cycle_returns E interval s w x Hpx) as (_ & Hrows & Hreads & Hclock).
      destruct (cpu_percent_value w x Hpx) as (Hat & Hreads').
      rewrite Hreads' in Hreads. rewrite Hcy in Hrows, Hreads, Hclock.
      cbn [snd] in Hrows, Hreads, Hclock.
      destruct (IH _ _ _ _ _ Hrun) as (n & Hcount & Hle & Hlog & Hlen & Hclk & Hend).
      exists (S n). cbn [data_rows after_cycles]. rewrite Hat, Hcy. cbn [snd].
      change (2 + stat_reads w)%nat with (S (S (stat_reads w))).
      rewrite Hreads, Hclock in Hlog, Hlen. rewrite Hclock in Hclk.
      repeat split; try lia.
      * rewrite Hlog, Hrows, <- app_assoc. reflexivity.
      * cbn [length]. now rewrite Hlen.
      * destruct o; intuition (auto; lia).
Qed.




End Loop.

(** ** The whole function *)

Section RecordCpu.

Variables (E : env) (interval : Float.float).

Lemma sink_of_open output_file w :
  open_sink E output_file w
  = match sink_of E output_file with
    | inl e => (Raise e, w)
    | inr s =>
        (Ok (s, header_due s w),
         match s with Stdout => w | File name => open_append name w end)
    end.
Proof.
  unfold open_sink, sink_of, header_due.
  destruct (String.eqb output_file "-"%string); [reflexivity|].
  destruct (resolve E output_file); reflexivity.
Qed.

(** A target that cannot be opened: the exception leaves [record_cpu],
    and nothing has changed. *)
Lemma record_cpu_raises fuel iterations output_file w e :
  sink_of E output_file = Raise e ->
  record_cpu fuel E interval iterations output_file w = (Raised e, w).
Proof. intros Hs. unfold record_cpu. rewrite sink_of_open, Hs. reflexivity. Qed.

Lemma record_cpu_unfold fuel iterations output_file s w :
  sink_of E output_file = Ok s ->
  record_cpu fuel E interval iterations output_file w
  = (fst (fst (sample_loop fuel E interval iterations s 0 (at_loop_entry s w))),
     snd (sample_loop fuel E interval iterations s 0 (at_loop_entry s w))).
Proof.
  intros Hs. unfold record_cpu, at_loop_entry. rewrite sink_of_open, Hs.
  destruct (sample_loop _ _ _ _ _ _ _) as [[o c] w3]. reflexivity.
Qed.

(** Opening the sink appends the header when it is due and nothing
    otherwise; it reads neither the counters nor the clock. *)
Lemma at_loop_entry_spec s w :
  sink_rows s (at_loop_entry s w)
  = sink_rows s w ++ (if header_due s w then [header] else [])
  /\ stat_reads (at_loop_entry s w) = stat_reads w
  /\ clock_reads (at_loop_entry s w) = clock_reads w.
Proof.
  unfold at_loop_entry, header_due. destruct s as [|name].
  - cbn. auto.
  - unfold exists_path, open_append.
    destruct (files w !! name) as [rows|] eqn:Hl.
    + rewrite bool_decide_eq_true_2 by eauto. cbn [negb].
      cbn [sink_rows]. rewrite Hl, app_nil_r. auto.
    + rewrite bool_decide_eq_false_2 by (intros [? ?]; congruence). cbn [negb].
      rewrite sink_rows_writerow. cbn. rewrite lookup_insert_eq, Hl. cbn. auto.
Qed.


End RecordCpu.

Section Rows.

Variable E : env.




End Rows.

(** ** Claims about the sampling loop and the sink *)

Section Claims.

Variables (E : env) (interval : Float.float).






End Claims.

(** ** Worked runs *)

Example three_iterations_on_a_fresh_file :
  let run := record_cpu 3 Demo.steady Demo.one 3 "cpu_usage.log" Demo.fresh in
  fst run = Returned
  /\ files (snd run) !! "cpu_usage.log"%string
     = Some [header; [CStr Demo.stamp; CFloat Demo.sixth];
             [CStr Demo.stamp; CFloat Demo.sixth];
             [CStr Demo.stamp; CFloat Demo.sixth]]
  /\ stat_reads (snd run) = 6%nat.
Proof. vm_compute. auto. Qed.

(** A target in a directory that does not exist, and the empty path:
    the open raises, no cycle runs and no file is created. *)
Example missing_directory_raises :
  record_cpu 3 Demo.steady Demo.one 3 "no_such_dir/cpu.log" Demo.fresh
  = (Raised OSError, Demo.fresh)
  /\ record_cpu 3 Demo.steady Demo.one 3 EmptyString Demo.fresh
     = (Raised OSError, Demo.fresh).
Proof. vm_compute. auto. Qed.

(** Two spellings of the default target are one file: the second run
    finds it and writes no second header. *)
Example two_spellings_one_file :
  files (snd (record_cpu 1 Demo.steady Demo.one 1 "./cpu_usage.log"
                (snd (record_cpu 1 Demo.steady Demo.one 1 "cpu_usage.log" Demo.fresh))))
  = {[ "cpu_usage.log"%string :=
         [header; [CStr Demo.stamp; CFloat Demo.sixth];
          [CStr Demo.stamp; CFloat Demo.sixth]] ]}.
Proof. vm_compute. reflexivity. Qed.




Example malformed_second_cycle :
  let run := record_cpu 3 Demo.glitch Demo.one 3 "cpu_usage.log" Demo.fresh in
  fst run = Raised ValueError
  /\ files (snd run) !! "cpu_usage.log"%string
     = Some [header; [CStr Demo.stamp; CFloat Demo.sixth]].
Proof. vm_compute. auto. Qed.




(** ** Claims about the reader and the utilization computation *)

Section Snapshots.

Import Text Numeral.

Lemma getitem_in_range (l : list Z) i :
  (i < length l)%nat -> getitem l i = Ok (nth i l 0).
Proof.
  intros Hi. unfold getitem.
  destruct (l !! i) as [z|] eqn:Hl.
  - f_equal. symmetry. apply nth_lookup_Some with (d := 0) in Hl. exact Hl.
  - apply lookup_ge_None in Hl. lia.
Qed.

Lemma getitem_out_of_range (l : list Z) i :
  (length l <= i)%nat -> getitem l i = Raise IndexError.
Proof.
  intros Hi. unfold getitem. now rewrite (proj2 (lookup_ge_None l i) Hi).
Qed.

Lemma percent_formula_no_index_error td id :
  percent_formula td id <> Raise IndexError.
Proof.
  unfold percent_formula, Float.mul_int, Float.truediv_int, Float.of_int.
  destruct (binary_normalize _ _ (td - id) _ _); cbn; try discriminate;
    destruct (binary_normalize _ _ td _ _); cbn; discriminate.
Qed.

Lemma cpu_percent_of_deltas (prev curr : list Z) :
  (5 <= length prev)%nat ->
  (5 <= length curr)%nat ->
  cpu_percent_of prev curr
  = if Z.eqb (total_delta prev curr) 0 then Ok Float.zero
    else percent_formula (total_delta prev curr) (idle_delta prev curr).
Proof.
  intros Hp Hc. unfold cpu_percent_of.
  rewrite !getitem_in_range by lia. cbn [rbind]. reflexivity.
Qed.

(** C1.  For snapshots with at least 5 counters the computed utilization
    is [0.0] when [total_delta = sum(curr) - sum(prev)] is [0], and
    otherwise [100.0 * (total_delta - idle_delta) / total_delta] with
    [idle_delta = (curr[3] + curr[4]) - (prev[3] + prev[4])].  For
    [prev = [100,0,0,800,50,0,0,0]] and [curr = [110,0,0,850,50,0,0,0]]
    the deltas are 60 and 50 and the result is the float
    [4691249611844267 * 2^-48], which is [50/3 + 1/(3 * 2^48)]:
    16.666... *)
Theorem cpu_percent_is_the_formula (prev curr : list Z) :
  (5 <= length prev)%nat ->
  (5 <= length curr)%nat ->
  (total_delta prev curr = 0 -> cpu_percent_of prev curr = Ok Float.zero)
  /\ (total_delta prev curr <> 0 ->
      cpu_percent_of prev curr
      = percent_formula (total_delta prev curr) (idle_delta prev curr))
  /\ (total_delta [100; 0; 0; 800; 50; 0; 0; 0] [110; 0; 0; 850; 50; 0; 0; 0] = 60
      /\ idle_delta [100; 0; 0; 800; 50; 0; 0; 0] [110; 0; 0; 850; 50; 0; 0; 0] = 50
      /\ cpu_percent_of [100; 0; 0; 800; 50; 0; 0; 0] [110; 0; 0; 850; 50; 0; 0; 0]
         = Ok (S754_finite false 4691249611844267 (-48))
      /\ 3 * 4691249611844267 = 50 * 2 ^ 48 + 1).
Proof.
  intros Hp Hc. pose proof (cpu_percent_of_deltas prev curr Hp Hc) as Hgen.
  split; [|split].
  - intros H0. now rewrite Hgen, H0.
  - intros Hne. rewrite Hgen. now rewrite (proj2 (Z.eqb_neq _ _) Hne).
  - repeat split; vm_compute; reflexivity.
Qed.

(** C8.  The utilization computation raises [IndexError] exactly when one
    of the two snapshots has fewer than 5 counters; the lookups at
    positions 3 and 4 succeed exactly on snapshots with at least 5
    counters. *)
Theorem short_snapshot_raises_index_error (prev curr : list Z) :
  (cpu_percent_of prev curr = Raise IndexError
   <-> (length prev < 5)%nat \/ (length curr < 5)%nat)
  /\ (forall l : list Z,
        (5 <= length l)%nat
        <-> getitem l 3 = Ok (nth 3 l 0) /\ getitem l 4 = Ok (nth 4 l 0)).
Proof.
  split.
  - destruct (Nat.lt_ge_cases (length prev) 5) as [Hp|Hp].
    + split; [auto|]. intros _. unfold cpu_percent_of.
      destruct (Nat.le_gt_cases (length prev) 3) as [H3|H3].
      * now rewrite (getitem_out_of_range prev 3) by lia.
      * rewrite (getitem_in_range prev 3) by lia. cbn [rbind].
        now rewrite (getitem_out_of_range prev 4) by lia.
    + destruct (Nat.lt_ge_cases (length curr) 5) as [Hc|Hc].
      * split; [auto|]. intros _. unfold cpu_percent_of.
        rewrite !(getitem_in_range prev) by lia. cbn [rbind].
        destruct (Nat.le_gt_cases (length curr) 3) as [H3|H3].
        -- now rewrite (getitem_out_of_range curr 3) by lia.
        -- rewrite (getitem_in_range curr 3) by lia. cbn [rbind].
           now rewrite (getitem_out_of_range curr 4) by lia.
      * split; [|lia]. intros Herr. exfalso. revert Herr.
        unfold cpu_percent_of. rewrite !getitem_in_range by lia. cbn [rbind].
        destruct (Z.eqb _ 0); [discriminate|].
        apply percent_formula_no_index_error.
  - intros l. split.
    + intros Hl. split; apply getitem_in_range; lia.
    + intros [_ H4]. destruct (Nat.lt_ge_cases (length l) 5) as [Hs|]; [|assumption].
      rewrite getitem_out_of_range in H4 by lia. discriminate.
Qed.

(** C7, with the limit of [int].  On the first line of the counter source
    the reader drops the first whitespace-separated token (the label)
    and converts every other token with [int]: it returns the integers
    the tokens denote when every one of them is an integer numeral (an
    optional sign, then digits, single underscores allowed between
    digits) of at most 4300 digits, and raises [ValueError], returning
    nothing, as soon as one of them is not.  A token made of decimal
    digits only is such a numeral, and is converted exactly when it has
    at most 4300 characters.  On a line laid out as a label and tokens
    separated by whitespace, the tokens after the label are exactly the
    tokens converted. *)
Theorem reader_parses_all_or_raises (E : env) (w : world) (line : string) :
  proc_stat E (stat_reads w) = Ok line ->
  fst (_read_cpu_times E w)
  = (if forallb convertible (counter_tokens line)
     then Ok (map dec_value (counter_tokens line))
     else Raise ValueError)
  /\ (is_ok (fst (_read_cpu_times E w)) = forallb convertible (counter_tokens line))
  /\ (forall tok,
        convertible tok = true
        <-> numeric tok = true
            /\ (length (List.filter isdigit (list_ascii_of_string tok)) <= 4300)%nat)
  /\ (forall tok,
        tok <> EmptyString ->
        forallb isdigit (list_ascii_of_string tok) = true ->
        numeric tok = true
        /\ convertible tok = (String.length tok <=? 4300)%nat)
  /\ (forall ws label items trail,
        line = layout ((ws, label) :: items) trail ->
        well_separated true ((ws, label) :: items) = true ->
        is_blank trail = true ->
        counter_tokens line = map snd items).
Proof.
  intros Hline.
  assert (Hread : fst (_read_cpu_times E w)
                  = if forallb convertible (counter_tokens line)
                    then Ok (map dec_value (counter_tokens line))
                    else Raise ValueError).
  { unfold _read_cpu_times. cbn [fst]. rewrite Hline. cbn [rbind].
    unfold parse_cpu_line. apply ints_of_tokens_spec. }
  split; [exact Hread|]. split; [|split; [|split]].
  - rewrite Hread. destruct (forallb convertible (counter_tokens line)); reflexivity.
  - intros tok. unfold convertible, within_limit.
    rewrite andb_true_iff, Nat.leb_le. reflexivity.
  - intros tok Hne Hdigits.
    assert (Hnum : numeric tok = true).
    { destruct tok as [|c r]; [congruence|].
      unfold numeric.
      assert (Hgroups : forall t, t <> EmptyString ->
                forallb isdigit (list_ascii_of_string t) = true ->
                digit_groups t = true).
      { clear. induction t as [|d t IH]; intros Hne Hd; [congruence|].
        cbn in Hd. apply andb_prop in Hd as [Hd Ht].
        rewrite digit_groups_cons, Hd. cbn [andb]. unfold tail_ok.
        destruct t as [|c t']; [reflexivity|].
        destruct (Ascii.eqb_spec c "_") as [->|Hc].
        - cbn in Ht. discriminate.
        - apply IH; [discriminate|exact Ht]. }
      cbn in Hdigits. apply andb_prop in Hdigits as [Hc Hr].
      destruct (Ascii.eqb_spec c "-") as [->|Hm]; [discriminate|].
      destruct (Ascii.eqb_spec c "+") as [->|Hpl]; [discriminate|].
      cbn [orb]. apply Hgroups; [discriminate|]. cbn. now rewrite Hc, Hr. }
    split; [exact Hnum|]. unfold convertible, within_limit. rewrite Hnum. cbn [andb].
    f_equal. clear Hne Hnum. induction tok as [|c r IH]; [reflexivity|].
    cbn in Hdigits. apply andb_prop in Hdigits as [Hc Hr].
    cbn [list_ascii_of_string List.filter]. rewrite Hc. cbn [length String.length].
    f_equal. now apply IH.
  - intros ws label items trail -> Hsep Htrail.
    unfold counter_tokens. rewrite split_strip. unfold split.
    now rewrite (split_layout _ true trail Hsep Htrail).
Qed.

End Snapshots.

Lemma cpu_percent_is_the_formula_witness :
  total_delta [100; 0; 0; 800; 50; 0; 0; 0] [110; 0; 0; 850; 50; 0; 0; 0] <> 0
  /\ cpu_percent_of [100; 0; 0; 800; 50; 0; 0; 0] [110; 0; 0; 850; 50; 0; 0; 0]
     = percent_formula 60 50
  /\ percent_formula 60 50 = Ok Demo.sixth.
Proof.
  destruct (cpu_percent_is_the_formula
              [100; 0; 0; 800; 50; 0; 0; 0] [110; 0; 0; 850; 50; 0; 0; 0])
    as (_ & Hformula & _).
  - cbn. lia.
  - cbn. lia.
  - split; [vm_compute; discriminate|]. split.
    + apply Hformula. vm_compute. discriminate.
    + vm_compute. reflexivity.
Defined.

Lemma reader_parses_all_or_raises_witness :
  fst (_read_cpu_times Demo.steady Demo.fresh) = Ok [100; 0; 0; 800; 50; 0; 0; 0]
  /\ fst (_read_cpu_times Demo.glitch
            {| files := ∅; stdout := []; stat_reads := 3; clock_reads := 0 |})
     = Raise ValueError.
Proof.
  split.
  - destruct (reader_parses_all_or_raises Demo.steady Demo.fresh Demo.line_a eq_refl)
      as (Hread & _).
    rewrite Hread. vm_compute. reflexivity.
  - destruct (reader_parses_all_or_raises Demo.glitch
                {| files := ∅; stdout := []; stat_reads := 3; clock_reads := 0 |}
                Demo.line_bad eq_refl)
      as (Hread & _).
    rewrite Hread. vm_compute. reflexivity.
Defined.

(** C7 as stated fails: every token after the label is numeric, the
    first one has 4301 digits, and the reader raises [ValueError]
    instead of returning the integers.  With 4300 digits it returns
    them. *)
Lemma long_numeral_is_refused :
  proc_stat (Edge.overlong 4301) 0 = Ok (Edge.long_line 4301)
  /\ forallb Numeral.numeric (counter_tokens (Edge.long_line 4301)) = true
  /\ fst (_read_cpu_times (Edge.overlong 4301) Demo.fresh) = Raise ValueError
  /\ is_ok (fst (_read_cpu_times (Edge.overlong 4300) Demo.fresh)) = true.
Proof. vm_compute. auto. Qed.

(** ** Binary64 rounding

    What the claims need from [SpecFloat]: a conversion of an int below
    [2^53] is exact, and rounding to nearest never crosses a bound that is
    itself an integer below [2^53]. *)

Section Binary64.

Abbreviation fexp := (SpecFloat.fexp 53 1024).
Abbreviation bra := (binary_round_aux 53 1024).

Lemma fexp_eq z : fexp z = Z.max (z - 53) (-1074).
Proof. reflexivity. Qed.

Lemma digits2_pos_size p : digits2_pos p = Pos.size p.
Proof. induction p; cbn; congruence. Qed.

Lemma Zdigits2_bounds m :
  0 < m -> 2 ^ (Zdigits2 m - 1) <= m < 2 ^ Zdigits2 m.
Proof.
  destruct m as [|p|p]; try lia. intros _. cbn [Zdigits2].
  rewrite digits2_pos_size.
  pose proof (Pos.size_gt p) as Hgt. pose proof (Pos.size_le p) as Hle.
  apply Pos2Z.pos_lt_pos in Hgt. rewrite Pos2Z.inj_pow in Hgt.
  apply Pos2Z.pos_le_pos in Hle. rewrite Pos2Z.inj_pow in Hle.
  split; [|exact Hgt].
  replace (Z.pos (Pos.size p)) with (Z.succ (Z.pos (Pos.size p) - 1)) in Hle by lia.
  rewrite Z.pow_succ_r in Hle by lia. lia.
Qed.

Lemma Zdigits2_nonneg m : 0 <= Zdigits2 m.
Proof. destruct m; cbn; lia. Qed.

Lemma Zdigits2_le_pow m k :
  0 <= m < 2 ^ k -> 0 <= k -> Zdigits2 m <= k.
Proof.
  intros [Hm Hlt] Hk. destruct (Z.eq_dec m 0) as [->|Hne]; [cbn; lia|].
  destruct (Zdigits2_bounds m ltac:(lia)) as [Hlo _].
  destruct (Z.le_gt_cases (Zdigits2 m) k) as [|Hgt]; [assumption|].
  assert (2 ^ k <= 2 ^ (Zdigits2 m - 1)) by (apply Z.pow_le_mono_r; lia).
  lia.
Qed.

Lemma Zdigits2_unique m k :
  2 ^ (k - 1) <= m < 2 ^ k -> 0 < k -> Zdigits2 m = k.
Proof.
  intros [Hlo Hhi] Hk.
  assert (Hm : 0 < m) by (pose proof (Z.pow_pos_nonneg 2 (k - 1)); lia).
  destruct (Zdigits2_bounds m Hm) as [Hlo' Hhi'].
  pose proof (Zdigits2_nonneg m).
  destruct (Z.lt_trichotomy (Zdigits2 m) k) as [Hlt|[Heq|Hgt]]; [|assumption|].
  - assert (2 ^ Zdigits2 m <= 2 ^ (k - 1)) by (apply Z.pow_le_mono_r; lia). lia.
  - assert (2 ^ k <= 2 ^ (Zdigits2 m - 1)) by (apply Z.pow_le_mono_r; lia). lia.
Qed.

Lemma Zdigits2_mono m n : 0 <= m <= n -> Zdigits2 m <= Zdigits2 n.
Proof.
  intros [Hm Hmn]. destruct (Z.eq_dec n 0) as [->|Hn].
  - replace m with 0 by lia. lia.
  - apply Zdigits2_le_pow; [|apply Zdigits2_nonneg].
    destruct (Zdigits2_bounds n ltac:(lia)). lia.
Qed.

Lemma Zdigits2_shift m k :
  0 < m -> 0 <= k -> Zdigits2 (m * 2 ^ k) = Zdigits2 m + k.
Proof.
  intros Hm Hk. destruct (Zdigits2_bounds m Hm) as [Hlo Hhi].
  pose proof (Zdigits2_nonneg m).
  assert (0 < Zdigits2 m).
  { destruct (Z.eq_dec (Zdigits2 m) 0) as [E|]; [|lia]. rewrite E in Hhi. cbn in Hhi. lia. }
  apply Zdigits2_unique; [|lia].
  replace (Zdigits2 m + k - 1) with ((Zdigits2 m - 1) + k) by lia.
  rewrite !Z.pow_add_r by lia.
  pose proof (Z.pow_pos_nonneg 2 k ltac:(lia) Hk). nia.
Qed.

(** *** Shifting right *)

Lemma iter_pos_nat {A} (f : A -> A) p :
  forall x, SpecFloat.iter_pos f p x = Nat.iter (Pos.to_nat p) f x.
Proof.
  induction p as [p IH|p IH|]; intros x; cbn [SpecFloat.iter_pos].
  - rewrite !IH, Pos2Nat.inj_xI, <- Nat.iter_add, <- Nat.iter_succ_r.
    f_equal. lia.
  - rewrite !IH, Pos2Nat.inj_xO, <- Nat.iter_add. f_equal. lia.
  - reflexivity.
Qed.

Lemma shr_1_m mrs :
  0 <= shr_m mrs -> shr_m (shr_1 mrs) = shr_m mrs / 2.
Proof.
  destruct mrs as [m r s]. cbn [shr_m]. intros Hm.
  rewrite <- Z.div2_div. destruct m as [|[p|p|]|p]; try reflexivity. lia.
Qed.

Lemma shr_1_even m :
  0 <= m -> Z.even m = true ->
  shr_1 (Build_shr_record m false false) = Build_shr_record (m / 2) false false.
Proof.
  intros Hm He. rewrite <- Z.div2_div.
  destruct m as [|[p|p|]|p]; try reflexivity; try discriminate. lia.
Qed.

Lemma shr_iter_m n :
  forall mrs,
    0 <= shr_m mrs ->
    shr_m (Nat.iter n shr_1 mrs) = shr_m mrs / 2 ^ Z.of_nat n.
Proof.
  induction n as [|n IH]; intros mrs Hm.
  - cbn. now rewrite Z.div_1_r.
  - rewrite Nat.iter_succ, shr_1_m, IH by
      (try rewrite IH by assumption; try apply Z.div_pos; try lia).
    rewrite Nat2Z.inj_succ, Z.pow_succ_r by lia.
    rewrite Z.div_div by lia. f_equal. lia.
Qed.

Lemma shr_iter_exact n :
  forall m,
    0 <= m -> m mod 2 ^ Z.of_nat n = 0 ->
    Nat.iter n shr_1 (Build_shr_record m false false)
    = Build_shr_record (m / 2 ^ Z.of_nat n) false false.
Proof.
  induction n as [|n IH]; intros m Hm Hdiv.
  - cbn. now rewrite Z.div_1_r.
  - rewrite Nat2Z.inj_succ, Z.pow_succ_r in Hdiv |- * by lia.
    assert (Hp : 0 < 2 ^ Z.of_nat n) by (apply Z.pow_pos_nonneg; lia).
    apply Z.mod_divide in Hdiv; [|lia]. destruct Hdiv as [k Hk].
    assert (Hdiv' : m mod 2 ^ Z.of_nat n = 0).
    { apply Z.mod_divide; [lia|]. exists (k * 2). lia. }
    rewrite Nat.iter_succ, IH by assumption.
    assert (Hq : m / 2 ^ Z.of_nat n = 2 * k).
    { rewrite Hk. replace (k * (2 * 2 ^ Z.of_nat n)) with (2 * k * 2 ^ Z.of_nat n) by lia.
      apply Z.div_mul. lia. }
    rewrite shr_1_even.
    + f_equal. rewrite (Z.mul_comm 2), <- Z.div_div by lia. reflexivity.
    + rewrite Hq. nia.
    + rewrite Hq. now rewrite Z.even_mul.
Qed.

Lemma shr_m_of_loc m l : shr_m (shr_record_of_loc m l) = m.
Proof. destruct l as [|[]]; reflexivity. Qed.

(** [shr_fexp] moves the mantissa to the exponent its size calls for:
    the mantissa is floored, and an exact input whose dropped bits are
    zero stays exact. *)
Lemma shr_fexp_spec mx ex lx :
  0 <= mx ->
  let e1 := Z.max ex (fexp (Zdigits2 mx + ex)) in
  snd (shr_fexp 53 1024 mx ex lx) = e1
  /\ shr_m (fst (shr_fexp 53 1024 mx ex lx)) = mx / 2 ^ (e1 - ex)
  /\ (lx = loc_Exact -> mx mod 2 ^ (e1 - ex) = 0 ->
      loc_of_shr_record (fst (shr_fexp 53 1024 mx ex lx)) = loc_Exact).
Proof.
  intros Hm e1. unfold shr_fexp, shr.
  destruct (fexp (Zdigits2 mx + ex) - ex) as [|p|p] eqn:Hn; cbn [fst snd].
  - replace (e1 - ex) with 0 by lia. rewrite Z.div_1_r, shr_m_of_loc.
    repeat split; [lia|]. now intros -> _.
  - assert (He : e1 - ex = Z.pos p) by lia. rewrite He.
    rewrite iter_pos_nat. split; [lia|]. split.
    + rewrite shr_iter_m by now rewrite shr_m_of_loc.
      now rewrite shr_m_of_loc, positive_nat_Z.
    + intros -> Hdiv. cbn [shr_record_of_loc].
      rewrite shr_iter_exact; [reflexivity|assumption|].
      now rewrite positive_nat_Z.
  - replace (e1 - ex) with 0 by lia. rewrite Z.div_1_r, shr_m_of_loc.
    repeat split; [lia|]. now intros -> _.
Qed.

(** *** Rounding never crosses a representable integer bound *)

Lemma round_nearest_even_bounds m l :
  m <= round_nearest_even m l <= m + 1
  /\ (l = loc_Exact -> round_nearest_even m l = m).
Proof.
  destruct l as [|[]]; cbn; try destruct (Z.even m); split; auto; try lia; discriminate.
Qed.

Lemma pow2_split a b : 0 <= a -> 0 <= b -> 2 ^ (a + b) = 2 ^ a * 2 ^ b.
Proof. intros. now apply Z.pow_add_r. Qed.

Lemma pow2_pos a : 0 <= a -> 0 < 2 ^ a.
Proof. intros. now apply Z.pow_pos_nonneg. Qed.

(** The exponent chosen for a mantissa below [C * 2^-ex] is at most the
    one of [C]. *)
Lemma fexp_below mx ex C :
  0 <= mx -> 0 < C -> ex <= 0 -> mx <= C * 2 ^ (- ex) ->
  fexp (Zdigits2 mx + ex) <= Zdigits2 C - 53.
Proof.
  intros Hmx HC Hex Hle. rewrite fexp_eq.
  assert (Hd : Zdigits2 mx <= Zdigits2 C - ex).
  { rewrite <- Z.add_opp_r, <- Zdigits2_shift by lia. apply Zdigits2_mono. lia. }
  destruct (Zdigits2_bounds C HC) as [_ Hhi].
  assert (0 < Zdigits2 C).
  { pose proof (Zdigits2_nonneg C).
    destruct (Z.eq_dec (Zdigits2 C) 0) as [E|]; [|lia]. rewrite E in Hhi. cbn in Hhi. lia. }
  lia.
Qed.

Lemma div_pow2_le m G k :
  0 <= k -> m <= G * 2 ^ k -> m / 2 ^ k <= G.
Proof.
  intros Hk Hle. pose proof (pow2_pos k Hk).
  apply Z.div_le_upper_bound; lia.
Qed.

Lemma binary_round_aux_le mx ex lx C :
  0 <= mx -> 0 < C -> Zdigits2 C <= 53 -> ex <= Zdigits2 C - 53 ->
  mx <= C * 2 ^ (- ex) ->
  (lx <> loc_Exact -> mx < C * 2 ^ (- ex)) ->
  bra false mx ex lx = S754_zero false
  \/ exists m e,
       bra false mx ex lx = S754_finite false m e
       /\ e <= Zdigits2 C - 53 /\ Z.pos m <= C * 2 ^ (- e).
Proof.
  intros Hmx HC HdC Hex Hle Hstrict.
  destruct (shr_fexp_spec mx ex lx Hmx) as (He1 & Hm1 & Hexact1).
  unfold binary_round_aux.
  destruct (shr_fexp 53 1024 mx ex lx) as [mrs1 e1] eqn:H1.
  cbn [fst snd] in He1, Hm1, Hexact1. rewrite <- He1 in Hm1, Hexact1.
  assert (Hfe : fexp (Zdigits2 mx + ex) <= Zdigits2 C - 53)
    by (apply fexp_below; lia).
  assert (He1C : ex <= e1 <= Zdigits2 C - 53) by lia.
  set (k := e1 - ex) in *. set (G := C * 2 ^ (- e1)).
  assert (HG : C * 2 ^ (- ex) = G * 2 ^ k).
  { unfold G, k. rewrite <- Z.mul_assoc, <- pow2_split by lia. f_equal. f_equal. lia. }
  assert (Hk : 0 <= k) by (unfold k; lia).
  assert (HGdef : G = C * 2 ^ (- e1)) by reflexivity.
  clearbody k G.
  pose proof (pow2_pos k Hk) as Hpk.
  assert (Hm1pos : 0 <= shr_m mrs1) by (rewrite Hm1; apply Z.div_pos; lia).
  assert (Hm1G : shr_m mrs1 <= G) by (rewrite Hm1; apply div_pow2_le; lia).
  set (m2 := round_nearest_even (shr_m mrs1) (loc_of_shr_record mrs1)).
  assert (Hm2 : 0 <= m2 <= G).
  { destruct (round_nearest_even_bounds (shr_m mrs1) (loc_of_shr_record mrs1))
      as [Hb Hex1]. fold m2 in Hb, Hex1.
    split; [lia|].
    destruct (Z.eq_dec (shr_m mrs1) G) as [HeqG|HneG]; [|lia].
    assert (Hmul : mx / 2 ^ k * 2 ^ k <= mx).
    { pose proof (Z.mul_div_le mx (2 ^ k) Hpk). lia. }
    rewrite <- Hm1, HeqG in Hmul.
    assert (Hmx_eq : mx = G * 2 ^ k) by lia.
    assert (Hlx : lx = loc_Exact).
    { destruct lx as [|c]; [reflexivity|]. exfalso.
      assert (mx < C * 2 ^ (- ex)) by (apply Hstrict; discriminate). lia. }
    rewrite Hex1; [lia|]. apply Hexact1; [exact Hlx|].
    rewrite Hmx_eq. apply Z.mod_mul. lia. }
  destruct (shr_fexp_spec m2 e1 loc_Exact (proj1 Hm2)) as (He2 & Hm3 & _).
  destruct (shr_fexp 53 1024 m2 e1 loc_Exact) as [mrs2 e2] eqn:H2.
  cbn [fst snd] in He2, Hm3. rewrite <- He2 in Hm3.
  assert (Hfe2 : fexp (Zdigits2 m2 + e1) <= Zdigits2 C - 53).
  { apply fexp_below; try lia. }
  assert (He2C : e1 <= e2 <= Zdigits2 C - 53) by lia.
  set (k2 := e2 - e1) in *.
  assert (HG2 : G = C * 2 ^ (- e2) * 2 ^ k2).
  { rewrite HGdef. unfold k2.
    rewrite <- Z.mul_assoc, <- pow2_split by lia. f_equal. f_equal. lia. }
  assert (Hk2 : 0 <= k2) by (unfold k2; lia).
  clearbody k2.
  pose proof (pow2_pos k2 Hk2) as Hpk2.
  assert (Hm3pos : 0 <= shr_m mrs2) by (rewrite Hm3; apply Z.div_pos; lia).
  assert (Hm3G : shr_m mrs2 <= C * 2 ^ (- e2)).
  { rewrite Hm3. apply div_pow2_le; lia. }
  destruct (shr_m mrs2) as [|m|m] eqn:Hsm; [left; reflexivity| |lia].
  right. exists m, e2.
  replace (Z.leb e2 (1024 - 53)) with true by (symmetry; apply Z.leb_le; lia).
  repeat split; lia.
Qed.

(** *** Exact conversions and the two operations *)

Lemma pos_iter_xO p d : Z.pos (Pos.iter xO p d) = Z.pos p * 2 ^ Z.pos d.
Proof.
  induction d as [|d IH] using Pos.peano_ind.
  - cbn. lia.
  - rewrite Pos.iter_succ, Pos2Z.inj_xO, IH, Pos2Z.inj_succ, Z.pow_succ_r by lia. lia.
Qed.

Lemma binary_round_aux_canonical m e :
  0 < m -> fexp (Zdigits2 m + e) = e -> e <= 971 ->
  bra false m e loc_Exact = S754_finite false (Z.to_pos m) e.
Proof.
  intros Hm Hcan He.
  destruct (shr_fexp_spec m e loc_Exact ltac:(lia)) as (He1 & Hm1 & Hexact1).
  unfold binary_round_aux.
  destruct (shr_fexp 53 1024 m e loc_Exact) as [mrs1 e1].
  cbn [fst snd] in He1, Hm1, Hexact1. rewrite Hcan, Z.max_id in He1. subst e1.
  rewrite Hcan, Z.max_id, Z.sub_diag, Z.pow_0_r in Hm1, Hexact1.
  rewrite Z.div_1_r in Hm1. rewrite Z.mod_1_r in Hexact1.
  rewrite Hm1, (Hexact1 eq_refl eq_refl). cbn [round_nearest_even].
  destruct (shr_fexp_spec m e loc_Exact ltac:(lia)) as (He2 & Hm2 & _).
  destruct (shr_fexp 53 1024 m e loc_Exact) as [mrs2 e2].
  cbn [fst snd] in He2, Hm2. rewrite Hcan, Z.max_id in He2. subst e2.
  rewrite Hcan, Z.max_id, Z.sub_diag, Z.pow_0_r, Z.div_1_r in Hm2. rewrite Hm2.
  destruct m as [|p|p]; try lia.
  replace (Z.leb e (1024 - 53)) with true by (symmetry; apply Z.leb_le; lia).
  reflexivity.
Qed.

Lemma Zdigits2_pos z : 0 < z -> 0 < Zdigits2 z.
Proof.
  intros Hz. destruct (Zdigits2_bounds z Hz) as [_ Hhi].
  pose proof (Zdigits2_nonneg z).
  destruct (Z.eq_dec (Zdigits2 z) 0) as [E|]; [|lia]. rewrite E in Hhi. cbn in Hhi. lia.
Qed.

(** An int below [2^53] converts to the float of the same value. *)
Lemma of_int_exact z :
  0 < z < 2 ^ 53 ->
  exists m,
    Float.of_int z = Ok (S754_finite false m (Zdigits2 z - 53))
    /\ Z.pos m = z * 2 ^ (53 - Zdigits2 z).
Proof.
  intros [Hz Hlt]. destruct z as [|p|p]; try lia.
  assert (HD : 0 < Zdigits2 (Z.pos p) <= 53).
  { split; [now apply Zdigits2_pos|]. apply Zdigits2_le_pow; lia. }
  unfold Float.of_int, binary_normalize, binary_round.
  change (Z.pos (digits2_pos p)) with (Zdigits2 (Z.pos p)).
  fold Float.prec Float.emax. unfold Float.prec, Float.emax.
  rewrite Z.add_0_r, fexp_eq, Z.max_l by lia.
  unfold shl_align. rewrite Z.sub_0_r.
  destruct (Zdigits2 (Z.pos p) - 53) as [|d|d] eqn:Hd; try lia.
  - exists p. rewrite binary_round_aux_canonical; try lia.
    + split; [reflexivity|]. replace (53 - Zdigits2 (Z.pos p)) with 0 by lia. lia.
    + rewrite fexp_eq. lia.
  - exists (Pos.iter xO p d).
    assert (Hval : Z.pos (Pos.iter xO p d) = Z.pos p * 2 ^ Z.pos d)
      by apply pos_iter_xO.
    rewrite binary_round_aux_canonical; try lia.
    + split; [reflexivity|]. rewrite Hval. f_equal. f_equal. lia.
    + rewrite Hval, Zdigits2_shift, fexp_eq by lia. lia.
Qed.

Lemma hundred_mantissa : 7036874417766400 = 100 * 2 ^ 46.
Proof. reflexivity. Qed.

(** [100.0 * a] stays at or below [100 * b] when [a <= b] and [100 * b]
    is a float. *)
Lemma mul_hundred_le a b ma :
  0 < a <= b -> 100 * b < 2 ^ 53 ->
  Z.pos ma = a * 2 ^ (53 - Zdigits2 a) ->
  let x := SFmul 53 1024 Float.hundred (S754_finite false ma (Zdigits2 a - 53)) in
  x = S754_zero false
  \/ exists m e,
       x = S754_finite false m e
       /\ e <= Zdigits2 (100 * b) - 53 /\ Z.pos m <= 100 * b * 2 ^ (- e).
Proof.
  intros [Ha Hab] Hb Hma x. subst x. unfold Float.hundred, SFmul. cbn [xorb].
  assert (HDa : 0 < Zdigits2 a <= 53).
  { split; [now apply Zdigits2_pos|]. apply Zdigits2_le_pow; lia. }
  assert (HDab : Zdigits2 a <= Zdigits2 (100 * b)) by (apply Zdigits2_mono; lia).
  apply binary_round_aux_le; try lia.
  - apply Zdigits2_le_pow; lia.
  - rewrite Pos2Z.inj_mul, Hma, hundred_mantissa.
    replace (- (-46 + (Zdigits2 a - 53))) with (46 + (53 - Zdigits2 a)) by lia.
    rewrite pow2_split by lia.
    pose proof (pow2_pos 46 ltac:(lia)). pose proof (pow2_pos (53 - Zdigits2 a) ltac:(lia)).
    nia.
  - intros Hne. now contradiction Hne.
Qed.

Lemma new_location_zero nb : new_location nb 0 = loc_Exact.
Proof. unfold new_location. destruct (Z.even nb); reflexivity. Qed.

(** A quotient whose exact value is at most 100 rounds to at most
    [100.0]. *)
Lemma div_le_hundred b mx ex my :
  0 < b -> 100 * b < 2 ^ 53 ->
  ex <= Zdigits2 (100 * b) - 53 -> Z.pos mx <= 100 * b * 2 ^ (- ex) ->
  Z.pos my = b * 2 ^ (53 - Zdigits2 b) ->
  let r := SFdiv 53 1024 (S754_finite false mx ex)
             (S754_finite false my (Zdigits2 b - 53)) in
  r = S754_zero false
  \/ exists m e,
       r = S754_finite false m e /\ e <= -46 /\ Z.pos m <= 100 * 2 ^ (- e).
Proof.
  intros Hb Hbb Hex Hmx Hmy r. subst r. unfold SFdiv, SFdiv_core_binary. cbn [xorb].
  assert (HDb : 0 < Zdigits2 b <= 53).
  { split; [now apply Zdigits2_pos|]. apply Zdigits2_le_pow; lia. }
  assert (HDC : 0 < Zdigits2 (100 * b) <= 53).
  { split; [apply Zdigits2_pos; lia|]. apply Zdigits2_le_pow; lia. }
  assert (HDC' : Zdigits2 (100 * b) <= Zdigits2 b + 7).
  { apply Zdigits2_le_pow; [|lia]. destruct (Zdigits2_bounds b Hb) as [_ Hhi].
    rewrite pow2_split by lia. change (2 ^ 7) with 128. lia. }
  assert (HDmy : Zdigits2 (Z.pos my) = 53).
  { rewrite Hmy, Zdigits2_shift by lia. lia. }
  assert (HDmx : Zdigits2 (Z.pos mx) <= Zdigits2 (100 * b) - ex).
  { rewrite <- Z.add_opp_r, <- Zdigits2_shift by lia. apply Zdigits2_mono. lia. }
  rewrite HDmy.
  set (ey := Zdigits2 b - 53) in *.
  set (e' := Z.min (fexp (Zdigits2 (Z.pos mx) + ex - (53 + ey))) (ex - ey)).
  assert (He' : e' <= -46 /\ e' <= ex - ey).
  { unfold e'. rewrite fexp_eq. unfold ey. lia. }
  set (s := ex - ey - e').
  assert (Hs : 0 <= s) by (unfold s; lia).
  assert (Hm' : match s with
                | Z.pos _ => Z.shiftl (Z.pos mx) s
                | 0 => Z.pos mx
                | Z.neg _ => 0
                end = Z.pos mx * 2 ^ s).
  { destruct s as [|p|p] eqn:Hsp; [lia| |lia]. now rewrite Z.shiftl_mul_pow2. }
  rewrite Hm'.
  pose proof (Z_div_mod (Z.pos mx * 2 ^ s) (Z.pos my) ltac:(lia)) as Hdiv.
  destruct (Z.div_eucl (Z.pos mx * 2 ^ s) (Z.pos my)) as [q rem].
  destruct Hdiv as [Hq Hrem].
  assert (Hbound : Z.pos mx * 2 ^ s <= 100 * 2 ^ (- e') * Z.pos my).
  { assert (Hpow : 2 ^ (- ex) * 2 ^ s = 2 ^ (- e') * 2 ^ (53 - Zdigits2 b)).
    { rewrite <- !pow2_split by (unfold ey in *; lia). f_equal. unfold s, ey. lia. }
    rewrite Hmy.
    pose proof (pow2_pos s Hs). pose proof (pow2_pos (- ex) ltac:(lia)).
    pose proof (pow2_pos (- e') ltac:(lia)).
    pose proof (pow2_pos (53 - Zdigits2 b) ltac:(lia)).
    assert (Z.pos mx * 2 ^ s <= 100 * b * (2 ^ (- ex) * 2 ^ s)) by nia.
    rewrite Hpow in H3. lia. }
  pose proof (pow2_pos (- e') ltac:(lia)) as Hpe.
  assert (Hq0 : 0 <= q) by nia.
  assert (HD100 : Zdigits2 100 = 7) by reflexivity.
  destruct (binary_round_aux_le q e' (new_location (Z.pos my) rem) 100)
    as [Hz|(m & e & Hr & He & Hm)]; try lia.
  - nia.
  - intros Hloc. destruct (Z.eq_dec rem 0) as [->|Hne].
    + now rewrite new_location_zero in Hloc.
    + nia.
  - left. exact Hz.
  - right. exists m, e. rewrite HD100 in He. repeat split; [exact Hr|lia|exact Hm].
Qed.

Lemma leb_hundred m e :
  e <= -46 -> Z.pos m <= 100 * 2 ^ (- e) ->
  Float.in_percent_range (S754_finite false m e) = true.
Proof.
  intros He Hm. unfold Float.in_percent_range, Float.leb, Float.zero, Float.hundred, SFleb.
  cbn [SFcompare andb]. destruct (Z.compare_spec e (-46)) as [->|Hlt|Hgt]; [|reflexivity|lia].
  change (100 * 2 ^ (- -46)) with 7036874417766400 in Hm.
  rewrite Pos.compare_cont_spec. cbn [Pos.switch_Eq].
  destruct (Pos.compare_spec m 7036874417766400); try reflexivity. lia.
Qed.

(** The percentage of a non-negative busy share [a] of a positive total
    [b], with [100 * b] below [2^53], is a float between [0.0] and
    [100.0]. *)
Lemma percent_formula_in_range a b :
  0 <= a <= b -> 0 < b -> 100 * b < 2 ^ 53 ->
  exists x,
    (y <~ Float.mul_int Float.hundred a ;; Float.truediv_int y b)%result = Ok x
    /\ Float.in_percent_range x = true /\ Float.is_finite x = true.
Proof.
  intros [Ha Hab] Hb Hbb.
  destruct (of_int_exact b ltac:(lia)) as (my & Hofb & Hmy).
  unfold Float.mul_int, Float.truediv_int, Float.prec, Float.emax.
  destruct (Z.eq_dec a 0) as [->|Hane].
  - cbn [Float.of_int binary_normalize rbind]. rewrite Hofb. cbn.
    exists (S754_zero false). auto.
  - destruct (of_int_exact a ltac:(lia)) as (ma & Hofa & Hma).
    rewrite Hofa. cbn [rbind]. rewrite Hofb. cbn [rbind Float.is_zero].
    destruct (mul_hundred_le a b ma ltac:(lia) Hbb Hma) as [Hx|(mx & ex & Hx & Hex & Hmx)];
      cbv zeta in Hx; rewrite Hx.
    + cbn. exists (S754_zero false). auto.
    + destruct (div_le_hundred b mx ex my Hb Hbb Hex Hmx Hmy)
        as [Hr|(m & e & Hr & He & Hm)]; cbv zeta in Hr; rewrite Hr.
      * exists (S754_zero false). auto.
      * exists (S754_finite false m e). split; [reflexivity|].
        split; [now apply leb_hundred|reflexivity].
Qed.

End Binary64.

(** ** The range of the percentage *)

Lemma py_sum_cons x l : py_sum (x :: l) = x + py_sum l.
Proof.
  unfold py_sum. cbn [fold_left]. rewrite Z.add_0_l.
  revert x. induction l as [|y l IH]; intros x; cbn [fold_left]; [lia|].
  rewrite (IH (x + y)), (IH (0 + y)). lia.
Qed.

Lemma py_sum_mono (prev curr : list Z) :
  Forall2 Z.le prev curr -> py_sum prev <= py_sum curr.
Proof.
  induction 1 as [|x y l l' Hxy _ IH]; [reflexivity|].
  rewrite !py_sum_cons. lia.
Qed.

(** Counters that only advance give [0 <= idle_delta <= total_delta]. *)
Lemma advancing_counters_deltas (prev curr : list Z) :
  (5 <= length prev)%nat ->
  Forall2 Z.le prev curr ->
  0 <= idle_delta prev curr <= total_delta prev curr.
Proof.
  intros Hlen Hadv.
  destruct Hadv as [|p0 c0 ? ? H0 Hadv]; [cbn in Hlen; lia|].
  destruct Hadv as [|p1 c1 ? ? H1 Hadv]; [cbn in Hlen; lia|].
  destruct Hadv as [|p2 c2 ? ? H2 Hadv]; [cbn in Hlen; lia|].
  destruct Hadv as [|p3 c3 ? ? H3 Hadv]; [cbn in Hlen; lia|].
  destruct Hadv as [|p4 c4 prest crest H4 Hadv]; [cbn in Hlen; lia|].
  apply py_sum_mono in Hadv.
  unfold idle_delta, idle, total_delta. cbn [nth]. rewrite !py_sum_cons. lia.
Qed.

(** C3, as the code has it.  The computation does not clamp: the value is
    between [0.0] and [100.0] when the snapshots have at least 5 counters,
    the idle share advanced by at least 0 and at most [total_delta] (as it
    does when no counter went back), and [100 * total_delta] is below
    [2^53], so that no rounding happens before the division.  The value is
    then a finite float, and it is [0.0] when [total_delta] is [0]. *)
Theorem percent_in_range_when_counters_advance (prev curr : list Z) :
  (5 <= length prev)%nat ->
  (5 <= length curr)%nat ->
  0 <= idle_delta prev curr <= total_delta prev curr ->
  100 * total_delta prev curr < 2 ^ 53 ->
  exists x,
    cpu_percent_of prev curr = Ok x
    /\ Float.in_percent_range x = true
    /\ Float.is_finite x = true
    /\ (total_delta prev curr = 0 -> x = Float.zero).
Proof.
  intros Hp Hc Hidle Hsize. rewrite cpu_percent_of_deltas by assumption.
  destruct (Z.eqb_spec (total_delta prev curr) 0) as [H0|Hne].
  - exists Float.zero. repeat split.
  - destruct (percent_formula_in_range
                (total_delta prev curr - idle_delta prev curr) (total_delta prev curr))
      as (x & Hx & Hrange & Hfin); try lia.
    exists x. unfold percent_formula. rewrite Hx. repeat split; try assumption.
    intros H0. contradiction.
Qed.

Lemma percent_in_range_when_counters_advance_witness :
  exists x,
    cpu_percent_of [100; 0; 0; 800; 50; 0; 0; 0] [110; 0; 0; 850; 50; 0; 0; 0] = Ok x
    /\ Float.in_percent_range x = true.
Proof.
  destruct (percent_in_range_when_counters_advance
              [100; 0; 0; 800; 50; 0; 0; 0] [110; 0; 0; 850; 50; 0; 0; 0])
    as (x & Hx & Hrange & _).
  - cbn. lia.
  - cbn. lia.
  - vm_compute. split; discriminate.
  - vm_compute. reflexivity.
  - exists x. split; [exact Hx|exact Hrange].
Defined.

(** C3 as stated fails: the idle counter went back by 5 while the total
    advanced by 5, and the value is [200.0]. *)
Lemma percent_above_hundred_when_idle_recedes :
  cpu_percent_of [100; 0; 0; 800; 50; 0; 0; 0] [110; 0; 0; 795; 50; 0; 0; 0]
  = Ok (S754_finite false 7036874417766400 (-45))
  /\ Float.in_percent_range (S754_finite false 7036874417766400 (-45)) = false.
Proof. split; vm_compute; reflexivity. Qed.

(** The bound on [total_delta] is needed as well: with counters that only
    advance, [100.0 * total_delta] can round up, and the quotient with it
    to the float after [100.0]. *)
Example percent_above_hundred_by_rounding :
  cpu_percent_of [0; 0; 0; 0; 0] [753376859134590; 0; 0; 0; 0]
  = Ok (S754_finite false 7036874417766401 (-46))
  /\ Float.in_percent_range (S754_finite false 7036874417766401 (-46)) = false.
Proof. split; vm_compute; reflexivity. Qed.

(** ** Decimal digits *)

Section Digits.

Import Dec.

Lemma digit_value_dchar d : is_digit d -> Text.digit_value (dchar d) = Some d.
Proof.
  intros [Hlo Hhi].
  assert (H : d = 0 \/ d = 1 \/ d = 2 \/ d = 3 \/ d = 4 \/ d = 5 \/ d = 6
              \/ d = 7 \/ d = 8 \/ d = 9) by lia.
  repeat (destruct H as [->|H]; [reflexivity|]). now subst.
Qed.

Lemma value_acc ds :
  forall acc,
    fold_left (fun a d => 10 * a + d) ds acc
    = acc * 10 ^ Z.of_nat (length ds) + value ds.
Proof.
  unfold value. induction ds as [|d ds IH]; intros acc; cbn [fold_left length].
  - cbn. lia.
  - rewrite IH, (IH (10 * 0 + d)), Nat2Z.inj_succ, Z.pow_succ_r by lia. lia.
Qed.

Lemma value_app a b :
  value (a ++ b) = value a * 10 ^ Z.of_nat (length b) + value b.
Proof. unfold value at 1. rewrite fold_left_app. apply value_acc. Qed.

Lemma value_snoc a d : value (a ++ [d]) = 10 * value a + d.
Proof.
  rewrite value_app. cbn [length]. change (Z.of_nat 1) with 1.
  rewrite Z.pow_1_r. unfold value at 2. cbn [fold_left]. lia.
Qed.

Lemma value_cons d ds : value (d :: ds) = d * 10 ^ Z.of_nat (length ds) + value ds.
Proof.
  change (d :: ds) with ([d] ++ ds). rewrite value_app.
  unfold value at 1. cbn [fold_left]. lia.
Qed.

Lemma value_zeros j ds : value (repeat 0 j ++ ds) = value ds.
Proof.
  induction j as [|j IH]; [reflexivity|].
  cbn [repeat app]. rewrite value_cons, IH. lia.
Qed.

Lemma digits_lsf_spec fuel :
  forall n,
    0 <= n < 2 ^ Z.of_nat fuel ->
    value (rev (digits_lsf fuel n)) = n /\ Forall is_digit (digits_lsf fuel n).
Proof.
  induction fuel as [|fuel IH]; intros n [Hlo Hhi].
  - cbn in Hhi. replace n with 0 by lia. split; [reflexivity|constructor].
  - cbn [digits_lsf]. destruct (Z.ltb_spec n 10) as [Hs|Hb].
    + split; [cbn; unfold value; cbn; lia|]. repeat constructor; lia.
    + rewrite Nat2Z.inj_succ, Z.pow_succ_r in Hhi by lia.
      destruct (IH (n / 10)) as [Hv Hd].
      { split; [apply Z.div_pos; lia|]. apply Z.div_lt_upper_bound; lia. }
      cbn [rev]. rewrite value_snoc, Hv. split.
      * pose proof (Z.div_mod n 10 ltac:(lia)). lia.
      * constructor; [|exact Hd]. pose proof (Z.mod_pos_bound n 10 ltac:(lia)).
        unfold is_digit. lia.
Qed.

Lemma to_digits_spec n :
  0 <= n -> value (to_digits n) = n /\ Forall is_digit (to_digits n).
Proof.
  intros Hn. unfold to_digits.
  destruct (digits_lsf_spec (S (Z.to_nat (Z.log2 n))) n) as [Hv Hd].
  - split; [exact Hn|]. rewrite Nat2Z.inj_succ, Z2Nat.id by apply Z.log2_nonneg.
    destruct (Z.eq_dec n 0) as [->|Hne]; [cbn; lia|].
    apply Z.log2_spec. lia.
  - split; [exact Hv|]. now apply Forall_rev.
Qed.

Lemma rev_repeat {A} (x : A) j : rev (repeat x j) = repeat x j.
Proof.
  induction j as [|j IH]; [reflexivity|].
  cbn [repeat rev]. rewrite IH. clear IH.
  induction j as [|j IH]; [reflexivity|]. cbn [repeat app]. now rewrite IH.
Qed.

Lemma drop_zeros_repeat j l : drop_zeros (repeat 0 j ++ l) = drop_zeros l.
Proof. induction j as [|j IH]; [reflexivity|]. exact IH. Qed.

Lemma drop_zeros_app l z :
  drop_zeros l <> [] -> drop_zeros (l ++ z) = drop_zeros l ++ z.
Proof.
  induction l as [|d l IH]; intros Hne; [now contradiction Hne|].
  cbn [app]. destruct d as [|p|p]; cbn [drop_zeros] in *; auto.
Qed.

Lemma drop_zeros_all j l : drop_zeros l = [] -> drop_zeros (l ++ repeat 0 j) = [].
Proof.
  induction l as [|d l IH]; intros Hnil.
  - cbn [app]. rewrite <- (app_nil_r (repeat 0 j)). now rewrite drop_zeros_repeat.
  - cbn [app]. destruct d as [|p|p]; cbn [drop_zeros] in *; auto; discriminate.
Qed.

Lemma strip_trailing_zeros ds j :
  strip_trailing (ds ++ repeat 0 j) = strip_trailing ds.
Proof.
  unfold strip_trailing. now rewrite rev_app_distr, rev_repeat, drop_zeros_repeat.
Qed.

Lemma canon_trailing ds j k :
  canon (ds ++ repeat 0 j) k = canon ds (k + Z.of_nat j).
Proof.
  unfold canon. rewrite strip_trailing_zeros, length_app, repeat_length.
  f_equal. lia.
Qed.

Lemma to_float_trailing neg ds j k :
  to_float neg (ds ++ repeat 0 j) k = to_float neg ds (k + Z.of_nat j).
Proof. unfold to_float. now rewrite canon_trailing. Qed.

Lemma to_float_leading neg ds j k :
  to_float neg (repeat 0 j ++ ds) k = to_float neg ds k.
Proof.
  unfold to_float, canon, strip_trailing.
  rewrite rev_app_distr, rev_repeat.
  destruct (drop_zeros (rev ds)) as [|d r] eqn:Hd.
  - rewrite drop_zeros_all by exact Hd. reflexivity.
  - rewrite drop_zeros_app by (rewrite Hd; discriminate).
    rewrite Hd, rev_app_distr, rev_repeat, value_zeros.
    replace (Z.of_nat (length (repeat 0 j ++ ds))
             - Z.of_nat (length (repeat 0 j ++ rev (d :: r))))
      with (Z.of_nat (length ds) - Z.of_nat (length (rev (d :: r))))
      by (rewrite !length_app, repeat_length; lia).
    reflexivity.
Qed.

Lemma strip_trailing_idem ds : strip_trailing (strip_trailing ds) = strip_trailing ds.
Proof.
  unfold strip_trailing. rewrite rev_involutive. f_equal.
  generalize (rev ds). intros l. induction l as [|d l IH]; [reflexivity|].
  destruct d as [|p|p]; cbn [drop_zeros]; auto.
Qed.

(** A list is its stripped form followed by zeros. *)
Lemma strip_trailing_split ds :
  exists j, ds = strip_trailing ds ++ repeat 0 j.
Proof.
  unfold strip_trailing.
  assert (H : forall l, exists j, l = repeat 0 j ++ drop_zeros l).
  { induction l as [|d l [j Hj]]; [exists 0%nat; reflexivity|].
    destruct d as [|p|p]; [|exists 0%nat; reflexivity..].
    exists (S j). cbn [drop_zeros repeat app]. now rewrite <- Hj. }
  destruct (H (rev ds)) as [j Hj]. exists j.
  rewrite <- (rev_involutive ds) at 1. rewrite Hj at 1.
  now rewrite rev_app_distr, rev_repeat.
Qed.

(** *** Reading digits *)

Lemma take_digits_dtext ds rest :
  Forall is_digit ds -> no_digit_ahead rest ->
  FloatText.take_digits (dtext ds ++ rest) = (ds, rest).
Proof.
  intros Hds Hrest. induction Hds as [|d ds Hd _ IH].
  - cbn [dtext map app]. destruct rest as [|c r]; [reflexivity|].
    cbn in Hrest |- *. now rewrite Hrest.
  - cbn [dtext map app FloatText.take_digits]. rewrite (digit_value_dchar d Hd).
    fold (dtext ds). now rewrite IH.
Qed.

End Digits.

(** ** [float] reads what [repr] lays out *)

Section ReprText.

Import Dec FloatText.

Lemma to_digits_nonempty n : to_digits n <> [].
Proof.
  unfold to_digits. cbn [digits_lsf].
  destruct (n <? 10); cbn [rev]; intros H; now apply app_eq_nil in H as [_ H].
Qed.

Lemma dtext_app a b : dtext (a ++ b) = dtext a ++ dtext b.
Proof. apply map_app. Qed.

Lemma zeros_dtext j : zeros j = dtext (repeat 0 (Z.to_nat j)).
Proof.
  unfold zeros, dtext. induction (Z.to_nat j) as [|n IH]; [reflexivity|].
  cbn [repeat map]. now rewrite IH.
Qed.

Lemma is_digit_repeat j : Forall is_digit (repeat 0 j).
Proof. induction j; constructor; [unfold is_digit; lia|assumption]. Qed.

Lemma parse_exponent_text e :
  parse_exponent ("e"%char :: exponent_text e) = Some e.
Proof.
  unfold parse_exponent, exponent_text.
  destruct (to_digits_spec (Z.abs e) (Z.abs_nonneg e)) as [Hv Hd].
  pose proof (to_digits_nonempty (Z.abs e)) as Hne.
  assert (Htake : forall ds,
             ds <> [] -> Forall is_digit ds ->
             FloatText.take_digits (dtext ds ++ []) = (ds, [])).
  { intros ds Hn Hf. now rewrite take_digits_dtext by (auto; exact I). }
  destruct (to_digits (Z.abs e)) as [|d [|d' r]] eqn:Hto; [congruence| |].
  - assert (Hf : Forall is_digit [0; d]).
    { constructor; [unfold is_digit; lia|exact Hd]. }
    assert (Hval : value [0; d] = Z.abs e).
    { rewrite <- Hv. unfold value. cbn. lia. }
    change [dchar 0; dchar d] with (dtext [0; d] ++ []).
    destruct (Z.ltb_spec e 0) as [Hneg|Hpos]; cbn [Ascii.eqb Bool.eqb orb andb];
      rewrite (Htake [0; d] ltac:(discriminate) Hf), Hval; f_equal; lia.
  - rewrite <- (app_nil_r (dtext (d :: d' :: r))).
    destruct (Z.ltb_spec e 0) as [Hneg|Hpos]; cbn [Ascii.eqb Bool.eqb orb andb];
      rewrite (Htake (d :: d' :: r) ltac:(discriminate) Hd), Hv; f_equal; lia.
Qed.

Lemma parse_decimal_fraction ip fp tail :
  Forall is_digit ip -> Forall is_digit fp -> ip ++ fp <> [] ->
  no_digit_ahead tail ->
  parse_decimal (dtext ip ++ "."%char :: dtext fp ++ tail)
  = match parse_exponent tail with
    | Some e => Some (ip ++ fp, e - Z.of_nat (length fp))
    | None => None
    end.
Proof.
  intros Hip Hfp Hne Htail. unfold parse_decimal.
  rewrite take_digits_dtext by (auto; reflexivity).
  cbn [Ascii.eqb Bool.eqb andb]. rewrite take_digits_dtext by auto.
  destruct (ip ++ fp); [congruence|reflexivity].
Qed.

Lemma parse_decimal_exponent ip e :
  Forall is_digit ip -> ip <> [] ->
  parse_decimal (dtext ip ++ "e"%char :: exponent_text e) = Some (ip, e).
Proof.
  intros Hip Hne. unfold parse_decimal.
  rewrite take_digits_dtext by (auto; reflexivity).
  cbn [Ascii.eqb Bool.eqb andb]. rewrite app_nil_r, parse_exponent_text.
  destruct ip; [congruence|]. cbn [length]. f_equal. f_equal. lia.
Qed.

Lemma Forall_take_drop (P : Z -> Prop) n l :
  Forall P l -> Forall P (take n l) /\ Forall P (drop n l).
Proof.
  intros H. rewrite <- (take_drop n l) in H. now apply Forall_app in H.
Qed.

(** Whatever the layout, [float] finds the digits and the scale of the
    candidate again, up to zeros that do not change the value. *)
Lemma parse_layout neg ds decpt :
  ds <> [] -> Forall is_digit ds ->
  exists L k,
    parse_decimal (render (ds, decpt)) = Some (L, k)
    /\ to_float neg L k = to_float neg ds (decpt - Z.of_nat (length ds)).
Proof.
  intros Hne Hds. unfold render.
  destruct ((decpt <=? -4) || (16 <? decpt)) eqn:Hexp.
  - destruct ds as [|d [|d' rest]]; [congruence| |].
    + exists [d], (decpt - 1). split; [|reflexivity].
      apply (parse_decimal_exponent [d] (decpt - 1)); [exact Hds|discriminate].
    + exists (d :: d' :: rest), (decpt - Z.of_nat (length (d :: d' :: rest))).
      split; [|reflexivity].
      inversion Hds as [|? ? Hd Hrest]; subst.
      change (dchar d :: "."%char :: dtext (d' :: rest) ++ "e"%char :: exponent_text (decpt - 1))
        with (dtext [d] ++ "."%char :: dtext (d' :: rest) ++ "e"%char :: exponent_text (decpt - 1)).
      rewrite parse_decimal_fraction; auto; try discriminate; try reflexivity.
      rewrite parse_exponent_text. cbn [app length]. f_equal. f_equal. lia.
  - apply orb_false_iff in Hexp as [H4 H16].
    apply Z.leb_gt in H4. apply Z.ltb_ge in H16.
    destruct (Z.leb_spec decpt 0) as [H0|H0].
    + exists ([0] ++ repeat 0 (Z.to_nat (- decpt)) ++ ds),
        (0 - Z.of_nat (length (repeat 0 (Z.to_nat (- decpt)) ++ ds))).
      split.
      * rewrite zeros_dtext, <- dtext_app, <- (app_nil_r (dtext (_ ++ ds))).
        change ("0"%char :: "."%char :: ?x) with (dtext [0] ++ "."%char :: x).
        rewrite parse_decimal_fraction; try exact I.
        -- reflexivity.
        -- repeat constructor; unfold is_digit; lia.
        -- apply Forall_app. split; [apply is_digit_repeat|exact Hds].
        -- discriminate.
      * change ([0] ++ repeat 0 (Z.to_nat (- decpt)) ++ ds)
          with (repeat 0 (S (Z.to_nat (- decpt))) ++ ds).
        rewrite to_float_leading. f_equal.
        rewrite length_app, repeat_length. lia.
    + destruct (Z.leb_spec (Z.of_nat (length ds)) decpt) as [Hn|Hn].
      * exists ((ds ++ repeat 0 (Z.to_nat (decpt - Z.of_nat (length ds)))) ++ [0]),
          (0 - Z.of_nat (length [0])).
        split.
        -- rewrite zeros_dtext, app_assoc, <- dtext_app.
           change ["."%char; "0"%char] with ("."%char :: dtext [0] ++ []).
           rewrite parse_decimal_fraction; try exact I.
           ++ reflexivity.
           ++ apply Forall_app. split; [exact Hds|apply is_digit_repeat].
           ++ repeat constructor; unfold is_digit; lia.
           ++ destruct ds; [congruence|discriminate].
        -- rewrite <- app_assoc.
           change (repeat 0 (Z.to_nat (decpt - Z.of_nat (length ds))) ++ [0])
             with (repeat 0 (Z.to_nat (decpt - Z.of_nat (length ds))) ++ repeat 0 1).
           rewrite <- repeat_app, to_float_trailing. f_equal.
           cbn [length]. lia.
      * destruct (Forall_take_drop is_digit (Z.to_nat decpt) ds Hds) as [Ht Hd].
        exists (take (Z.to_nat decpt) ds ++ drop (Z.to_nat decpt) ds),
          (0 - Z.of_nat (length (drop (Z.to_nat decpt) ds))).
        split.
        -- rewrite <- (app_nil_r (dtext (drop _ ds))).
           rewrite parse_decimal_fraction; try exact I; auto.
           rewrite take_drop. exact Hne.
        -- rewrite take_drop. f_equal. rewrite length_drop. lia.
Qed.

End ReprText.

(** ** Reading back an exact decimal *)

Section Exact.

Import Dec FloatText.

Lemma bounded_spec m e :
  bounded 53 1024 m e = true ->
  SpecFloat.fexp 53 1024 (Zdigits2 (Z.pos m) + e) = e /\ e <= 971.
Proof.
  unfold bounded, canonical_mantissa. intros [Hc He]%andb_prop.
  apply Z.eqb_eq in Hc. apply Z.leb_le in He. split; [exact Hc|]. lia.
Qed.

(** A canonical mantissa shifted left rounds back to itself. *)
Lemma binary_round_aux_exact neg m e k :
  bounded 53 1024 m e = true -> 0 <= k ->
  binary_round_aux 53 1024 neg (Z.pos m * 2 ^ k) (e - k) loc_Exact
  = S754_finite neg m e.
Proof.
  intros Hb Hk. destruct (bounded_spec m e Hb) as [Hcan He].
  pose proof (pow2_pos k Hk) as Hpk.
  assert (Hmk : 0 <= Z.pos m * 2 ^ k) by lia.
  destruct (shr_fexp_spec (Z.pos m * 2 ^ k) (e - k) loc_Exact Hmk) as (He1 & Hm1 & Hex1).
  unfold binary_round_aux.
  destruct (shr_fexp 53 1024 (Z.pos m * 2 ^ k) (e - k) loc_Exact) as [mrs1 e1].
  cbn [fst snd] in He1, Hm1, Hex1.
  rewrite Zdigits2_shift in He1, Hm1, Hex1 by lia.
  replace (Zdigits2 (Z.pos m) + k + (e - k)) with (Zdigits2 (Z.pos m) + e)
    in He1, Hm1, Hex1 by lia.
  rewrite Hcan in He1, Hm1, Hex1. rewrite Z.max_r in He1, Hm1, Hex1 by lia.
  replace (e - (e - k)) with k in Hm1, Hex1 by lia.
  rewrite Z.div_mul in Hm1 by lia. rewrite Z.mod_mul in Hex1 by lia.
  subst e1. rewrite Hm1, (Hex1 eq_refl eq_refl). cbn [round_nearest_even].
  destruct (shr_fexp_spec (Z.pos m) e loc_Exact ltac:(lia)) as (He2 & Hm2 & _).
  destruct (shr_fexp 53 1024 (Z.pos m) e loc_Exact) as [mrs2 e2].
  cbn [fst snd] in He2, Hm2. rewrite Hcan, Z.max_id in He2, Hm2. subst e2.
  rewrite Z.sub_diag, Z.pow_0_r, Z.div_1_r in Hm2. rewrite Hm2.
  replace (Z.leb e (1024 - 53)) with true by (symmetry; apply Z.leb_le; lia).
  reflexivity.
Qed.

Lemma fexp_mono a b :
  a <= b -> SpecFloat.fexp 53 1024 a <= SpecFloat.fexp 53 1024 b.
Proof. intros H. rewrite !fexp_eq. lia. Qed.

Lemma div_eucl_exact den Q : 0 < den -> Z.div_eucl (den * Q) den = (Q, 0).
Proof.
  intros Hd. rewrite (surjective_pairing (Z.div_eucl (den * Q) den)).
  change (fst (Z.div_eucl (den * Q) den)) with ((den * Q) / den).
  change (snd (Z.div_eucl (den * Q) den)) with ((den * Q) mod den).
  rewrite (Z.mul_comm den Q), Z.div_mul, Z.mod_mul by lia. reflexivity.
Qed.

(** A quotient that is exactly a float rounds to that float. *)
Lemma round_q_exact neg num den m e :
  0 < num -> 0 < den -> bounded 53 1024 m e = true ->
  num * 2 ^ Z.max 0 (- e) = den * Z.pos m * 2 ^ Z.max 0 e ->
  round_q neg num den = S754_finite neg m e.
Proof.
  intros Hnum Hden Hb Heq. destruct (bounded_spec m e Hb) as [Hcan He].
  set (a := Z.max 0 (- e)) in *. set (b := Z.max 0 e) in *.
  assert (Ha : 0 <= a) by (unfold a; lia). assert (Hb0 : 0 <= b) by (unfold b; lia).
  assert (Hab : b - a = e) by (unfold a, b; lia).
  clearbody a b.
  pose proof (pow2_pos a Ha) as Hpa. pose proof (pow2_pos b Hb0) as Hpb.
  assert (Hdig : Zdigits2 num - Zdigits2 den <= Zdigits2 (Z.pos m) + e).
  { destruct (Zdigits2_bounds den Hden) as [_ Hd2].
    destruct (Zdigits2_bounds (Z.pos m) ltac:(lia)) as [_ HdD].
    pose proof (Zdigits2_nonneg den). pose proof (Zdigits2_nonneg (Z.pos m)).
    assert (Hlt : num * 2 ^ a < 2 ^ (Zdigits2 den + Zdigits2 (Z.pos m) + b)).
    { rewrite Heq, !pow2_split by lia.
      pose proof (pow2_pos (Zdigits2 den) ltac:(lia)).
      pose proof (pow2_pos (Zdigits2 (Z.pos m)) ltac:(lia)).
      assert (den * Z.pos m < 2 ^ Zdigits2 den * 2 ^ Zdigits2 (Z.pos m))
        by (apply Z.mul_lt_mono_nonneg; lia).
      apply Z.mul_lt_mono_pos_r; lia. }
    assert (Zdigits2 (num * 2 ^ a) <= Zdigits2 den + Zdigits2 (Z.pos m) + b)
      by (apply Zdigits2_le_pow; lia).
    rewrite Zdigits2_shift in H1 by lia. lia. }
  unfold round_q, SFdiv_core_binary, Float.prec, Float.emax.
  rewrite !Z.add_0_r, Z.sub_0_r.
  set (e' := Z.min (SpecFloat.fexp 53 1024 (Zdigits2 num - Zdigits2 den)) 0).
  assert (He' : e' <= e /\ e' <= 0).
  { unfold e'. pose proof (fexp_mono _ _ Hdig). lia. }
  assert (Hm' : match 0 - e' with
                | Z.pos _ => Z.shiftl num (0 - e')
                | 0 => num
                | Z.neg _ => 0
                end = num * 2 ^ (- e')).
  { replace (0 - e') with (- e') by lia.
    destruct (- e') as [|p|p] eqn:Hs; [lia| |lia]. now rewrite Z.shiftl_mul_pow2. }
  rewrite Hm'.
  assert (Hexact : num * 2 ^ (- e') = den * (Z.pos m * 2 ^ (e - e'))).
  { apply (Z.mul_reg_r _ _ (2 ^ a)); [lia|].
    replace (num * 2 ^ (- e') * 2 ^ a) with (num * 2 ^ a * 2 ^ (- e')) by lia.
    rewrite Heq.
    replace (den * (Z.pos m * 2 ^ (e - e')) * 2 ^ a)
      with (den * Z.pos m * (2 ^ (e - e') * 2 ^ a)) by lia.
    rewrite <- !Z.mul_assoc, <- !pow2_split by lia.
    do 3 f_equal. lia. }
  rewrite Hexact, div_eucl_exact by lia.
  rewrite new_location_zero.
  replace e' with (e - (e - e')) at 2 by lia.
  apply binary_round_aux_exact; [exact Hb|lia].
Qed.

Lemma value_repeat_zero j : value (repeat 0 j) = 0.
Proof. rewrite <- (app_nil_r (repeat 0 j)). now rewrite value_zeros. Qed.

Lemma pow10_split x : 0 <= x -> 10 ^ x = 2 ^ x * 5 ^ x.
Proof. intros. now rewrite <- Z.pow_mul_l. Qed.

(** What [normalize] yields for a positive integer: non-empty digits that
    carry its value. *)
Lemma normalize_spec c k :
  0 < c ->
  let cand := normalize c k in
  exists j : nat,
    c = value (fst cand) * 10 ^ Z.of_nat j
    /\ snd cand - Z.of_nat (length (fst cand)) = k + Z.of_nat j
    /\ 0 < value (fst cand)
    /\ fst cand <> []
    /\ Forall is_digit (fst cand)
    /\ strip_trailing (fst cand) = fst cand.
Proof.
  intros Hc cand. unfold cand, normalize. cbn [fst snd].
  destruct (to_digits_spec c ltac:(lia)) as [Hv Hd].
  destruct (strip_trailing_split (to_digits c)) as [j Hj].
  set (ds := strip_trailing (to_digits c)) in *.
  assert (Hval : c = value ds * 10 ^ Z.of_nat j).
  { rewrite <- Hv, Hj, value_app, value_repeat_zero, repeat_length. lia. }
  exists j. split; [exact Hval|]. split.
  - rewrite Hj at 1. rewrite length_app, repeat_length. lia.
  - assert (Hpos : 0 < value ds).
    { pose proof (Z.pow_pos_nonneg 10 (Z.of_nat j) ltac:(lia) ltac:(lia)). nia. }
    split; [exact Hpos|]. split; [intros Hnil; rewrite Hnil in Hpos; cbn in Hpos; lia|].
    split; [|apply strip_trailing_idem].
    rewrite Hj in Hd. now apply Forall_app in Hd.
Qed.

Lemma to_float_stripped neg ds k :
  strip_trailing ds = ds -> value ds <> 0 ->
  to_float neg ds k
  = if 0 <=? k then round_q neg (value ds * 10 ^ k) 1
    else round_q neg (value ds) (10 ^ (- k)).
Proof.
  intros Hs Hv. unfold to_float, canon. rewrite Hs, Z.sub_diag, Z.add_0_r.
  now rewrite (proj2 (Z.eqb_neq _ _) Hv).
Qed.

(** The full decimal expansion of a float reads back as that float. *)
Lemma exact_reads_back neg m e :
  bounded 53 1024 m e = true ->
  to_float neg (fst (exact m e)) (snd (exact m e) - Z.of_nat (length (fst (exact m e))))
  = S754_finite neg m e.
Proof.
  intros Hb. unfold exact.
  destruct (Z.leb_spec 0 e) as [He|He].
  - assert (Hc : 0 < Z.pos m * 2 ^ e) by (pose proof (pow2_pos e He); lia).
    destruct (normalize_spec (Z.pos m * 2 ^ e) 0 Hc) as (j & Hval & Hk & Hpos & _ & _ & Hs).
    rewrite Hk, to_float_stripped by (auto; lia).
    rewrite Z.add_0_l. replace (0 <=? Z.of_nat j) with true by (symmetry; apply Z.leb_le; lia).
    rewrite <- Hval. apply round_q_exact; try lia; [exact Hb|].
    rewrite Z.max_l, Z.max_r by lia. lia.
  - assert (H5 : 0 < 5 ^ (- e)) by (apply Z.pow_pos_nonneg; lia).
    assert (Hc : 0 < Z.pos m * 5 ^ (- e)) by lia.
    destruct (normalize_spec (Z.pos m * 5 ^ (- e)) e Hc) as (j & Hval & Hk & Hpos & _ & _ & Hs).
    rewrite Hk, to_float_stripped by (auto; lia).
    pose proof (pow2_pos (- e) ltac:(lia)) as H2.
    assert (H10j : 0 < 10 ^ Z.of_nat j) by (apply Z.pow_pos_nonneg; lia).
    set (n := value (fst (normalize (Z.pos m * 5 ^ (- e)) e))) in *.
    destruct (Z.leb_spec 0 (e + Z.of_nat j)) as [Hkj|Hkj].
    + assert (H10 : 0 < 10 ^ (e + Z.of_nat j)) by (apply Z.pow_pos_nonneg; lia).
      apply round_q_exact; try lia; [exact Hb|].
      rewrite Z.max_r, Z.max_l by lia. rewrite Z.pow_0_r.
      apply (Z.mul_reg_r _ _ (5 ^ (- e))); [lia|].
      replace (n * 10 ^ (e + Z.of_nat j) * 2 ^ (- e) * 5 ^ (- e))
        with (n * (10 ^ (e + Z.of_nat j) * (2 ^ (- e) * 5 ^ (- e)))) by lia.
      rewrite <- pow10_split, <- Z.pow_add_r by lia.
      replace (e + Z.of_nat j + - e) with (Z.of_nat j) by lia. lia.
    + assert (H10 : 0 < 10 ^ (- (e + Z.of_nat j))) by (apply Z.pow_pos_nonneg; lia).
      apply round_q_exact; try lia; [exact Hb|].
      rewrite Z.max_r, Z.max_l by lia. rewrite Z.pow_0_r.
      apply (Z.mul_reg_r _ _ (10 ^ Z.of_nat j * 5 ^ (- e))); [lia|].
      replace (n * 2 ^ (- e) * (10 ^ Z.of_nat j * 5 ^ (- e)))
        with (n * 10 ^ Z.of_nat j * (2 ^ (- e) * 5 ^ (- e))) by lia.
      rewrite <- Hval, <- pow10_split by lia.
      replace (10 ^ (- (e + Z.of_nat j)) * Z.pos m * 1 * (10 ^ Z.of_nat j * 5 ^ (- e)))
        with (Z.pos m * 5 ^ (- e) * (10 ^ (- (e + Z.of_nat j)) * 10 ^ Z.of_nat j)) by lia.
      rewrite <- Z.pow_add_r by lia.
      replace (- (e + Z.of_nat j) + Z.of_nat j) with (- e) by lia. lia.
Qed.

End Exact.

(** ** [float (repr x)] is [x] *)

Section RoundTrip.

Import Dec FloatText.

(** The characters [repr] uses. *)
Lemma repr_char_facts c :
  repr_char c = true ->
  Csv.special c = false /\ Text.isspace c = false /\ Ascii.eqb c "_" = false.
Proof.
  destruct c as [[] [] [] [] [] [] [] []]; vm_compute; intros H;
    first [discriminate H | auto].
Qed.

Lemma dchar_facts d :
  is_digit d ->
  repr_char (dchar d) = true
  /\ Ascii.eqb (dchar d) "-" = false /\ Ascii.eqb (dchar d) "+" = false
  /\ Ascii.eqb (lower (dchar d)) "i" = false
  /\ Ascii.eqb (lower (dchar d)) "n" = false.
Proof.
  intros [Hlo Hhi].
  assert (H : d = 0 \/ d = 1 \/ d = 2 \/ d = 3 \/ d = 4 \/ d = 5 \/ d = 6
              \/ d = 7 \/ d = 8 \/ d = 9) by lia.
  repeat (destruct H as [->|H]; [vm_compute; auto|]). subst. vm_compute. auto.
Qed.

Lemma dtext_chars ds : Forall is_digit ds -> forallb repr_char (dtext ds) = true.
Proof.
  induction 1 as [|d ds Hd _ IH]; [reflexivity|].
  cbn [dtext map forallb]. fold (dtext ds).
  now rewrite (proj1 (dchar_facts d Hd)), IH.
Qed.

Lemma zeros_chars j : forallb repr_char (zeros j) = true.
Proof. rewrite zeros_dtext. apply dtext_chars, is_digit_repeat. Qed.

Lemma exponent_chars e : forallb repr_char (exponent_text e) = true.
Proof.
  unfold exponent_text. cbn [forallb].
  destruct (to_digits_spec (Z.abs e) (Z.abs_nonneg e)) as [_ Hd].
  assert (Hsign : repr_char (if e <? 0 then "-"%char else "+"%char) = true)
    by (destruct (e <? 0); reflexivity).
  rewrite Hsign. cbn [andb].
  destruct (to_digits (Z.abs e)) as [|d [|d' r]]; [reflexivity| |].
  - change [dchar 0; dchar d] with (dtext [0; d]). apply dtext_chars.
    constructor; [unfold is_digit; lia|exact Hd].
  - now apply dtext_chars.
Qed.

Lemma layout_chars ds decpt :
  Forall is_digit ds -> forallb repr_char (render (ds, decpt)) = true.
Proof.
  intros Hds. unfold render.
  destruct ((decpt <=? -4) || (16 <? decpt)).
  - destruct ds as [|d [|d' rest]]; [reflexivity| |];
      inversion Hds as [|? ? Hd Hrest]; subst.
    + cbn [forallb]. rewrite (proj1 (dchar_facts d Hd)), exponent_chars. reflexivity.
    + cbn [forallb]. rewrite (proj1 (dchar_facts d Hd)). cbn [andb].
      change (repr_char "."%char) with true. cbn [andb].
      rewrite forallb_app, (dtext_chars _ Hrest). cbn [forallb andb].
      change (repr_char "e"%char) with true. cbn [andb]. apply exponent_chars.
  - destruct (decpt <=? 0).
    + cbn [forallb]. change (repr_char "0"%char) with true.
      change (repr_char "."%char) with true. cbn [andb].
      now rewrite forallb_app, zeros_chars, dtext_chars.
    + destruct (Z.of_nat (length ds) <=? decpt).
      * rewrite !forallb_app, zeros_chars, dtext_chars by assumption. reflexivity.
      * destruct (Forall_take_drop is_digit (Z.to_nat decpt) ds Hds) as [Ht Hd].
        rewrite forallb_app. cbn [forallb]. change (repr_char "."%char) with true.
        now rewrite !dtext_chars.
Qed.

Lemma layout_head ds decpt :
  ds <> [] -> Forall is_digit ds ->
  exists d r, is_digit d /\ render (ds, decpt) = dchar d :: r.
Proof.
  intros Hne Hds. unfold render.
  destruct ((decpt <=? -4) || (16 <? decpt)).
  - destruct ds as [|d [|d' rest]]; [congruence| |];
      inversion Hds as [|? ? Hd Hrest]; subst; eauto.
  - destruct (Z.leb_spec decpt 0) as [H0|H0].
    + exists 0. eexists. split; [unfold is_digit; lia|reflexivity].
    + destruct (Z.of_nat (length ds) <=? decpt).
      * destruct ds as [|d rest]; [congruence|].
        inversion Hds; subst. exists d. eexists. split; [assumption|reflexivity].
      * destruct ds as [|d rest]; [congruence|].
        inversion Hds; subst. exists d.
        destruct (Z.to_nat decpt) as [|n] eqn:Hn; [lia|].
        eexists. split; [assumption|reflexivity].
Qed.

Lemma drop_underscores_none t :
  forallb (fun c => negb (Ascii.eqb c "_")) t = true ->
  forall b, drop_underscores b t = Some t.
Proof.
  induction t as [|c t IH]; intros Hc b; [reflexivity|].
  cbn [forallb] in Hc. apply andb_prop in Hc as [Hc Ht].
  apply negb_true_iff in Hc. cbn [drop_underscores]. rewrite Hc.
  now rewrite (IH Ht).
Qed.

Lemma lstrip_none t :
  forallb (fun c => negb (Text.isspace c)) t = true -> FloatText.lstrip_ws t = t.
Proof.
  destruct t as [|c t]; [reflexivity|]. cbn [forallb].
  intros [Hc _]%andb_prop. apply negb_true_iff in Hc. cbn. now rewrite Hc.
Qed.

Lemma strip_none t :
  forallb (fun c => negb (Text.isspace c)) t = true -> FloatText.strip_ws t = t.
Proof.
  intros Ht. unfold FloatText.strip_ws. rewrite (lstrip_none t Ht).
  rewrite lstrip_none; [apply rev_involutive|].
  apply forallb_forall. intros c Hin. apply in_rev in Hin.
  revert c Hin. now apply forallb_forall.
Qed.

Lemma forallb_impl {A} (f g : A -> bool) l :
  (forall x, f x = true -> g x = true) -> forallb f l = true -> forallb g l = true.
Proof.
  intros Hfg. rewrite !forallb_forall. auto.
Qed.

Lemma parse_unsigned_layout neg ds decpt :
  ds <> [] -> Forall is_digit ds ->
  parse_unsigned neg (render (ds, decpt))
  = Some (to_float neg ds (decpt - Z.of_nat (length ds))).
Proof.
  intros Hne Hds.
  destruct (parse_layout neg ds decpt Hne Hds) as (L & k & Hp & Hf).
  destruct (layout_head ds decpt Hne Hds) as (d & r & Hd & Hl).
  unfold parse_unsigned. rewrite Hp, Hf, Hl.
  destruct (dchar_facts d Hd) as (_ & _ & _ & Hi & Hn).
  cbn [map text_eqb]. rewrite Hi, Hn. reflexivity.
Qed.

(** The candidates around a positive quotient are digits of non-negative
    integers. *)
Lemma around_digits num den dp n cand :
  0 < num -> 0 < den -> In cand (around num den dp n) ->
  exists c, 0 <= c /\ cand = normalize c (dp - n).
Proof.
  intros Hnum Hden. unfold around.
  destruct (if dp <=? n then (num * 10 ^ (n - dp), den) else (num, den * 10 ^ (dp - n)))
    as [sn sd] eqn:Hs.
  assert (Hsn : 0 <= sn /\ 0 < sd).
  { destruct (Z.leb_spec dp n) as [H|H]; inversion Hs; subst.
    - pose proof (Z.pow_pos_nonneg 10 (n - dp) ltac:(lia) ltac:(lia)). lia.
    - pose proof (Z.pow_pos_nonneg 10 (dp - n) ltac:(lia) ltac:(lia)). lia. }
  assert (Hlo : 0 <= sn / sd) by (apply Z.div_pos; lia).
  intros Hin.
  assert (Hcases : cand = normalize (sn / sd) (dp - n)
                   \/ cand = normalize (sn / sd + 1) (dp - n)).
  { destruct (sn mod sd =? 0); [|destruct (2 * (sn mod sd) ?= sd);
                                  [destruct (Z.even (sn / sd))| |]];
      cbn in Hin; intuition auto. }
  destruct Hcases as [->| ->];
    [exists (sn / sd)|exists (sn / sd + 1)]; split; try reflexivity; lia.
Qed.

Lemma normalize_digits c k : 0 <= c -> Forall is_digit (fst (normalize c k)).
Proof.
  intros Hc. unfold normalize. cbn [fst].
  destruct (to_digits_spec c Hc) as [_ Hd].
  destruct (strip_trailing_split (to_digits c)) as [j Hj].
  rewrite Hj in Hd. now apply Forall_app in Hd.
Qed.

Lemma to_float_nil neg k : to_float neg [] k = S754_zero neg.
Proof. reflexivity. Qed.

(** The candidate [repr] prints: valid digits, and it reads back. *)
Lemma shortest_spec neg m e :
  bounded 53 1024 m e = true ->
  let cand := shortest neg m e in
  fst cand <> [] /\ Forall is_digit (fst cand)
  /\ to_float neg (fst cand) (snd cand - Z.of_nat (length (fst cand)))
     = S754_finite neg m e.
Proof.
  intros Hb cand. unfold cand, shortest.
  set (nd := if 0 <=? e then (Z.pos m * 2 ^ e, 1) else (Z.pos m, 2 ^ (- e))).
  assert (Hnd : 0 < fst nd /\ 0 < snd nd).
  { unfold nd. destruct (Z.leb_spec 0 e) as [He|He]; cbn [fst snd].
    - pose proof (pow2_pos e He). lia.
    - pose proof (pow2_pos (- e) ltac:(lia)). lia. }
  destruct nd as [num den]. cbn [fst snd] in Hnd.
  destruct (List.find _ _) as [c|] eqn:Hfind.
  - apply find_some in Hfind as [Hin Hacc].
    unfold accepts in Hacc. apply bool_decide_eq_true in Hacc.
    apply in_flat_map in Hin as (n & _ & Hin).
    destruct (around_digits _ _ _ _ _ (proj1 Hnd) (proj2 Hnd) Hin) as (c0 & Hc0 & ->).
    split; [|split; [now apply normalize_digits|exact Hacc]].
    intros Hnil. rewrite Hnil in Hacc. cbn [length] in Hacc.
    rewrite to_float_nil in Hacc. discriminate.
  - assert (Hc : exists c k, 0 < c /\ exact m e = normalize c k).
    { unfold exact. destruct (Z.leb_spec 0 e) as [He|He]; eexists; eexists;
        (split; [|reflexivity]).
      - pose proof (pow2_pos e He). lia.
      - pose proof (Z.pow_pos_nonneg 5 (- e) ltac:(lia) ltac:(lia)). lia. }
    destruct Hc as (c & k & Hc & Hex).
    split; [|split; [|now apply exact_reads_back]].
    + rewrite Hex. now destruct (normalize_spec c k Hc) as (_ & _ & _ & _ & H & _).
    + rewrite Hex. apply normalize_digits. lia.
Qed.

(** [float(repr(x)) == x], for every float in canonical form. *)
Theorem py_float_repr x :
  valid_binary 53 1024 x = true -> py_float (repr x) = Some x.
Proof.
  intros Hv. destruct x as [s|s| |s m e].
  - destruct s; reflexivity.
  - destruct s; reflexivity.
  - reflexivity.
  - cbn [valid_binary] in Hv.
    destruct (shortest_spec s m e Hv) as (Hne & Hds & Hback).
    destruct (shortest s m e) as [ds decpt] eqn:Hsh. cbn [fst snd] in *.
    assert (Hchars : forallb repr_char (repr (S754_finite s m e)) = true).
    { cbn [repr]. rewrite Hsh, forallb_app, layout_chars by assumption.
      destruct s; reflexivity. }
    unfold py_float.
    rewrite drop_underscores_none
      by (revert Hchars; apply forallb_impl; intros c Hc;
          destruct (repr_char_facts c Hc) as (_ & _ & ->); reflexivity).
    rewrite strip_none
      by (revert Hchars; apply forallb_impl; intros c Hc;
          destruct (repr_char_facts c Hc) as (_ & -> & _); reflexivity).
    cbn [repr]. rewrite Hsh.
    destruct s; cbn [app].
    + cbn [Ascii.eqb Bool.eqb andb].
      now rewrite parse_unsigned_layout, Hback.
    + destruct (layout_head ds decpt Hne Hds) as (d & r & Hd & Hl).
      destruct (dchar_facts d Hd) as (_ & Hm & Hp & _).
      rewrite Hl, Hm, Hp, <- Hl.
      now rewrite parse_unsigned_layout, Hback.
Qed.

End RoundTrip.

(** ** The floats that are written are canonical *)

Section Valid.

Abbreviation fexp := (SpecFloat.fexp 53 1024).

Lemma Zdigits2_gt_pow m k : 0 <= k -> 2 ^ k <= m -> k < Zdigits2 m.
Proof.
  intros Hk Hm. pose proof (pow2_pos k Hk).
  destruct (Zdigits2_bounds m ltac:(lia)) as [_ Hhi].
  destruct (Z.lt_ge_cases k (Zdigits2 m)) as [|Hge]; [assumption|].
  pose proof (Zdigits2_nonneg m).
  assert (2 ^ Zdigits2 m <= 2 ^ k) by (apply Z.pow_le_mono_r; lia). lia.
Qed.

Lemma Zdigits2_div_pow2 m k :
  0 <= k -> 2 ^ k <= m -> Zdigits2 (m / 2 ^ k) = Zdigits2 m - k.
Proof.
  intros Hk Hm. pose proof (pow2_pos k Hk) as Hpk.
  pose proof (Zdigits2_gt_pow m k Hk Hm) as Hd.
  destruct (Zdigits2_bounds m ltac:(lia)) as [Hlo Hhi].
  apply Zdigits2_unique; [|lia]. split.
  - apply Z.div_le_lower_bound; [lia|].
    rewrite <- pow2_split by lia.
    replace (k + (Zdigits2 m - k - 1)) with (Zdigits2 m - 1) by lia. exact Hlo.
  - apply Z.div_lt_upper_bound; [lia|].
    rewrite <- pow2_split by lia.
    replace (k + (Zdigits2 m - k)) with (Zdigits2 m) by lia. exact Hhi.
Qed.





End Valid.

(** ** Reading a written row back *)

Section CsvRows.

Import Csv.






End CsvRows.

(** ** The value written is a number *)

Section NotNan.




End NotNan.

(** ** The rows of a run, read back *)

Section RowsReadBack.

Lemma repr_chars x :
  valid_binary 53 1024 x = true -> forallb repr_char (FloatText.repr x) = true.
Proof.
  intros Hv. destruct x as [s|s| |s m e].
  - destruct s; reflexivity.
  - destruct s; reflexivity.
  - reflexivity.
  - cbn [valid_binary] in Hv.
    destruct (shortest_spec s m e Hv) as (_ & Hds & _).
    cbn [FloatText.repr]. rewrite forallb_app.
    destruct (FloatText.shortest s m e) as [ds decpt]. cbn [fst] in Hds.
    rewrite (layout_chars ds decpt Hds). destruct s; reflexivity.
Qed.




End RowsReadBack.

(** * Further properties *)

(** ** What a run leaves alone *)

Section Frame.

Variables (E : env) (interval : Float.float).













End Frame.

Section FrameTheorems.

Variables (E : env) (interval : Float.float).



End FrameTheorems.

(** ** How a run ends *)

Section Endings.

Variables (E : env) (interval : Float.float).

Lemma cycle_ok_percent s w :
  fst (cycle E interval s w) = Ok tt ->
  exists x, fst (_cpu_percent E interval w) = Ok x.
Proof.
  destruct (fst (_cpu_percent E interval w)) as [e|x] eqn:Hp; [|eauto].
  destruct (cycle_raises E interval s w e Hp) as (Hc & _). rewrite Hc. discriminate.
Qed.

Lemma cycle_ok_reads s w :
  fst (cycle E interval s w) = Ok tt ->
  stat_reads (snd (cycle E interval s w)) = S (S (stat_reads w)).
Proof.
  intros Hc. destruct (cycle_ok_percent s w Hc) as [x Hx].
  destruct (cycle_returns E interval s w x Hx) as (_ & _ & Hr & _).
  destruct (cpu_percent_value E interval w x Hx) as (_ & Hr2). congruence.
Qed.

(** The loop returns only at the budget: from [count], it stops at
    [max count iterations], and each of its cycles read the counter
    source twice. *)
Lemma sample_loop_returned iterations s fuel :
  forall count w count' w',
    sample_loop fuel E interval iterations s count w = (Returned, count', w') ->
    iterations <> 0
    /\ count' = Z.max count iterations
    /\ stat_reads w' = (stat_reads w + 2 * Z.to_nat (count' - count))%nat.
Proof.
  assert (Hstop : forall count, loop_cond iterations count = false ->
                    iterations <> 0 /\ iterations <= count).
  { intros count H. unfold loop_cond in H. apply orb_false_iff in H as [H0 Hlt].
    apply Z.eqb_neq in H0. apply Z.ltb_ge in Hlt. auto. }
  induction fuel as [|fuel IH]; intros count w count' w'; cbn [sample_loop];
    destruct (loop_cond iterations count) eqn:Hcond.
  - discriminate.
  - intros H; inversion H; subst. destruct (Hstop _ Hcond).
    rewrite Z.sub_diag. cbn. split; [assumption|]. split; lia.
  - destruct (cycle E interval s w) as [[e|[]] w1] eqn:Hcy; [discriminate|].
    intros H. destruct (IH _ _ _ _ H) as (Hne & Hmax & Hreads).
    pose proof (cycle_ok_reads s w) as Hr. rewrite Hcy in Hr. cbn [fst snd] in Hr.
    specialize (Hr eq_refl).
    assert (Hlt : count < iterations).
    { unfold loop_cond in Hcond. apply orb_prop in Hcond as [H0|Hlt].
      - apply Z.eqb_eq in H0. congruence.
      - now apply Z.ltb_lt in Hlt. }
    split; [exact Hne|]. split; [lia|].
    rewrite Hreads, Hr, Hmax.
    replace (Z.max (count + 1) iterations - count) with (1 + (iterations - (count + 1))) by lia.
    replace (Z.max (count + 1) iterations - (count + 1)) with (iterations - (count + 1)) by lia.
    rewrite Z2Nat.inj_add by lia. cbn. lia.
  - intros H; inversion H; subst. destruct (Hstop _ Hcond).
    rewrite Z.sub_diag. cbn. split; [assumption|]. split; lia.
Qed.

End Endings.

Section EndingTheorems.

Variables (E : env) (interval : Float.float).

(** X7.  When [record_cpu] returns, the target was opened, the budget was
    not [0] and is spent exactly: the sink received the header (if due)
    and one data row for each of the [max iterations 0] cycles, the
    counter source was read twice and the clock once per cycle; the loop
    never returns early. *)
Theorem returns_only_when_budget_is_spent
    (fuel : nat) (iterations : Z) (output_file : string) (w w' : world) :
  record_cpu fuel E interval iterations output_file w = (Returned, w') ->
  let n := Z.to_nat iterations in
  let data := data_rows E (stat_reads w) (clock_reads w) n in
  exists s,
    sink_of E output_file = Ok s
    /\ iterations <> 0
    /\ sink_rows s w'
       = sink_rows s w ++ (if header_due s w then [header] else []) ++ data
    /\ length data = n
    /\ stat_reads w' = (stat_reads w + 2 * n)%nat
    /\ clock_reads w' = (clock_reads w + n)%nat
    /\ (n <= fuel)%nat.
Proof.
  intros Hrun n data.
  destruct (sink_of E output_file) as [e|s] eqn:Hs.
  { rewrite (record_cpu_raises E interval fuel iterations output_file w e Hs) in Hrun.
    discriminate. }
  exists s. split; [reflexivity|].
  rewrite (record_cpu_unfold E interval fuel iterations output_file s w Hs) in Hrun.
  destruct (at_loop_entry_spec s w) as (Hrows0 & Hr0 & Hc0).
  destruct (sample_loop fuel E interval iterations s 0
              (at_loop_entry s w)) as [[o c] w3] eqn:Hloop.
  cbn [fst snd] in Hrun. inversion Hrun; subst o w3.
  destruct (sample_loop_returned E interval iterations _ fuel _ _ _ _ Hloop) as (Hne & Hmax & Hreads).
  destruct (sample_loop_log E interval iterations _ fuel 0 _ _ _ _ Hloop)
    as (m & Hcount & Hfuel & Hlog & Hlen & Hclock & _).
  assert (Hm : m = n) by (unfold n; lia). subst m.
  rewrite Hr0, Hc0 in *.
  split; [exact Hne|]. split; [|split; [exact Hlen|]].
  - fold data in Hlog. rewrite Hlog, Hrows0, <- app_assoc. reflexivity.
  - split; [|split; [exact Hclock|exact Hfuel]].
    rewrite Hreads, Hmax. unfold n. lia.
Qed.



End EndingTheorems.



Lemma returns_only_when_budget_is_spent_witness :
  stdout (snd (record_cpu 5 Demo.steady Demo.one 3 "-" Demo.fresh))
  = [] ++ [header] ++ data_rows Demo.steady 0 0 3
  /\ stat_reads (snd (record_cpu 5 Demo.steady Demo.one 3 "-" Demo.fresh)) = 6%nat
  /\ clock_reads (snd (record_cpu 5 Demo.steady Demo.one 3 "-" Demo.fresh)) = 3%nat.
Proof.
  destruct (returns_only_when_budget_is_spent Demo.steady Demo.one 5 3 "-" Demo.fresh
              (snd (record_cpu 5 Demo.steady Demo.one 3 "-" Demo.fresh)))
    as (s & Hs & _ & Hrows & _ & Hreads & Hclock & _).
  - vm_compute. reflexivity.
  - injection Hs as <-. split; [exact Hrows|]. split; [exact Hreads|exact Hclock].
Defined.



(** ** Reading back what the kernel prints *)

Section Printed.

Import Text Numeral.

Lemma digits_tail_ok ds :
  Forall is_digit ds -> tail_ok (string_of_list_ascii (Dec.dtext ds)) = true.
Proof.
  induction ds as [|d ds IH]; intros Hds; [reflexivity|].
  inversion Hds as [|? ? Hd Hrest]; subst.
  cbn [Dec.dtext map string_of_list_ascii tail_ok].
  assert (Hdv := digit_value_dchar d Hd).
  destruct (Ascii.eqb_spec (Dec.dchar d) "_") as [Hus|_].
  - rewrite Hus, underscore_not_digit in Hdv. discriminate.
  - rewrite digit_groups_cons. unfold isdigit. rewrite Hdv. cbn [andb].
    now apply IH.
Qed.

Lemma digits_groups ds :
  ds <> [] -> Forall is_digit ds ->
  digit_groups (string_of_list_ascii (Dec.dtext ds)) = true.
Proof.
  intros Hne Hds. destruct ds as [|d ds]; [congruence|].
  inversion Hds as [|? ? Hd Hrest]; subst.
  cbn [Dec.dtext map string_of_list_ascii]. rewrite digit_groups_cons.
  unfold isdigit. rewrite (digit_value_dchar d Hd). cbn [andb].
  now apply digits_tail_ok.
Qed.

Lemma digits_value_dtext ds :
  Forall is_digit ds ->
  forall acc,
    digits_value acc (string_of_list_ascii (Dec.dtext ds))
    = fold_left (fun a d => 10 * a + d) ds acc.
Proof.
  induction 1 as [|d ds Hd Hds IH]; intros acc; [reflexivity|].
  cbn [Dec.dtext map string_of_list_ascii digits_value fold_left].
  rewrite (digit_value_dchar d Hd). apply IH.
Qed.

Lemma decimal_numeral z : numeric (decimal z) = true /\ dec_value (decimal z) = z.
Proof.
  unfold decimal.
  destruct (to_digits_spec (Z.abs z) ltac:(lia)) as [Hval Hds].
  pose proof (to_digits_nonempty (Z.abs z)) as Hne.
  pose proof (digits_groups _ Hne Hds) as Hgroups.
  pose proof (digits_value_dtext _ Hds 0) as Hdv. fold (Dec.value (Dec.to_digits (Z.abs z))) in Hdv.
  rewrite Hval in Hdv.
  destruct (Z.ltb_spec z 0) as [Hneg|Hpos].
  - cbn [app string_of_list_ascii]. unfold numeric, dec_value.
    change (Ascii.eqb "-" "-") with true. cbn [orb].
    split; [exact Hgroups|]. cbn [digits_value].
    change (digit_value "-") with (@None Z). cbv iota.
    rewrite Hdv. lia.
  - cbn [app]. destruct (Dec.to_digits (Z.abs z)) as [|d ds]; [congruence|].
    inversion Hds as [|? ? Hd Hrest]; subst.
    destruct (dchar_facts d Hd) as (_ & Hm & Hp & _).
    cbn [Dec.dtext map string_of_list_ascii] in *.
    unfold numeric, dec_value. rewrite Hm, Hp. cbn [orb].
    split; [exact Hgroups|]. rewrite Hdv. lia.
Qed.

Lemma digits_lsf_length fuel :
  forall n (k : nat),
    0 <= n < 10 ^ Z.of_nat k -> (1 <= k)%nat -> (length (Dec.digits_lsf fuel n) <= k)%nat.
Proof.
  induction fuel as [|fuel IH]; intros n k Hn Hk; cbn [Dec.digits_lsf length]; [lia|].
  destruct (Z.ltb_spec n 10) as [Hlt|Hge]; cbn [length]; [lia|].
  destruct k as [|[|k]]; [lia|cbn in Hn; lia|].
  apply le_n_S, IH; [|lia].
  rewrite Nat2Z.inj_succ, Z.pow_succ_r in Hn by lia.
  split; [apply Z.div_pos; lia|]. apply Z.div_lt_upper_bound; lia.
Qed.

Lemma filter_digits_dtext ds :
  Forall is_digit ds -> List.filter Text.isdigit (Dec.dtext ds) = Dec.dtext ds.
Proof.
  induction 1 as [|d ds Hd Hds IH]; [reflexivity|].
  cbn [Dec.dtext map List.filter]. unfold Text.isdigit at 1.
  rewrite (digit_value_dchar d Hd). f_equal. exact IH.
Qed.

(** A decimal below [10 ^ 4300] has at most [4300] digits. *)
Lemma decimal_digits z :
  Z.abs z < 10 ^ 4300 ->
  (length (List.filter Text.isdigit (list_ascii_of_string (decimal z))) <= 4300)%nat.
Proof.
  intros Hz. unfold decimal. rewrite list_ascii_of_string_of_list_ascii.
  destruct (to_digits_spec (Z.abs z) ltac:(lia)) as [_ Hds].
  assert (Hlen : (length (Dec.to_digits (Z.abs z)) <= 4300)%nat).
  { unfold Dec.to_digits. rewrite length_rev.
    apply digits_lsf_length; [|lia]. split; [lia|].
    change (Z.of_nat 4300) with 4300. exact Hz. }
  assert (Hsign : List.filter Text.isdigit
                    ((if z <? 0 then ["-"%char] else []) ++ Dec.dtext (Dec.to_digits (Z.abs z)))
                  = Dec.dtext (Dec.to_digits (Z.abs z))).
  { rewrite List.filter_app, (filter_digits_dtext _ Hds). destruct (z <? 0); reflexivity. }
  rewrite Hsign. unfold Dec.dtext. now rewrite length_map.
Qed.

Lemma decimal_convertible z :
  Z.abs z < 10 ^ 4300 -> convertible (decimal z) = true /\ dec_value (decimal z) = z.
Proof.
  intros Hz. destruct (decimal_numeral z) as [Hnum Hval]. split; [|exact Hval].
  unfold convertible, within_limit. rewrite Hnum. cbn [andb].
  apply Nat.leb_le. now apply decimal_digits.
Qed.

Lemma decimal_token z : is_token (decimal z) = true.
Proof.
  unfold decimal, is_token.
  destruct (to_digits_spec (Z.abs z) ltac:(lia)) as [_ Hds].
  pose proof (to_digits_nonempty (Z.abs z)) as Hne.
  assert (Hchars : forallb (fun c => negb (isspace c))
                     ((if z <? 0 then ["-"%char] else []) ++ Dec.dtext (Dec.to_digits (Z.abs z)))
                   = true).
  { rewrite forallb_app. apply andb_true_intro. split.
    - destruct (z <? 0); reflexivity.
    - apply (forallb_impl repr_char); [|now apply dtext_chars].
      intros c Hc. destruct (repr_char_facts c Hc) as (_ & -> & _). reflexivity. }
  rewrite list_ascii_of_string_of_list_ascii.
  destruct (z <? 0); cbn [app string_of_list_ascii] in *; [exact Hchars|].
  destruct (Dec.to_digits (Z.abs z)); [congruence|exact Hchars].
Qed.

Lemma counters_well_separated counters :
  separated counters = true ->
  well_separated false (map (fun c => (fst c, decimal (snd c))) counters) = true.
Proof.
  induction counters as [|[sep z] rest IH]; intros H; [reflexivity|].
  cbn [separated forallb fst snd] in H. apply andb_prop in H as [Hsep Hrest].
  cbn [map well_separated fst snd]. rewrite decimal_token, (IH Hrest).
  apply andb_prop in Hsep as [-> ->]. reflexivity.
Qed.

Lemma counter_line_tokens ws label counters trail :
  is_blank ws = true -> is_token label = true ->
  separated counters = true -> is_blank trail = true ->
  counter_tokens (counter_line ws label counters trail) = map (fun c => decimal (snd c)) counters.
Proof.
  intros Hws Hlabel Hsep Htrail. unfold counter_tokens, counter_line.
  rewrite split_strip. unfold split.
  rewrite (split_layout _ true trail).
  - cbn [map snd List.tl]. rewrite map_map. reflexivity.
  - cbn [well_separated]. rewrite Hws, Hlabel, (counters_well_separated _ Hsep). reflexivity.
  - exact Htrail.
Qed.

Lemma parse_counter_line ws label counters trail :
  is_blank ws = true -> is_token label = true ->
  separated counters = true -> is_blank trail = true ->
  Forall (fun c => Z.abs (snd c) < 10 ^ 4300) counters ->
  parse_cpu_line (counter_line ws label counters trail) = Ok (map snd counters).
Proof.
  intros Hws Hlabel Hsep Htrail Hsmall. unfold parse_cpu_line.
  rewrite (counter_line_tokens _ _ _ _ Hws Hlabel Hsep Htrail), ints_of_tokens_spec.
  rewrite List.Forall_forall in Hsmall.
  assert (Hnum : forallb convertible (map (fun c => decimal (snd c)) counters) = true).
  { rewrite forallb_forall. intros t Ht. apply in_map_iff in Ht as (c & <- & Hc).
    now apply decimal_convertible, Hsmall. }
  rewrite Hnum, map_map. f_equal. apply map_ext. intros c. apply decimal_numeral.
Qed.

End Printed.

(** X1.  Round trip of the reader: a first line made of a label and counters
    printed in decimal (a minus sign before a negative one), each after
    a non-empty run of whitespace, is read as exactly these counters,
    whatever the label is and whatever whitespace surrounds the line.
    The counters are taken below [10^4300]: the limit of the interpreter
    on the digits of a numeral. *)
Theorem printed_counters_read_back
    (E : env) (w : world) (ws label : string) (counters : list (string * Z))
    (trail : string) :
  proc_stat E (stat_reads w) = Ok (counter_line ws label counters trail) ->
  Numeral.is_blank ws = true ->
  Numeral.is_token label = true ->
  separated counters = true ->
  Forall (fun c => Z.abs (snd c) < 10 ^ 4300) counters ->
  Numeral.is_blank trail = true ->
  fst (_read_cpu_times E w) = Ok (map snd counters).
Proof.
  intros Hline Hws Hlabel Hsep Hsmall Htrail.
  unfold _read_cpu_times. cbn [fst]. rewrite Hline. cbn [rbind].
  now apply parse_counter_line.
Qed.

Lemma printed_counters_read_back_witness :
  fst (_read_cpu_times Demo.steady Demo.fresh) = Ok [100; 0; 0; 800; 50; 0; 0; 0].
Proof.
  apply (printed_counters_read_back Demo.steady Demo.fresh "" "cpu"
           [("  ", 100); (" ", 0); (" ", 0); (" ", 800); (" ", 50);
            (" ", 0); (" ", 0); (" ", 0)]%string
           (String (ascii_of_nat 10) EmptyString)); try reflexivity.
  repeat constructor.
Defined.

(** X2.  An empty first line, or one that holds the label only, is no error
    for the reader, which returns the empty list; the measurement then
    fails with [IndexError], but only after the wait and the second
    read. *)
Theorem empty_first_line_fails_late
    (E : env) (interval : Float.float) (w : world)
    (items : list (string * string)) (trail : string) (curr : list Z) :
  proc_stat E (stat_reads w) = Ok (Numeral.layout items trail) ->
  (length items <= 1)%nat ->
  Numeral.well_separated true items = true ->
  Numeral.is_blank trail = true ->
  is_ok (time_sleep E interval) = true ->
  snapshot_at E (S (stat_reads w)) = Ok curr ->
  fst (_read_cpu_times E w) = Ok []
  /\ _cpu_percent E interval w
     = (Raise IndexError, set_reads (S (S (stat_reads w))) w).
Proof.
  intros Hline Hlen Hsep Htrail Hsleep Hcurr.
  assert (Hparse : parse_cpu_line (Numeral.layout items trail) = Ok []).
  { unfold parse_cpu_line, counter_tokens. rewrite split_strip. unfold Text.split.
    rewrite (split_layout items true trail Hsep Htrail).
    destruct items as [|[ws tok] [|? ?]]; cbn in Hlen; try lia; reflexivity. }
  split.
  - unfold _read_cpu_times. cbn [fst]. now rewrite Hline.
  - rewrite cpu_percent_unfold. unfold snapshot_at at 1. rewrite Hline. cbn [rbind].
    rewrite Hparse. destruct (time_sleep E interval) as [?|[]]; [discriminate|].
    rewrite Hcurr. reflexivity.
Qed.

Lemma empty_first_line_fails_late_witness :
  fst (_read_cpu_times Edge.empty_first Demo.fresh) = Ok []
  /\ _cpu_percent Edge.empty_first Demo.one Demo.fresh
     = (Raise IndexError, set_reads 2 Demo.fresh).
Proof.
  apply (empty_first_line_fails_late Edge.empty_first Demo.one Demo.fresh [] EmptyString
           [110; 0; 0; 850; 50; 0; 0; 0]); try reflexivity.
  cbn. lia.
Defined.

(** ** What the computation can raise *)

Section Magnitude.

Abbreviation fexp := (SpecFloat.fexp 53 1024).
Abbreviation bra := (binary_round_aux 53 1024).

(** Rounding a positive number of binary magnitude [d] (it lies in
    [2^(d-1), 2^d)) that is not below the smallest float: the result is
    a non-zero float of the same sign, or infinity when [d] is beyond
    the largest exponent. *)
Lemma binary_round_aux_magnitude s mx ex lx :
  0 < mx -> ex <= fexp (Zdigits2 mx + ex) -> -1073 <= Zdigits2 mx + ex ->
  (exists m e, bra s mx ex lx = S754_finite s m e /\ Zdigits2 mx + ex <= 1024)
  \/ (bra s mx ex lx = S754_infinity s /\ 1024 <= Zdigits2 mx + ex).
Proof.
  intros Hmx Hpre Hd.
  destruct (shr_fexp_spec mx ex lx ltac:(lia)) as (He1 & Hm1 & _).
  unfold binary_round_aux.
  destruct (shr_fexp 53 1024 mx ex lx) as [mrs1 e1].
  cbn [fst snd] in He1, Hm1. rewrite Z.max_r in He1, Hm1 by exact Hpre.
  assert (Hfe1 : e1 = Z.max (Zdigits2 mx + ex - 53) (-1074)) by (rewrite He1; apply fexp_eq).
  rewrite <- He1 in Hm1.
  assert (Hk : 0 <= e1 - ex) by lia.
  pose proof (pow2_pos (e1 - ex) Hk) as Hpk.
  destruct (Zdigits2_bounds mx Hmx) as [Hlo Hhi].
  pose proof (Zdigits2_pos mx Hmx) as Hdpos.
  assert (Hge : 2 ^ (e1 - ex) <= mx).
  { assert (2 ^ (e1 - ex) <= 2 ^ (Zdigits2 mx - 1)) by (apply Z.pow_le_mono_r; lia). lia. }
  assert (Hm1pos : 0 < shr_m mrs1) by (rewrite Hm1; apply Z.div_str_pos; lia).
  assert (Hd1 : Zdigits2 (shr_m mrs1) + e1 = Zdigits2 mx + ex).
  { rewrite Hm1, Zdigits2_div_pow2 by lia. lia. }
  set (m2 := round_nearest_even (shr_m mrs1) (loc_of_shr_record mrs1)).
  destruct (round_nearest_even_bounds (shr_m mrs1) (loc_of_shr_record mrs1)) as [Hb _].
  fold m2 in Hb.
  assert (Hm2 : 0 < m2) by lia.
  destruct (Zdigits2_bounds (shr_m mrs1) Hm1pos) as [_ Hhi1].
  pose proof (Zdigits2_nonneg (shr_m mrs1)) as Hnn1.
  assert (Hdig2 : Zdigits2 (shr_m mrs1) <= Zdigits2 m2 <= Zdigits2 (shr_m mrs1) + 1).
  { split; [apply Zdigits2_mono; lia|]. apply Zdigits2_le_pow; [|lia].
    rewrite Z.pow_add_r, Z.pow_1_r by lia. lia. }
  assert (Hpre2 : e1 <= fexp (Zdigits2 m2 + e1)) by (rewrite fexp_eq; lia).
  destruct (shr_fexp_spec m2 e1 loc_Exact ltac:(lia)) as (He2 & Hm3 & _).
  destruct (shr_fexp 53 1024 m2 e1 loc_Exact) as [mrs2 e2].
  cbn [fst snd] in He2, Hm3. rewrite Z.max_r in He2, Hm3 by exact Hpre2.
  assert (Hfe2 : e2 = Z.max (Zdigits2 m2 + e1 - 53) (-1074)) by (rewrite He2; apply fexp_eq).
  rewrite <- He2 in Hm3.
  assert (Hk2 : 0 <= e2 - e1 <= 1) by lia.
  assert (Hm3pos : 0 < shr_m mrs2).
  { rewrite Hm3. apply Z.div_str_pos. split; [apply pow2_pos; lia|].
    destruct (Z.eq_dec (e2 - e1) 0) as [->|Hne]; [cbn; lia|].
    replace (e2 - e1) with 1 by lia. cbn.
    assert (Zdigits2 m2 <> 1).
    { intros H1. assert (Zdigits2 (shr_m mrs1) = 1) by lia. lia. }
    destruct (Zdigits2_bounds m2 Hm2) as [Hlo2 _].
    pose proof (Zdigits2_pos m2 Hm2).
    assert (2 ^ 1 <= 2 ^ (Zdigits2 m2 - 1)) by (apply Z.pow_le_mono_r; lia).
    cbn in *. lia. }
  destruct (shr_m mrs2) as [|m|m]; try lia.
  destruct (Z.leb_spec e2 (1024 - 53)) as [Hle|Hgt].
  - left. exists m, e2. split; [reflexivity|]. lia.
  - right. split; [reflexivity|]. lia.
Qed.

Lemma shl_align_spec p ex e' :
  let '(mz, ez) := shl_align p ex e' in
  ez = Z.min ex e' /\ Z.pos mz = Z.pos p * 2 ^ (ex - ez).
Proof.
  unfold shl_align. destruct (e' - ex) as [|d|d] eqn:Hd.
  - split; [lia|]. rewrite Z.sub_diag. cbn. lia.
  - split; [lia|]. rewrite Z.sub_diag. cbn. lia.
  - split; [lia|]. rewrite pos_iter_xO. f_equal. f_equal. lia.
Qed.

(** [float(z)] for an int [z] other than [0]: a non-zero float of the
    sign of [z] when [abs z < 2^1023], [OverflowError] when
    [2^1024 <= abs z], and never a zero. *)
Lemma of_int_magnitude z :
  z <> 0 ->
  ((exists m e, Float.of_int z = Ok (S754_finite (z <? 0) m e))
   \/ Float.of_int z = Raise OverflowError)
  /\ (Z.abs z < 2 ^ 1023 -> exists m e, Float.of_int z = Ok (S754_finite (z <? 0) m e))
  /\ (2 ^ 1024 <= Z.abs z -> Float.of_int z = Raise OverflowError).
Proof.
  intros Hz.
  assert (Hgen : forall s p,
            let r := binary_round 53 1024 s p 0 in
            ((exists m e, r = S754_finite s m e /\ Zdigits2 (Z.pos p) <= 1024)
             \/ (r = S754_infinity s /\ 1024 <= Zdigits2 (Z.pos p)))).
  { intros s p. cbv zeta. unfold binary_round.
    change (Z.pos (digits2_pos p)) with (Zdigits2 (Z.pos p)).
    pose proof (shl_align_spec p 0 (fexp (Zdigits2 (Z.pos p) + 0))) as Hal.
    destruct (shl_align p 0 (fexp (Zdigits2 (Z.pos p) + 0))) as [mz ez].
    destruct Hal as [Hez Hmz].
    pose proof (Zdigits2_pos (Z.pos p) ltac:(lia)) as Hdp.
    assert (Hdz : Zdigits2 (Z.pos mz) + ez = Zdigits2 (Z.pos p)).
    { rewrite Hmz, Zdigits2_shift by lia. lia. }
    rewrite Z.add_0_r in Hez.
    destruct (binary_round_aux_magnitude s (Z.pos mz) ez loc_Exact) as [(m & e & Hr & Hd)|[Hr Hd]];
      try lia.
    - rewrite Hdz. lia.
    - left. exists m, e. split; [exact Hr|lia].
    - right. split; [exact Hr|lia]. }
  assert (Hbig : forall p, 2 ^ 1024 <= Z.pos p -> 1024 < Zdigits2 (Z.pos p)).
  { intros p Hp. apply Zdigits2_gt_pow; lia. }
  assert (Hsmall : forall p, Z.pos p < 2 ^ 1023 -> Zdigits2 (Z.pos p) <= 1023).
  { intros p Hp. apply Zdigits2_le_pow; lia. }
  unfold Float.of_int, binary_normalize, Float.prec, Float.emax.
  destruct z as [|p|p]; [congruence| |].
  - change (Z.pos p <? 0) with false. change (Z.abs (Z.pos p)) with (Z.pos p).
    destruct (Hgen false p) as [(m & e & -> & Hd)|[-> Hd]].
    + split; [left; eauto|]. split; [eauto|]. intros Hp. specialize (Hbig p Hp). lia.
    + split; [now right|]. split; [|reflexivity]. intros Hp. specialize (Hsmall p Hp). lia.
  - change (Z.neg p <? 0) with true. change (Z.abs (Z.neg p)) with (Z.pos p).
    destruct (Hgen true p) as [(m & e & -> & Hd)|[-> Hd]].
    + split; [left; eauto|]. split; [eauto|]. intros Hp. specialize (Hbig p Hp). lia.
    + split; [now right|]. split; [|reflexivity]. intros Hp. specialize (Hsmall p Hp). lia.
Qed.

End Magnitude.

Section Raises.

Lemma of_int_raises z e : Float.of_int z = Raise e -> e = OverflowError.
Proof.
  unfold Float.of_int. destruct (binary_normalize _ _ _ _ _); intros H; now inversion H.
Qed.

Lemma of_int_zero : Float.of_int 0 = Ok (S754_zero false).
Proof. reflexivity. Qed.

(** The formula on deltas with [td <> 0]: it fails only when an int is
    too large for a float. *)
Lemma percent_formula_raises td id :
  td <> 0 ->
  (forall e, percent_formula td id = Raise e -> e = OverflowError)
  /\ (Z.abs td < 2 ^ 1023 -> Z.abs (td - id) < 2 ^ 1023 ->
      is_ok (percent_formula td id) = true)
  /\ (2 ^ 1024 <= Z.abs (td - id) \/ 2 ^ 1024 <= Z.abs td ->
      percent_formula td id = Raise OverflowError).
Proof.
  intros Htd. unfold percent_formula, Float.mul_int, Float.truediv_int.
  destruct (of_int_magnitude td Htd) as (Hshape & Hfit & Hbig).
  assert (Hbusy : (exists y, Float.of_int (td - id) = Ok y)
                  \/ Float.of_int (td - id) = Raise OverflowError).
  { destruct (Z.eq_dec (td - id) 0) as [->|Hne]; [left; eauto using of_int_zero|].
    destruct (of_int_magnitude (td - id) Hne) as ([(m & e & ->)| ->] & _); eauto. }
  split; [|split].
  - intros e. destruct Hbusy as [[y ->]| ->]; cbn [rbind].
    + destruct Hshape as [(m & e' & ->)| ->]; cbn [rbind Float.is_zero]; intros H;
        now inversion H.
    + intros H; now inversion H.
  - intros Ht Hb. destruct (Hfit Ht) as (m & e & ->).
    destruct (Z.eq_dec (td - id) 0) as [->|Hne]; [reflexivity|].
    destruct (of_int_magnitude (td - id) Hne) as (_ & Hfit' & _).
    destruct (Hfit' Hb) as (m' & e' & ->). reflexivity.
  - intros [Hb|Ht].
    + assert (Hne : td - id <> 0).
      { intros H0. rewrite H0 in Hb. cbn in Hb. lia. }
      destruct (of_int_magnitude (td - id) Hne) as (_ & _ & Hbig').
      now rewrite (Hbig' Hb).
    + rewrite (Hbig Ht). destruct Hbusy as [[y ->]| ->]; reflexivity.
Qed.

End Raises.

(** ** When the percentage is finite *)

Section Finite.

Abbreviation fexp := (SpecFloat.fexp 53 1024).
Abbreviation bra := (binary_round_aux 53 1024).



End Finite.

Section FiniteOps.

Abbreviation fexp := (SpecFloat.fexp 53 1024).
Abbreviation bra := (binary_round_aux 53 1024).




End FiniteOps.

Section FinitePercent.




End FinitePercent.

(** ** The round trip of the data rows *)



(** The row of the worked example, as text and read back. *)
Example sixth_round_trip :
  Csv.row_text [CStr Demo.stamp; CFloat Demo.sixth]
  = list_ascii_of_string "2024-05-01T12:00:00.000001,16.666666666666668" ++ [Csv.cr; Csv.lf]
  /\ FloatText.py_float (list_ascii_of_string "16.666666666666668") = Some Demo.sixth
  /\ Float.is_finite Demo.sixth = true.
Proof. vm_compute. auto. Qed.


(** X3.  The utilization computation raises nothing but [IndexError] (a
    snapshot with fewer than 5 counters) and [OverflowError] (a delta
    too large for a float): the guard on [total_delta] rules out
    [ZeroDivisionError], also after the conversion to float.  With at
    least 5 counters in both snapshots it raises nothing when both
    [total_delta] and [total_delta - idle_delta] are below [2^1023] in
    absolute value, and it raises [OverflowError] when [total_delta] is
    not [0] and one of the two reaches [2^1024]. *)
Theorem percent_raises_index_or_overflow_only (prev curr : list Z) :
  (forall e, cpu_percent_of prev curr = Raise e -> e = IndexError \/ e = OverflowError)
  /\ ((5 <= length prev)%nat -> (5 <= length curr)%nat ->
      Z.abs (total_delta prev curr) < 2 ^ 1023 ->
      Z.abs (total_delta prev curr - idle_delta prev curr) < 2 ^ 1023 ->
      is_ok (cpu_percent_of prev curr) = true)
  /\ ((5 <= length prev)%nat -> (5 <= length curr)%nat ->
      total_delta prev curr <> 0 ->
      2 ^ 1024 <= Z.abs (total_delta prev curr - idle_delta prev curr)
      \/ 2 ^ 1024 <= Z.abs (total_delta prev curr) ->
      cpu_percent_of prev curr = Raise OverflowError).
Proof.
  split; [|split].
  - intros e. unfold cpu_percent_of.
    destruct (getitem prev 3) as [e3|p3] eqn:H3;
      [unfold getitem in H3; destruct (prev !! 3%nat); inversion H3;
       cbn [rbind]; intros H; inversion H; auto|].
    destruct (getitem prev 4) as [e4|p4] eqn:H4;
      [unfold getitem in H4; destruct (prev !! 4%nat); inversion H4;
       cbn [rbind]; intros H; inversion H; auto|].
    destruct (getitem curr 3) as [e5|c3] eqn:H5;
      [unfold getitem in H5; destruct (curr !! 3%nat); inversion H5;
       cbn [rbind]; intros H; inversion H; auto|].
    destruct (getitem curr 4) as [e6|c4] eqn:H6;
      [unfold getitem in H6; destruct (curr !! 4%nat); inversion H6;
       cbn [rbind]; intros H; inversion H; auto|].
    cbn [rbind].
    destruct (Z.eqb_spec (py_sum curr - py_sum prev) 0) as [|Hne];
      [intros H; discriminate H|].
    intros H. right.
    apply (proj1 (percent_formula_raises (py_sum curr - py_sum prev)
                    (c3 + c4 - (p3 + p4)) Hne) e H).
  - intros Hp Hc Ht Hb. rewrite cpu_percent_of_deltas by assumption.
    destruct (Z.eqb_spec (total_delta prev curr) 0) as [|Hne]; [reflexivity|].
    now apply percent_formula_raises.
  - intros Hp Hc Hne Hbig. rewrite cpu_percent_of_deltas by assumption.
    destruct (Z.eqb_spec (total_delta prev curr) 0) as [|_]; [contradiction|].
    now apply percent_formula_raises.
Qed.

(** ** The two ends of the scale *)

Section Ends.

Abbreviation fexp := (SpecFloat.fexp 53 1024).

Lemma bounded_intro m e :
  fexp (Zdigits2 (Z.pos m) + e) = e -> e <= 971 -> bounded 53 1024 m e = true.
Proof.
  intros Hc He. unfold bounded, canonical_mantissa.
  change (Z.pos (digits2_pos m)) with (Zdigits2 (Z.pos m)).
  rewrite Hc, Z.eqb_refl. cbn [andb]. apply Z.leb_le. lia.
Qed.

(** [100.0 * z] for an int [z] with [100 * z < 2^53] is the float of
    [100 * z]: nothing is rounded. *)
Lemma mul_hundred_exact z m :
  0 < z -> 100 * z < 2 ^ 53 ->
  Z.pos m = z * 2 ^ (53 - Zdigits2 z) ->
  exists m',
    SFmul 53 1024 Float.hundred (S754_finite false m (Zdigits2 z - 53))
    = S754_finite false m' (Zdigits2 (100 * z) - 53)
    /\ Z.pos m' = 100 * z * 2 ^ (53 - Zdigits2 (100 * z))
    /\ Zdigits2 z + 6 <= Zdigits2 (100 * z) <= Zdigits2 z + 7.
Proof.
  intros Hz Hlt Hm.
  set (d := Zdigits2 z) in *. set (dT := Zdigits2 (100 * z)).
  destruct (Zdigits2_bounds z Hz) as [Hlo Hhi]. fold d in Hlo, Hhi.
  pose proof (Zdigits2_pos z Hz) as Hd. fold d in Hd.
  assert (HdT53 : dT <= 53) by (apply Zdigits2_le_pow; lia).
  assert (HdT : d + 6 <= dT <= d + 7).
  { split.
    - assert (d + 5 < dT); [|lia]. apply Zdigits2_gt_pow; [lia|].
      replace (d + 5) with (6 + (d - 1)) by lia. rewrite pow2_split by lia.
      change (2 ^ 6) with 64. lia.
    - apply Zdigits2_le_pow; [|lia]. split; [lia|].
      replace (d + 7) with (7 + d) by lia. rewrite pow2_split by lia.
      change (2 ^ 7) with 128. lia. }
  pose proof (pow2_pos (53 - dT) ltac:(lia)) as Hp.
  remember (Z.to_pos (100 * z * 2 ^ (53 - dT))) as m' eqn:Hm'def.
  assert (Hm' : Z.pos m' = 100 * z * 2 ^ (53 - dT)) by (subst m'; rewrite Z2Pos.id; nia).
  assert (Hdig : Zdigits2 (Z.pos m') = 53).
  { rewrite Hm', Zdigits2_shift by lia. fold dT. lia. }
  assert (Hb : bounded 53 1024 m' (dT - 53) = true).
  { apply bounded_intro; [|lia]. rewrite Hdig, fexp_eq. lia. }
  exists m'. split; [|split; [exact Hm'|exact HdT]].
  unfold SFmul, Float.hundred. cbn [xorb].
  pose proof (binary_round_aux_exact false m' (dT - 53) (46 - d + dT) Hb ltac:(lia)) as Hex.
  replace (dT - 53 - (46 - d + dT)) with (-46 + (d - 53)) in Hex by lia.
  rewrite <- Hex. f_equal.
  change (Z.pos (7036874417766400 * m)) with (7036874417766400 * Z.pos m).
  rewrite Hm, Hm', hundred_mantissa.
  replace (46 - d + dT) with (46 + (dT - d)) by lia.
  replace (53 - d) with ((53 - dT) + (dT - d)) by lia.
  rewrite !pow2_split by lia. ring.
Qed.

(** The quotient of the float of [100 * z] by the float of [z] is
    [100.0]. *)
Lemma div_hundred_exact z m m' :
  0 < z -> 100 * z < 2 ^ 53 ->
  Z.pos m = z * 2 ^ (53 - Zdigits2 z) ->
  Z.pos m' = 100 * z * 2 ^ (53 - Zdigits2 (100 * z)) ->
  Zdigits2 z + 6 <= Zdigits2 (100 * z) <= Zdigits2 z + 7 ->
  SFdiv 53 1024 (S754_finite false m' (Zdigits2 (100 * z) - 53))
    (S754_finite false m (Zdigits2 z - 53))
  = Float.hundred.
Proof.
  intros Hz Hlt Hm Hm' HdT.
  set (d := Zdigits2 z) in *. set (dT := Zdigits2 (100 * z)) in *.
  pose proof (Zdigits2_pos z Hz) as Hd. fold d in Hd.
  assert (HdT53 : dT <= 53) by (apply Zdigits2_le_pow; lia).
  assert (Hdm : Zdigits2 (Z.pos m) = 53).
  { rewrite Hm, Zdigits2_shift by lia. fold d. lia. }
  assert (Hdm' : Zdigits2 (Z.pos m') = 53).
  { rewrite Hm', Zdigits2_shift by lia. fold dT. lia. }
  unfold SFdiv, SFdiv_core_binary. rewrite Hdm, Hdm'.
  replace (53 + (dT - 53) - (53 + (d - 53))) with (dT - d) by lia.
  rewrite fexp_eq.
  replace (Z.min (Z.max (dT - d - 53) (-1074)) (dT - 53 - (d - 53))) with (dT - d - 53) by lia.
  replace (dT - 53 - (d - 53) - (dT - d - 53)) with 53 by lia.
  rewrite Z.shiftl_mul_pow2 by lia.
  assert (Hq : Z.pos m' * 2 ^ 53 = Z.pos m * (7036874417766400 * 2 ^ (7 - (dT - d)))).
  { rewrite Hm, Hm', hundred_mantissa.
    replace (53 - d) with ((53 - dT) + (dT - d)) by lia.
    replace 53 with (46 + (7 - (dT - d)) + (dT - d)) at 2 by lia.
    rewrite !pow2_split by lia. ring. }
  rewrite Hq, div_eucl_exact by lia. rewrite new_location_zero. cbn [xorb].
  pose proof (binary_round_aux_exact false 7036874417766400 (-46) (7 - (dT - d))
                eq_refl ltac:(lia)) as Hex.
  replace (-46 - (7 - (dT - d))) with (dT - d - 53) in Hex by lia.
  exact Hex.
Qed.

End Ends.

(** X4.  An interval in which the idle counters advanced as much as the total
    records [0.0] (of the sign of [total_delta]), and one in which they
    did not advance at all records exactly [100.0], provided
    [100 * total_delta] is below [2^53] so that the product is exact. *)
Theorem all_idle_is_zero_all_busy_is_hundred (prev curr : list Z) :
  (5 <= length prev)%nat ->
  (5 <= length curr)%nat ->
  (idle_delta prev curr = total_delta prev curr ->
   total_delta prev curr <> 0 ->
   Z.abs (total_delta prev curr) < 2 ^ 1023 ->
   cpu_percent_of prev curr = Ok (S754_zero (total_delta prev curr <? 0)))
  /\ (idle_delta prev curr = 0 ->
      0 < total_delta prev curr ->
      100 * total_delta prev curr < 2 ^ 53 ->
      cpu_percent_of prev curr = Ok Float.hundred).
Proof.
  intros Hp Hc. rewrite cpu_percent_of_deltas by assumption.
  set (td := total_delta prev curr). set (id := idle_delta prev curr).
  split.
  - intros Hid Hne Hfit. rewrite Hid.
    destruct (Z.eqb_spec td 0) as [|_]; [contradiction|].
    unfold percent_formula, Float.mul_int, Float.truediv_int.
    rewrite Z.sub_diag, of_int_zero. cbn [rbind].
    destruct (of_int_magnitude td Hne) as (_ & Hok & _).
    destruct (Hok Hfit) as (m & e & ->). cbn [rbind Float.is_zero].
    reflexivity.
  - intros Hid Hpos Hsmall. rewrite Hid.
    destruct (Z.eqb_spec td 0) as [|_]; [lia|].
    unfold percent_formula, Float.mul_int, Float.truediv_int.
    rewrite Z.sub_0_r.
    assert (Hrange : 0 < td < 2 ^ 53) by lia.
    destruct (of_int_exact td Hrange) as (m & -> & Hm). cbn [rbind].
    unfold Float.prec, Float.emax.
    destruct (mul_hundred_exact td m Hpos Hsmall Hm) as (m' & -> & Hm' & HdT).
    cbn [Float.is_zero]. f_equal.
    now apply div_hundred_exact.
Qed.

Lemma all_idle_is_zero_all_busy_is_hundred_witness :
  cpu_percent_of [5; 0; 0; 20; 1] [5; 0; 0; 27; 4] = Ok (S754_zero false)
  /\ cpu_percent_of [5; 0; 0; 20; 1] [12; 0; 3; 20; 1] = Ok Float.hundred.
Proof.
  split.
  - destruct (all_idle_is_zero_all_busy_is_hundred [5; 0; 0; 20; 1] [5; 0; 0; 27; 4])
      as [Hidle _]; [cbn; lia|cbn; lia|].
    apply Hidle; [reflexivity|discriminate|reflexivity].
  - destruct (all_idle_is_zero_all_busy_is_hundred [5; 0; 0; 20; 1] [12; 0; 3; 20; 1])
      as [_ Hbusy]; [cbn; lia|cbn; lia|].
    apply Hbusy; reflexivity.
Defined.

(** ** What a row holds *)

Section RowContent.

Variable E : env.


End RowContent.



(** ** The command line *)

Section Conversions.

Import Cli.

Lemma drop_space_head t :
  match t with c :: _ => num_space c = false | [] => True end -> drop_space t = t.
Proof. destruct t as [|c r]; [reflexivity|]. cbn. now intros ->. Qed.

Lemma num_space_isspace c : Text.isspace c = false -> num_space c = false.
Proof. unfold num_space. now intros ->. Qed.

(** Text without whitespace is left as it is. *)
Lemma num_strip_none t :
  forallb (fun c => negb (Text.isspace c)) t = true -> num_strip t = t.
Proof.
  intros Ht. unfold num_strip.
  assert (Hhead : forall u, forallb (fun c => negb (Text.isspace c)) u = true ->
                    drop_space u = u).
  { intros u Hu. apply drop_space_head. destruct u as [|c r]; [exact I|].
    cbn in Hu. apply andb_prop in Hu as [Hc _]. apply num_space_isspace.
    now apply negb_true_iff. }
  rewrite (Hhead t Ht), Hhead, rev_involutive; [reflexivity|].
  rewrite forallb_forall in *. intros c Hc. apply Ht. now apply in_rev.
Qed.

Lemma no_space_ends t c :
  forallb (fun c => negb (Text.isspace c)) (c :: t) = true ->
  Text.isspace c || Text.isspace (List.last (c :: t) c) = false.
Proof.
  intros Ht. rewrite forallb_forall in Ht.
  assert (Hlast : forall (u : list ascii) a b, In (List.last (a :: u) b) (a :: u)).
  { induction u as [|d u IH]; intros a b; [now left|]. right. apply (IH d b). }
  specialize (Hlast t c c).
  apply orb_false_iff. split; apply negb_true_iff, Ht; [now left|exact Hlast].
Qed.

(** [int] reads a decimal numeral back. *)
Lemma int_of_decimal z : Z.abs z < 10 ^ 4300 -> int_of_str (decimal z) = Some z.
Proof.
  intros Hz. unfold int_of_str. pose proof (decimal_token z) as Htok.
  unfold Numeral.is_token in Htok.
  destruct (decimal z) as [|c r] eqn:Hd; [discriminate|].
  rewrite num_strip_none by exact Htok.
  rewrite string_of_list_ascii_of_string, <- Hd, py_int_spec.
  destruct (decimal_convertible z Hz) as [-> ->]. reflexivity.
Qed.

(** [float] reads the [repr] of a float back. *)
Lemma float_of_repr x :
  valid_binary 53 1024 x = true ->
  float_of_str (string_of_list_ascii (FloatText.repr x)) = Some x.
Proof.
  intros Hv. unfold float_of_str. rewrite list_ascii_of_string_of_list_ascii.
  assert (Hchars : forallb (fun c => negb (Text.isspace c)) (FloatText.repr x) = true).
  { apply (forallb_impl repr_char); [|now apply repr_chars].
    intros c Hc. destruct (repr_char_facts c Hc) as (_ & -> & _). reflexivity. }
  rewrite num_strip_none by exact Hchars.
  pose proof (py_float_repr x Hv) as Hback.
  destruct (FloatText.repr x) as [|c r] eqn:Hr; [discriminate Hback|].
  now rewrite (no_space_ends r c Hchars).
Qed.

End Conversions.

Section Classification.

Import Cli.

(** An argument that does not begin with ['-'] is a positional. *)
Lemma positional_without_dash c r :
  Ascii.eqb c "-" = false -> _parse_optional (String c r) = Positional.
Proof. intros H. unfold _parse_optional. now rewrite H. Qed.

Lemma split_eq_cons c r :
  Ascii.eqb c "=" = false ->
  split_eq (String c r)
  = match split_eq r with
    | Some (a, b) => Some (String c a, b)
    | None => None
    end.
Proof. intros H. cbn [split_eq]. now rewrite H. Qed.

Lemma split_eq_digits ds :
  Forall is_digit ds -> split_eq (string_of_list_ascii (Dec.dtext ds)) = None.
Proof.
  induction 1 as [|d ds Hd Hds IH]; [reflexivity|].
  cbn [Dec.dtext map string_of_list_ascii split_eq].
  change (map Dec.dchar ds) with (Dec.dtext ds). rewrite IH.
  destruct Hd as [Hlo Hhi].
  assert (H : d = 0 \/ d = 1 \/ d = 2 \/ d = 3 \/ d = 4 \/ d = 5 \/ d = 6
              \/ d = 7 \/ d = 8 \/ d = 9) by lia.
  repeat (destruct H as [->|H]; [reflexivity|]). now subst.
Qed.

Lemma skip_digits_digits ds :
  Forall is_digit ds -> ds <> [] ->
  skip_digits (string_of_list_ascii (Dec.dtext ds)) = (true, EmptyString).
Proof.
  intros Hds. induction Hds as [|d ds Hd Hds IH]; [congruence|]. intros _.
  cbn [Dec.dtext map string_of_list_ascii skip_digits].
  change (map Dec.dchar ds) with (Dec.dtext ds).
  unfold Text.isdigit. rewrite (digit_value_dchar d Hd).
  destruct ds as [|d' ds']; [reflexivity|]. now rewrite IH.
Qed.

(** A decimal numeral is a positional, also when it is negative. *)
Lemma positional_decimal z :
  _parse_optional (decimal z) = Positional /\ String.eqb (decimal z) "--" = false.
Proof.
  unfold decimal.
  destruct (to_digits_spec (Z.abs z) ltac:(lia)) as [_ Hds].
  pose proof (to_digits_nonempty (Z.abs z)) as Hne.
  destruct (Dec.to_digits (Z.abs z)) as [|d ds]; [congruence|].
  inversion Hds as [|? ? Hd Hrest]; subst.
  destruct (dchar_facts d Hd) as (_ & Hm & _).
  destruct (z <? 0).
  - cbn [app Dec.dtext map string_of_list_ascii].
    change (map Dec.dchar ds) with (Dec.dtext ds).
    assert (Hneg : negative_number
                     (String "-" (String (Dec.dchar d) (string_of_list_ascii (Dec.dtext ds))))
                   = true).
    { unfold negative_number. change (Ascii.eqb "-" "-") with true. cbn [andb].
      pose proof (skip_digits_digits (d :: ds) Hds ltac:(discriminate)) as Hskip.
      cbn [Dec.dtext map string_of_list_ascii] in Hskip.
      change (map Dec.dchar ds) with (Dec.dtext ds) in Hskip.
      rewrite Hskip. reflexivity. }
    assert (Hsplit : split_eq
                       (String "-" (String (Dec.dchar d) (string_of_list_ascii (Dec.dtext ds))))
                     = None).
    { pose proof (split_eq_digits (d :: ds) Hds) as Hs.
      cbn [Dec.dtext map string_of_list_ascii] in Hs.
      change (map Dec.dchar ds) with (Dec.dtext ds) in Hs.
      rewrite split_eq_cons by reflexivity. now rewrite Hs. }
    split.
    + unfold _parse_optional. change (negb (Ascii.eqb "-" "-")) with false. cbv iota.
      rewrite Hsplit, Hneg.
      destruct Hd as [Hlo Hhi].
      assert (H : d = 0 \/ d = 1 \/ d = 2 \/ d = 3 \/ d = 4 \/ d = 5 \/ d = 6
                  \/ d = 7 \/ d = 8 \/ d = 9) by lia.
      repeat (destruct H as [->|H]; [reflexivity|]). now subst.
    + cbn [String.eqb]. change (Ascii.eqb "-" "-") with true. cbv iota.
      rewrite Hm. reflexivity.
  - cbn [app Dec.dtext map string_of_list_ascii]. split.
    + now apply positional_without_dash.
    + cbn [String.eqb]. now rewrite Hm.
Qed.

(** The [repr] of a float that has no minus sign is a positional. *)
Lemma positional_repr x :
  valid_binary 53 1024 x = true ->
  match x with
  | S754_zero s | S754_infinity s | S754_finite s _ _ => s = false
  | S754_nan => True
  end ->
  _parse_optional (string_of_list_ascii (FloatText.repr x)) = Positional
  /\ String.eqb (string_of_list_ascii (FloatText.repr x)) "--" = false.
Proof.
  intros Hv Hs. destruct x as [s|s| |s m e]; try (subst s; split; reflexivity).
  - split; reflexivity.
  - subst s. cbn [valid_binary] in Hv.
    destruct (shortest_spec false m e Hv) as (Hne & Hds & _).
    cbn [FloatText.repr]. destruct (FloatText.shortest false m e) as [ds decpt].
    cbn [fst] in Hne, Hds.
    destruct (layout_head ds decpt Hne Hds) as (d & r & Hd & ->).
    destruct (dchar_facts d Hd) as (_ & Hm & _).
    cbn [app string_of_list_ascii]. split.
    + now apply positional_without_dash.
    + cbn [String.eqb]. now rewrite Hm.
Qed.

End Classification.

Section Parsing.

Import Cli.

Lemma classify_plain v rest :
  plain_value v = true ->
  classify false (v :: rest) = option_map (cons A) (classify false rest).
Proof.
  unfold plain_value. intros H. cbn [classify].
  destruct (_parse_optional v); try discriminate.
  apply negb_true_iff in H. now rewrite H.
Qed.

Lemma classify_long a rest :
  classify false (long_option a :: rest)
  = option_map (cons (O (Some a, long_option a, None))) (classify false rest).
Proof. destruct a; reflexivity. Qed.

Lemma classify_spelled opts :
  Forall (fun av => plain_value (snd av) = true) opts ->
  classify false (spelled opts)
  = Some (flat_map (fun av => [O (Some (fst av), long_option (fst av), None); A]) opts).
Proof.
  induction 1 as [|[a v] opts Hv Hrest IH]; [reflexivity|].
  cbn [spelled flat_map app fst snd] in *. fold (spelled opts).
  rewrite classify_long, (classify_plain v _ Hv), IH. reflexivity.
Qed.

Lemma consume_spelled opts :
  Forall (fun av => fst av <> Help) opts ->
  forall ns,
    consume (flat_map (fun av => [O (Some (fst av), long_option (fst av), None); A]) opts)
      (spelled opts) ns []
    = match store_all opts ns with
      | Some ns' => Parsed ns'
      | None => Exit 2
      end.
Proof.
  induction 1 as [|[a v] opts Ha Hrest IH]; intros ns; [reflexivity|].
  cbn [spelled flat_map app fst snd store_all] in *. fold (spelled opts).
  destruct a; [congruence| | |]; cbn [consume];
    (destruct (store _ v ns) as [ns'|]; [apply IH|reflexivity]).
Qed.

(** X11.  Options spelled out one after the other, each followed by its value
    as the next argument (a string the parser takes for a positional),
    are stored from left to right, starting from the defaults: a later
    value for an option replaces an earlier one, an option that is not
    given keeps its default, and the first value its type refuses ends
    the parse with status 2. *)
Theorem options_are_stored_in_order (opts : list (action * string)) :
  Forall (fun av => fst av <> Help /\ plain_value (snd av) = true) opts ->
  parse_args (spelled opts)
  = match store_all opts defaults with
    | Some ns => Parsed ns
    | None => Exit 2
    end.
Proof.
  intros H. unfold parse_args.
  rewrite classify_spelled by (eapply Forall_impl; [exact H|]; now intros av [_ ?]).
  apply consume_spelled. eapply Forall_impl; [exact H|]. now intros av [? _].
Qed.

Lemma parse_optional_assignment a v :
  _parse_optional (String.append (long_option a) (String "=" v))
  = Optional (Some a, long_option a, Some v)
  /\ String.eqb (String.append (long_option a) (String "=" v)) "--" = false.
Proof. destruct a; split; reflexivity. Qed.

Lemma classify_assignment a v rest :
  classify false (String.append (long_option a) (String "=" v) :: rest)
  = option_map (cons (O (Some a, long_option a, Some v))) (classify false rest).
Proof.
  destruct (parse_optional_assignment a v) as [Hp Hd].
  cbn [classify]. now rewrite Hd, Hp.
Qed.

Lemma repr_not_dashes x :
  valid_binary 53 1024 x = true ->
  String.eqb (string_of_list_ascii (FloatText.repr x)) "--" = false.
Proof.
  intros Hv. destruct x as [s|s| |s m e]; try (destruct s; reflexivity); [reflexivity|].
  cbn [valid_binary] in Hv.
  destruct (shortest_spec s m e Hv) as (Hne & Hds & _).
  cbn [FloatText.repr]. destruct (FloatText.shortest s m e) as [ds decpt].
  cbn [fst] in Hne, Hds.
  destruct (layout_head ds decpt Hne Hds) as (d & r & Hd & ->).
  destruct (dchar_facts d Hd) as (_ & Hm & _).
  destruct s; cbn [app string_of_list_ascii String.eqb].
  - change (Ascii.eqb "-" "-") with true. cbv iota. now rewrite Hm.
  - now rewrite Hm.
Qed.

Lemma store_interval_repr x ns :
  valid_binary 53 1024 x = true ->
  store Interval (string_of_list_ascii (FloatText.repr x)) ns
  = Some {| interval := Value x; iterations := iterations ns; output := output ns |}.
Proof.
  intros Hv. unfold store. now rewrite (repr_not_dashes x Hv), (float_of_repr x Hv).
Qed.

Lemma store_iterations_decimal n ns :
  Z.abs n < 10 ^ 4300 ->
  store Iterations (decimal n) ns
  = Some {| interval := interval ns; iterations := Value n; output := output ns |}.
Proof.
  intros Hn. unfold store. destruct (positional_decimal n) as [_ ->].
  now rewrite int_of_decimal.
Qed.

End Parsing.

Lemma options_are_stored_in_order_witness :
  Cli.parse_args ["--iterations"; "5"; "--output"; "-"; "--iterations"; "-3"]%string
  = Cli.Parsed {| Cli.interval := Cli.Value Demo.one; Cli.iterations := Cli.Value (-3);
                  Cli.output := Cli.Value "-"%string |}
  /\ Cli.parse_args ["--iterations"; "5"; "--interval"; "soon"; "--output"; "-"]%string
     = Cli.Exit 2.
Proof.
  split.
  - apply (options_are_stored_in_order
             [(Cli.Iterations, "5"); (Cli.Output, "-"); (Cli.Iterations, "-3")]%string).
    repeat constructor; discriminate.
  - apply (options_are_stored_in_order
             [(Cli.Iterations, "5"); (Cli.Interval, "soon"); (Cli.Output, "-")]%string).
    repeat constructor; discriminate.
Defined.

(** X12.  Round trip of the command line.  With the interval written as the
    [repr] of a float without a minus sign, the number of iterations in
    decimal (negative or not, within the [4300] digits [int] accepts)
    and the output as any string the parser takes for a value, each
    after its option, [parse_args] returns
    exactly these three values, and the program is
    [record_cpu(interval, iterations, output)]. *)
Theorem command_line_round_trip
    (fuel : nat) (E : env) (w : world)
    (x : Float.float) (n : Z) (output_file : string) :
  valid_binary 53 1024 x = true ->
  match x with
  | S754_zero s | S754_infinity s | S754_finite s _ _ => s = false
  | S754_nan => True
  end ->
  Z.abs n < 10 ^ 4300 ->
  Cli.plain_value output_file = true ->
  let argv := ["--interval"%string; string_of_list_ascii (FloatText.repr x);
               "--iterations"%string; decimal n;
               "--output"%string; output_file] in
  Cli.parse_args argv
  = Cli.Parsed {| Cli.interval := Cli.Value x; Cli.iterations := Cli.Value n;
                  Cli.output := Cli.Value output_file |}
  /\ main fuel E argv w
     = (Ended (fst (record_cpu fuel E x n output_file w)),
        snd (record_cpu fuel E x n output_file w)).
Proof.
  intros Hv Hsign Hn Hout argv.
  assert (Hparse : Cli.parse_args argv
                   = Cli.Parsed {| Cli.interval := Cli.Value x;
                                   Cli.iterations := Cli.Value n;
                                   Cli.output := Cli.Value output_file |}).
  { unfold argv, Cli.parse_args.
    destruct (positional_repr x Hv Hsign) as [Hpx Hdx].
    destruct (positional_decimal n) as [Hpn Hdn].
    rewrite (classify_long Cli.Interval), classify_plain
      by (unfold Cli.plain_value; now rewrite Hpx, Hdx).
    rewrite (classify_long Cli.Iterations), classify_plain
      by (unfold Cli.plain_value; now rewrite Hpn, Hdn).
    rewrite (classify_long Cli.Output), (classify_plain _ _ Hout).
    cbn [Cli.classify option_map Cli.consume Cli.long_option].
    rewrite (store_interval_repr x _ Hv), store_iterations_decimal by exact Hn.
    unfold Cli.store. unfold Cli.plain_value in Hout.
    destruct (Cli._parse_optional output_file); try discriminate.
    apply negb_true_iff in Hout. rewrite Hout. reflexivity. }
  split; [exact Hparse|].
  unfold main. rewrite Hparse. cbn [Cli.output Cli.iterations Cli.interval].
  destruct (record_cpu fuel E x n output_file w) as [o w']. reflexivity.
Qed.

Lemma command_line_round_trip_witness :
  Cli.parse_args ["--interval"; "16.666666666666668"; "--iterations"; "-12";
                  "--output"; "-"]%string
  = Cli.Parsed {| Cli.interval := Cli.Value Demo.sixth; Cli.iterations := Cli.Value (-12);
                  Cli.output := Cli.Value "-"%string |}.
Proof.
  apply (command_line_round_trip 0 Demo.steady Demo.fresh Demo.sixth (-12) "-");
    reflexivity.
Defined.

(** X13.  The form [--option=value] takes any value: the [repr] of any float
    (negative, infinite or NaN too), any decimal numeral of at most
    [4300] digits and any string as the output, except that the value
    [--] is stored as the empty list. *)
Theorem assignment_takes_any_value (x : Float.float) (n : Z) (output_file : string) :
  valid_binary 53 1024 x = true ->
  Z.abs n < 10 ^ 4300 ->
  Cli.parse_args
    [String.append "--interval=" (string_of_list_ascii (FloatText.repr x));
     String.append "--iterations=" (decimal n);
     String.append "--output=" output_file]
  = Cli.Parsed
      {| Cli.interval := Cli.Value x; Cli.iterations := Cli.Value n;
         Cli.output := if String.eqb output_file "--" then Cli.EmptyList
                       else Cli.Value output_file |}.
Proof.
  intros Hv Hn. unfold Cli.parse_args.
  change (String.append "--interval=" ?v)
    with (String.append (Cli.long_option Cli.Interval) (String "=" v)).
  change (String.append "--iterations=" ?v)
    with (String.append (Cli.long_option Cli.Iterations) (String "=" v)).
  change (String.append "--output=" ?v)
    with (String.append (Cli.long_option Cli.Output) (String "=" v)).
  rewrite (classify_assignment Cli.Interval), (classify_assignment Cli.Iterations),
    (classify_assignment Cli.Output).
  cbn [Cli.classify option_map Cli.consume Cli.long_option].
  rewrite (store_interval_repr x _ Hv), store_iterations_decimal by exact Hn.
  reflexivity.
Qed.

Lemma assignment_takes_any_value_witness :
  Cli.parse_args ["--interval=-inf"; "--iterations=-12"; "--output=--"]%string
  = Cli.Parsed {| Cli.interval := Cli.Value (S754_infinity true);
                  Cli.iterations := Cli.Value (-12); Cli.output := Cli.EmptyList |}.
Proof.
  apply (assignment_takes_any_value (S754_infinity true) (-12) "--"); reflexivity.
Defined.

Section Refusals.

Import Cli.

Lemma classify_ambiguous pre s post :
  ~ In "--"%string pre -> _parse_optional s = Ambiguous -> String.eqb s "--" = false ->
  classify false (pre ++ s :: post) = None.
Proof.
  intros Hpre Hs Hd. induction pre as [|a pre IH]; cbn [app classify].
  - now rewrite Hd, Hs.
  - destruct (String.eqb_spec a "--") as [->|_]; [exfalso; apply Hpre; now left|].
    rewrite IH by (intros Hin; apply Hpre; now right).
    destruct (_parse_optional a); reflexivity.
Qed.

(** An argument that begins with ['-'], other than ["-"] itself, a
    negative number or a string with a space, is an option for the
    parser, or an ambiguous one. *)
Lemma dash_is_no_positional r :
  r <> EmptyString ->
  negative_number (String "-" r) = false ->
  contains " " (String "-" r) = false ->
  _parse_optional (String "-" r) <> Positional.
Proof.
  intros Hr Hneg Hsp. unfold _parse_optional.
  change (negb (Ascii.eqb "-" "-")) with false. cbv iota.
  destruct (lookup (String "-" r)); [discriminate|].
  destruct r as [|c r']; [congruence|].
  change (String.length (String "-" (String c r')) =? 1)%nat with false. cbv iota.
  destruct (match split_eq (String "-" (String c r')) with
            | Some (option_string, explicit_arg) =>
                match lookup option_string with
                | Some a => Some (Optional (Some a, option_string, Some explicit_arg))
                | None => None
                end
            | None => None
            end) as [p|] eqn:Hwith.
  - destruct (split_eq (String "-" (String c r'))) as [[os e]|]; [|discriminate].
    destruct (lookup os); inversion Hwith. discriminate.
  - destruct (_get_option_tuples (String "-" (String c r'))) as [|t [|t' l]];
      [|discriminate|discriminate].
    rewrite Hneg, Hsp. discriminate.
Qed.

End Refusals.

(** X14.  A value that begins with ['-'] cannot follow its option as the next
    argument, unless it is ["-"] itself, a negative number in plain
    decimal notation or a string with a space: the parse ends with
    status 2, for [--output -x.log] as for [--interval -1e-05]. *)
Theorem dash_value_is_refused (a : Cli.action) (r : string) :
  a <> Cli.Help ->
  r <> EmptyString ->
  Cli.negative_number (String "-" r) = false ->
  Cli.contains " " (String "-" r) = false ->
  Cli.parse_args [Cli.long_option a; String "-" r] = Cli.Exit 2.
Proof.
  intros Ha Hr Hneg Hsp. unfold Cli.parse_args. rewrite classify_long.
  pose proof (dash_is_no_positional r Hr Hneg Hsp) as Hno.
  cbn [Cli.classify].
  destruct (String.eqb (String "-" r) "--").
  - cbn [option_map]. destruct a; [congruence| | |]; reflexivity.
  - destruct (Cli._parse_optional (String "-" r)) as [|t|]; [congruence| |reflexivity].
    cbn [Cli.classify option_map]. destruct a; [congruence| | |]; reflexivity.
Qed.

Lemma dash_value_is_refused_witness :
  Cli.parse_args ["--interval"; "-1e-05"]%string = Cli.Exit 2
  /\ Cli.parse_args ["--output"; "-x.log"]%string = Cli.Exit 2.
Proof.
  split.
  - apply (dash_value_is_refused Cli.Interval "1e-05"); [discriminate|discriminate| |];
      reflexivity.
  - apply (dash_value_is_refused Cli.Output "x.log"); [discriminate|discriminate| |];
      reflexivity.
Defined.

(** X15.  The abbreviation [--i] fits two options: wherever it stands before
    the first [--], alone or with a value after ['='], the parse ends
    with status 2 before any option is looked at, [--help] included. *)
Theorem ambiguous_abbreviation_exits (pre post : list string) (s v : string) :
  ~ In "--"%string pre ->
  s = "--i"%string \/ s = String.append "--i=" v ->
  Cli.parse_args (pre ++ s :: post) = Cli.Exit 2.
Proof.
  intros Hpre Hs. unfold Cli.parse_args.
  rewrite classify_ambiguous; [reflexivity|exact Hpre| |];
    destruct Hs as [->| ->]; reflexivity.
Qed.

Lemma ambiguous_abbreviation_exits_witness :
  Cli.parse_args ["--help"; "--i=3"; "--output"]%string = Cli.Exit 2.
Proof.
  apply (ambiguous_abbreviation_exits ["--help"]%string ["--output"]%string "--i=3" "3").
  - intros [H|[]]. discriminate H.
  - right. reflexivity.
Defined.

Section Prefixes.

Lemma prefix_cons a s1 b s2 :
  String.prefix (String a s1) (String b s2)
  = if Ascii.eqb a b then String.prefix s1 s2 else false.
Proof.
  cbn [String.prefix]. destruct (ascii_dec a b) as [->|Hne].
  - now rewrite Ascii.eqb_refl.
  - apply Ascii.eqb_neq in Hne. now rewrite Hne.
Qed.

Lemma prefix_cons_inv p c s :
  String.prefix p (String c s) = true ->
  p = EmptyString \/ exists p', p = String c p' /\ String.prefix p' s = true.
Proof.
  destruct p as [|a p']; [now left|]. rewrite prefix_cons.
  destruct (Ascii.eqb_spec a c) as [->|]; [|discriminate]. right. eauto.
Qed.

Lemma prefix_nil_inv p : String.prefix p EmptyString = true -> p = EmptyString.
Proof. destruct p; [reflexivity|discriminate]. Qed.

End Prefixes.

(** The strings a prefix test against a literal accepts, one by one. *)
Ltac enumerate_prefixes H :=
  repeat (apply prefix_cons_inv in H as [->|(? & -> & H)]; [|]);
  try (apply prefix_nil_inv in H; subst).

Section Abbreviations.

Import Cli.

Lemma abbreviates_parse p a :
  abbreviates p a = true ->
  _parse_optional p = Optional (Some a, long_option a, None)
  /\ String.eqb p "--" = false.
Proof.
  intros Habb. assert (Hpre : String.prefix p (long_option a) = true).
  { unfold abbreviates in Habb. apply andb_prop in Habb as [Habb _].
    now apply andb_prop in Habb as [_ ?]. }
  destruct a; cbn [long_option] in Hpre.
  - enumerate_prefixes Hpre; first [discriminate Habb | split; reflexivity].
  - enumerate_prefixes Hpre; first [discriminate Habb | split; reflexivity].
  - enumerate_prefixes Hpre; first [discriminate Habb | split; reflexivity].
  - enumerate_prefixes Hpre; first [discriminate Habb | split; reflexivity].
Qed.

Lemma classify_app pre rest :
  ~ In "--"%string pre ->
  classify false (pre ++ rest)
  = match classify false pre with
    | Some m1 => option_map (app m1) (classify false rest)
    | None => None
    end
  /\ match classify false pre with
     | Some m1 => length m1 = length pre
     | None => True
     end.
Proof.
  induction pre as [|a pre IH]; intros Hpre; cbn [app classify].
  - split; [|reflexivity]. destruct (classify false rest); reflexivity.
  - destruct (String.eqb_spec a "--") as [->|_]; [exfalso; apply Hpre; now left|].
    destruct (IH ltac:(intros Hin; apply Hpre; now right)) as [-> Hlen].
    destruct (_parse_optional a); [| |now split];
      (destruct (classify false pre) as [m1|]; cbn [option_map]; [|now split];
       split; [destruct (classify false rest); reflexivity|cbn [length]; now rewrite Hlen]).
Qed.

(** [consume] does not look at the argument an option was found in. *)
Lemma consume_option_string n :
  forall mpre pre t mpost p q post ns extras,
    (length pre <= n)%nat -> length mpre = length pre ->
    fst (fst t) <> None ->
    consume (mpre ++ O t :: mpost) (pre ++ p :: post) ns extras
    = consume (mpre ++ O t :: mpost) (pre ++ q :: post) ns extras.
Proof.
  induction n as [|n IH]; intros mpre pre t mpost p q post ns extras Hn Hlen Ht.
  - destruct pre; [|cbn in Hn; lia]. destruct mpre; [|discriminate].
    destruct t as [[[a|] os] [e|]]; [| |now cbn in Ht|now cbn in Ht];
      destruct a; reflexivity.
  - destruct pre as [|x pre].
    + destruct mpre; [|discriminate].
      destruct t as [[[a|] os] [e|]]; [| |now cbn in Ht|now cbn in Ht];
        destruct a; reflexivity.
    + destruct mpre as [|m mpre]; [discriminate|]. cbn [length] in Hn, Hlen.
      assert (Hstep : forall ns' extras',
                consume (mpre ++ O t :: mpost) (pre ++ p :: post) ns' extras'
                = consume (mpre ++ O t :: mpost) (pre ++ q :: post) ns' extras').
      { intros. apply IH; [lia|lia|exact Ht]. }
      cbn [app].
      destruct m as [| |[[[a|] os] [e|]]].
      * cbn [consume]. apply Hstep.
      * cbn [consume]. apply Hstep.
      * destruct a; cbn [consume]; try reflexivity;
          (destruct (store _ e ns); [apply Hstep|reflexivity]).
      * destruct a; [reflexivity| | |];
          (destruct pre as [|y pre];
           [destruct mpre; [|discriminate]; reflexivity|];
           destruct mpre as [|m' mpre]; [discriminate|];
           cbn [length] in Hn, Hlen; cbn [app consume];
           destruct m'; try reflexivity;
           destruct (store _ y ns); [|reflexivity];
           apply IH; [lia|lia|exact Ht]).
      * cbn [consume]. apply Hstep.
      * cbn [consume]. apply Hstep.
Qed.

End Abbreviations.

(** X16.  An option may be abbreviated: wherever an option string stands
    before the first [--], a prefix of it that begins with [--] and fits
    no other option is parsed as the option itself. *)
Theorem abbreviation_is_the_option
    (pre post : list string) (p : string) (a : Cli.action) :
  Cli.abbreviates p a = true ->
  ~ In "--"%string pre ->
  Cli.parse_args (pre ++ p :: post) = Cli.parse_args (pre ++ Cli.long_option a :: post).
Proof.
  intros Habb Hpre. unfold Cli.parse_args.
  destruct (abbreviates_parse p a Habb) as [Hp Hd].
  destruct (classify_app pre (p :: post) Hpre) as [-> Hlen].
  destruct (classify_app pre (Cli.long_option a :: post) Hpre) as [-> _].
  destruct (Cli.classify false pre) as [mpre|]; [|reflexivity].
  rewrite classify_long. cbn [Cli.classify]. rewrite Hd, Hp.
  destruct (Cli.classify false post) as [mpost|]; [|reflexivity].
  cbn [option_map].
  apply (consume_option_string (length pre)); [lia|exact Hlen|discriminate].
Qed.

Lemma abbreviation_is_the_option_witness :
  Cli.parse_args ["--out"; "-"; "--it"; "3"]%string
  = Cli.parse_args ["--out"; "-"; "--iterations"; "3"]%string.
Proof.
  apply (abbreviation_is_the_option ["--out"; "-"]%string ["3"]%string "--it"
           Cli.Iterations).
  - reflexivity.
  - intros [H|[H|[]]]; discriminate H.
Defined.

(** ** The program *)

Section Program.

Import Cli.

Lemma lookup_iterations s : lookup s = Some Iterations -> s = "--iterations"%string.
Proof.
  unfold lookup, option_string_actions. cbn [List.find fst snd].
  destruct (String.eqb_spec "-h" s); [discriminate|].
  destruct (String.eqb_spec "--help" s); [discriminate|].
  destruct (String.eqb_spec "--interval" s); [discriminate|].
  destruct (String.eqb_spec "--iterations" s); [auto|].
  destruct (String.eqb_spec "--output" s); discriminate.
Qed.

Lemma split_eq_spec s :
  forall os e, split_eq s = Some (os, e) -> s = String.append os (String "=" e).
Proof.
  induction s as [|c s IH]; intros os e; cbn [split_eq]; [discriminate|].
  destruct (Ascii.eqb_spec c "=") as [->|_].
  - intros H; inversion H; subst. reflexivity.
  - destruct (split_eq s) as [[a b]|]; [|discriminate].
    intros H; inversion H; subst.
    change (String c s = String c (String.append a (String "=" e))).
    f_equal. now apply IH.
Qed.

(** A single interpretation that is [--iterations] comes from an
    argument that begins with [--it]. *)
Lemma get_option_tuples_iterations s os e :
  _get_option_tuples s = [(Some Iterations, os, e)] ->
  String.prefix "--it" s = true.
Proof.
  unfold _get_option_tuples.
  destruct s as [|c0 [|c1 s2]]; try discriminate.
  destruct (Ascii.eqb_spec c1 "-") as [->|Hc1].
  - destruct (split_eq (String c0 (String "-" s2))) as [[P e']|] eqn:Hsplit.
    + apply split_eq_spec in Hsplit. rewrite Hsplit. clear Hsplit.
      unfold option_string_actions, startswith. cbn [flat_map fst snd].
      destruct (String.prefix P "-h"), (String.prefix P "--help"),
        (String.prefix P "--interval") eqn:H3, (String.prefix P "--iterations") eqn:H4,
        (String.prefix P "--output");
        cbn [app]; intros Heq; inversion Heq; subst;
        enumerate_prefixes H4; first [discriminate H3 | reflexivity].
    + unfold option_string_actions, startswith. cbn [flat_map fst snd].
      set (P := String c0 (String "-" s2)).
      destruct (String.prefix P "-h"), (String.prefix P "--help"),
        (String.prefix P "--interval") eqn:H3, (String.prefix P "--iterations") eqn:H4,
        (String.prefix P "--output");
        cbn [app]; intros Heq; inversion Heq; subst;
        enumerate_prefixes H4; first [discriminate H3 | reflexivity].
  - unfold option_string_actions, startswith. cbn [flat_map fst snd String.substring].
    assert (Heqb : forall o, String.eqb (String "-" (String "-" o)) (String c0 (String c1 EmptyString))
                             = false).
    { intros o. cbn [String.eqb]. destruct (Ascii.eqb "-" c0); [|reflexivity].
      apply Ascii.eqb_neq in Hc1. rewrite Ascii.eqb_sym, Hc1. reflexivity. }
    assert (Hpre : forall o, String.prefix (String c0 (String c1 s2)) (String "-" (String "-" o))
                             = false).
    { intros o. rewrite prefix_cons. destruct (Ascii.eqb c0 "-"); [|reflexivity].
      rewrite prefix_cons. apply Ascii.eqb_neq in Hc1. now rewrite Hc1. }
    assert (Hsub : String.substring 0 0 s2 = EmptyString) by (destruct s2; reflexivity).
    rewrite Hsub, !Heqb, !Hpre. cbn [app].
    destruct (String.eqb "-h" (String c0 (String c1 EmptyString)));
      [|destruct (String.prefix (String c0 (String c1 s2)) "-h")];
      cbn [app]; intros Heq; inversion Heq.
Qed.

Lemma parse_optional_iterations s os e :
  _parse_optional s = Optional (Some Iterations, os, e) ->
  String.prefix "--it" s = true.
Proof.
  unfold _parse_optional. destruct s as [|c r]; [discriminate|].
  destruct (Ascii.eqb_spec c "-") as [->|_]; [|discriminate]. cbn [negb].
  destruct (lookup (String "-" r)) as [a|] eqn:Hl.
  - intros H; inversion H; subst. now rewrite (lookup_iterations _ Hl).
  - destruct (String.length (String "-" r) =? 1)%nat; [discriminate|].
    destruct (split_eq (String "-" r)) as [[os' e']|] eqn:Hs.
    + destruct (lookup os') as [a|] eqn:Hl'.
      * intros H; inversion H; subst.
        apply split_eq_spec in Hs. rewrite Hs, (lookup_iterations _ Hl'). reflexivity.
      * destruct (_get_option_tuples (String "-" r)) as [|t [|t' l]] eqn:Ht.
        -- destruct (negative_number _); [discriminate|].
           destruct (contains _ _); discriminate.
        -- intros H; inversion H; subst. eapply get_option_tuples_iterations, Ht.
        -- discriminate.
    + destruct (_get_option_tuples (String "-" r)) as [|t [|t' l]] eqn:Ht.
      * destruct (negative_number _); [discriminate|].
        destruct (contains _ _); discriminate.
      * intros H; inversion H; subst. eapply get_option_tuples_iterations, Ht.
      * discriminate.
Qed.

Lemma classify_no_iterations argv :
  Forall (fun s => String.prefix "--it" s = false) argv ->
  forall after_dash marks,
    classify after_dash argv = Some marks ->
    Forall (fun m => forall os e, m <> O (Some Iterations, os, e)) marks.
Proof.
  induction 1 as [|s argv Hs Hrest IH]; intros after_dash marks; cbn [classify].
  - intros H; inversion H. constructor.
  - assert (Hcons : forall m b,
              (forall os e, m <> O (Some Iterations, os, e)) ->
              option_map (cons m) (classify b argv) = Some marks ->
              Forall (fun m => forall os e, m <> O (Some Iterations, os, e)) marks).
    { intros m b Hm Heq. destruct (classify b argv) as [ms|] eqn:Hc; [|discriminate].
      inversion Heq; subst. constructor; [exact Hm|]. eapply IH, Hc. }
    destruct after_dash; [apply Hcons; discriminate|].
    destruct (String.eqb s "--"); [apply Hcons; discriminate|].
    destruct (_parse_optional s) as [|t|] eqn:Hp; [apply Hcons; discriminate| |discriminate].
    apply Hcons. intros os e Heq. inversion Heq; subst.
    apply parse_optional_iterations in Hp. congruence.
Qed.

Lemma store_keeps_iterations a v ns ns' :
  a <> Iterations -> store a v ns = Some ns' -> iterations ns' = iterations ns.
Proof.
  unfold store. destruct a; [| |congruence|].
  - intros _ H; now inversion H.
  - intros _. destruct (String.eqb v "--"); [intros H; now inversion H|].
    destruct (float_of_str v); intros H; now inversion H.
  - intros _ H; now inversion H.
Qed.

(** Without an [--iterations] option among the marks, the namespace
    keeps the number of iterations it had. *)
Lemma consume_keeps_iterations n :
  forall marks args ns extras ns',
    (length marks <= n)%nat ->
    Forall (fun m => forall os e, m <> O (Some Iterations, os, e)) marks ->
    consume marks args ns extras = Parsed ns' ->
    iterations ns' = iterations ns.
Proof.
  induction n as [|n IH]; intros marks args ns extras ns' Hn Hmarks.
  - destruct marks; [|cbn in Hn; lia]. cbn [consume].
    destruct extras; intros H; now inversion H.
  - destruct marks as [|m marks].
    + cbn [consume]. destruct extras; intros H; now inversion H.
    + inversion Hmarks as [|? ? Hm Hrest]; subst. cbn [length] in Hn.
      destruct args as [|s rest].
      * destruct m as [| |[[[[]|] os] [e|]]]; cbn [consume];
          destruct extras; intros H; now inversion H.
      * destruct m as [| |[[[a|] os] [e|]]].
        -- cbn [consume]. apply IH; [lia|exact Hrest].
        -- cbn [consume]. apply IH; [lia|exact Hrest].
        -- assert (Ha : a <> Iterations) by (intros ->; now apply (Hm os (Some e))).
           destruct a; [| |congruence|]; cbn [consume].
           ++ destruct (_ && _); discriminate.
           ++ destruct (store Interval e ns) as [ns1|] eqn:Hst; [|discriminate].
              intros H. rewrite <- (store_keeps_iterations _ _ _ _ Ha Hst).
              eapply IH; [|exact Hrest|exact H]. lia.
           ++ destruct (store Output e ns) as [ns1|] eqn:Hst; [|discriminate].
              intros H. rewrite <- (store_keeps_iterations _ _ _ _ Ha Hst).
              eapply IH; [|exact Hrest|exact H]. lia.
        -- assert (Ha : a <> Iterations) by (intros ->; now apply (Hm os None)).
           destruct a; [discriminate| |congruence|]; cbn [consume];
             (destruct marks as [|m' marks]; [discriminate|];
              destruct rest as [|s' rest']; [destruct m'; discriminate|];
              destruct m'; try discriminate;
              destruct (store _ s' ns) as [ns1|] eqn:Hst; [|discriminate];
              intros H; rewrite <- (store_keeps_iterations _ _ _ _ Ha Hst);
              inversion Hrest; subst; cbn [length] in Hn;
              eapply IH; [|eassumption|exact H]; lia).
        -- cbn [consume]. apply IH; [lia|exact Hrest].
        -- cbn [consume]. apply IH; [lia|exact Hrest].
Qed.

Lemma parse_args_keeps_iterations argv ns :
  Forall (fun s => String.prefix "--it" s = false) argv ->
  parse_args argv = Parsed ns -> iterations ns = Value 0.
Proof.
  intros Hargv. unfold parse_args.
  destruct (classify false argv) as [marks|] eqn:Hc; [|discriminate].
  intros H.
  apply (consume_keeps_iterations (length marks) marks argv defaults [] ns (le_n _)
           (classify_no_iterations argv Hargv false marks Hc) H).
Qed.

End Program.

(** X17.  Without an argument that begins with [--it], the number of
    iterations stays [0] and the program does not return by itself: it
    exits in the parser, is left by an exception, or is still running
    however long it is observed. *)
Theorem program_runs_until_stopped (fuel : nat) (E : env) (argv : list string) (w : world) :
  Forall (fun s => String.prefix "--it" s = false) argv ->
  fst (main fuel E argv w) <> Ended Returned.
Proof.
  intros Hargv. unfold main.
  destruct (Cli.parse_args argv) as [ns|status] eqn:Hparse; [|discriminate].
  pose proof (parse_args_keeps_iterations argv ns Hargv Hparse) as Hit.
  destruct (Cli.output ns) as [output_file|]; [|discriminate].
  rewrite Hit.
  destruct (Cli.interval ns) as [interval|].
  - destruct (sink_of E output_file) as [e|s] eqn:Hs.
    { now rewrite (record_cpu_raises E interval fuel 0 output_file w e Hs). }
    rewrite (record_cpu_unfold E interval fuel 0 output_file s w Hs).
    destruct (sample_loop fuel E interval 0 s 0 (at_loop_entry s w))
      as [[o c] w'] eqn:Hloop.
    cbn [fst snd]. intros H; inversion H; subst o.
    destruct (sample_loop_returned E interval 0 _ fuel _ _ _ _ Hloop) as (Hne & _).
    congruence.
  - destruct (sink_of E output_file) as [e|s]; [discriminate|].
    change (loop_cond 0 0) with true. cbv iota.
    destruct fuel; [discriminate|].
    destruct (_read_cpu_times E (at_loop_entry s w)) as [[e|l] w1]; discriminate.
Qed.

Lemma program_runs_until_stopped_witness :
  fst (main 4 Demo.steady ["--output"; "-"; "--interval"; "0.5"]%string Demo.fresh)
  <> Ended Returned.
Proof.
  apply (program_runs_until_stopped 4 Demo.steady
           ["--output"; "-"; "--interval"; "0.5"]%string Demo.fresh).
  repeat constructor.
Defined.
